(** * paid_runners_bot: candidate aggregation, scoring, filtering and ranking

    A shallow embedding of [paid_runners_bot.py] (the DexScreener paid-runners
    scanner) and the properties of its scoring, merging, filtering and ranking
    pipeline.

    Modelling conventions.
    - Python values that come from provider payloads ([Dict[str, Any]]) are
      values of [pyval]; dictionaries are [gmap string pyval].
    - Python floats are modelled by real numbers: rounding, infinities and NaN
      are outside the model.  [math.log10] is [ln x / ln 10].  The one place
      where a float is turned into an integer from a text, [int(float(s))] in
      [_safe_int], is modelled with the rounding to binary64 and its overflow.
    - A text is the sequence of the bytes of its UTF-8 encoding.  [strip]
      removes the white space of Unicode and [float] reads its decimal
      digits; [lower] maps the capitals of ASCII and leaves the other
      characters as they are.
    - A computation that can raise in Python returns [option]; [None] means
      that Python raises, or that the payload has a shape whose display text
      ([str()] of a float, a list or a dictionary) is not modelled.
    - Provider calls are read from a [world] record: one scan sees one answer
      per request.  Transport metadata ([api_debug], [errors], the timestamp
      and the verbose rejection trail of the debug record) and the progress
      callback do not influence the rows and are left out. *)

From Stdlib Require Import Reals Lra ZArith String Ascii List.
From stdpp Require Import base option gmap strings list pretty sorting.

#[local] Set Warnings "-register-all".

Local Open Scope string_scope.
Local Open Scope list_scope.
Local Open Scope Z_scope.

(** ** Python values *)

Module Py.

Inductive pyval : Type :=
| PNone
| PBool (b : bool)
| PInt (n : Z)
| PFloat (x : R)
| PStr (s : string)
| PList (l : list pyval)
| PDict (d : gmap string pyval).

Abbreviation pydict := (gmap string pyval).

#[global] Instance Rlt_decision : RelDecision Rlt := Rlt_dec.
#[global] Instance Rle_decision : RelDecision Rle := Rle_dec.
#[global] Instance Rgt_decision : RelDecision Rgt := Rgt_dec.
#[global] Instance Rge_decision : RelDecision Rge := Rge_dec.
#[global] Instance Req_decision : EqDecision R := Req_dec_T.

(** Truth value of an object ([bool(x)], [if x], [x or y]). *)
Definition truthy (v : pyval) : bool :=
  match v with
  | PNone => false
  | PBool b => b
  | PInt n => negb (n =? 0)
  | PFloat x => bool_decide (x ≠ 0%R)
  | PStr s => negb (String.eqb s "")
  | PList l => match l with [] => false | _ => true end
  | PDict d => negb (bool_decide (d = ∅))
  end.

(** [x or y] *)
Definition py_or (x y : pyval) : pyval := if truthy x then x else y.

(** [d.get(k)] and [d.get(k, dflt)] *)
Definition get (d : pydict) (k : string) : pyval := default PNone (d !! k).
Definition get_or (d : pydict) (k : string) (dflt : pyval) : pyval :=
  default dflt (d !! k).

(** [(v or {}).get(k)]: raises when [v] is true and not a dictionary. *)
Definition sub_get (v : pyval) (k : string) : option pyval :=
  if truthy v then
    match v with PDict d => Some (get d k) | _ => None end
  else Some PNone.

(** *** Strings

    A text is the sequence of the bytes of its UTF-8 encoding. *)

(** The payload of a continuation byte [10xxxxxx]. *)
Definition cont_bits (c : ascii) : option N :=
  let n := N_of_ascii c in
  if ((128 <=? n) && (n <? 192))%N then Some (n - 128)%N else None.

(** The code point of the character a text begins with and the text after
    it; [None] on the empty text and on bytes that encode no character. *)
Definition utf8_head (s : string) : option (N * string) :=
  match s with
  | EmptyString => None
  | String c s1 =>
      let n := N_of_ascii c in
      if (n <? 128)%N then Some (n, s1)
      else if (n <? 194)%N then None
      else if (n <? 224)%N then
        match s1 with
        | String d s2 =>
            x ← cont_bits d; Some (((n - 192) * 64 + x)%N, s2)
        | _ => None
        end
      else if (n <? 240)%N then
        match s1 with
        | String d (String e s3) =>
            x ← cont_bits d; y ← cont_bits e;
            let cp := (((n - 224) * 64 + x) * 64 + y)%N in
            if ((2048 <=? cp) && negb ((55296 <=? cp) && (cp <? 57344)))%N
            then Some (cp, s3) else None
        | _ => None
        end
      else if (n <? 245)%N then
        match s1 with
        | String d (String e (String f s4)) =>
            x ← cont_bits d; y ← cont_bits e; z ← cont_bits f;
            let cp := ((((n - 240) * 64 + x) * 64 + y) * 64 + z)%N in
            if ((65536 <=? cp) && (cp <? 1114112))%N
            then Some (cp, s4) else None
        | _ => None
        end
      else None
  end.

(** [str.isspace] on a character: TAB..CR, FS..US, the blank, U+0085, U+00A0,
    U+1680, U+2000..U+200A, U+2028, U+2029, U+202F, U+205F and U+3000. *)
Definition is_space (cp : N) : bool :=
  (((9 <=? cp) && (cp <=? 13)) || ((28 <=? cp) && (cp <=? 32))
   || (cp =? 133) || (cp =? 160) || (cp =? 5760)
   || ((8192 <=? cp) && (cp <=? 8202))
   || (cp =? 8232) || (cp =? 8233) || (cp =? 8239) || (cp =? 8287)
   || (cp =? 12288))%N.

(** [s.lstrip()], reading at most [k] characters. *)
Fixpoint lstrip_from (k : nat) (s : string) : string :=
  match k with
  | O => s
  | S k =>
      match utf8_head s with
      | Some (cp, rest) => if is_space cp then lstrip_from k rest else s
      | None => s
      end
  end.

Definition lstrip (s : string) : string := lstrip_from (String.length s) s.

(** [s.rstrip()]: the text without its longest end of white space. *)
Fixpoint rstrip (s : string) : string :=
  match s with
  | EmptyString => EmptyString
  | String c s' =>
      if String.eqb (lstrip s) "" then EmptyString else String c (rstrip s')
  end.

(** [s.strip()] *)
Definition strip (s : string) : string := rstrip (lstrip s).

(** [str.lower] on a byte: the capitals of ASCII. *)
Definition lower_ascii (c : ascii) : ascii :=
  let n := N_of_ascii c in
  if ((65 <=? n)%N && (n <=? 90)%N) then ascii_of_N (n + 32) else c.

(** [s.lower()] on the letters of ASCII; the capitals outside ASCII are left
    as they are.  No character outside ASCII has a lowercase text of letters
    of ASCII alone, but for U+212A, whose lowercase is k: a text with such a
    character has no lowercase equal to a name of a chain or of a mode. *)
Fixpoint lower (s : string) : string :=
  match s with
  | EmptyString => EmptyString
  | String c s' => String (lower_ascii c) (lower s')
  end.

(** [s.replace(",", "")] *)
Fixpoint remove_commas (s : string) : string :=
  match s with
  | EmptyString => EmptyString
  | String c s' =>
      if Ascii.eqb c "," then remove_commas s' else String c (remove_commas s')
  end.

(** [str(v)] for the values whose display text is modelled. *)
Definition py_str (v : pyval) : option string :=
  match v with
  | PNone => Some "None"
  | PBool true => Some "True"
  | PBool false => Some "False"
  | PInt n => Some (pretty n)
  | PStr s => Some s
  | PFloat _ | PList _ | PDict _ => None
  end.

(** [(v or "").strip()]: [AttributeError] when [v] is true and not a string. *)
Definition strip_or_empty (v : pyval) : option string :=
  if truthy v then
    match v with PStr s => Some (strip s) | _ => None end
  else Some "".

(** [(v or "").lower()] *)
Definition lower_or_empty (v : pyval) : option string :=
  if truthy v then
    match v with PStr s => Some (lower s) | _ => None end
  else Some "".

(** *** [float(s)] on a string

    [float()] first replaces, in a text with characters outside ASCII, every
    white-space character by a blank and every decimal digit by the digit of
    ASCII of the same value; it then skips the white space of C ([isspace])
    at both ends and reads the grammar of the Python reference:
    [floatvalue ::= [sign] (floatnumber | infinity | nan)],
    [floatnumber ::= number [exponent]],
    [number ::= [digitpart] "." digitpart | digitpart ["."]],
    [digitpart ::= digit (["_"] digit)*],
    [exponent ::= ("e" | "E") [sign] digitpart].
    The result [None] stands for [ValueError]; the spellings of infinity and
    NaN have no real value and are rejected too. *)

(** The zeros of the decimal digits (category Nd of Unicode 14, the tables of
    CPython 3.11); each is followed by the digits one to nine. *)
Definition digit_zeros : list N :=
  [48; 1632; 1776; 1984; 2406; 2534; 2662; 2790; 2918; 3046; 3174; 3302; 3430;
   3558; 3664; 3792; 3872; 4160; 4240; 6112; 6160; 6470; 6608; 6784; 6800;
   6992; 7088; 7232; 7248; 42528; 43216; 43264; 43472; 43504; 43600; 44016;
   65296; 66720; 68912; 69734; 69872; 69942; 70096; 70384; 70736; 70864;
   71248; 71360; 71472; 71904; 72016; 72784; 73040; 73120; 92768; 92864;
   93008; 120782; 120792; 120802; 120812; 120822; 123200; 123632; 125264;
   130032]%N.

(** The value of a decimal digit. *)
Definition decimal_digit (cp : N) : option N :=
  z ← List.find (λ z, (z <=? cp) && (cp <? z + 10))%N digit_zeros;
  Some (cp - z)%N.

(** The character of ASCII that [float()] reads for a character. *)
Definition float_char (cp : N) : option ascii :=
  if (cp <? 127)%N then Some (ascii_of_N cp)
  else if is_space cp then Some " "%char
  else (λ d, ascii_of_N (48 + d)) <$> decimal_digit cp.

(** The characters [float()] reads for a text, at most [k] of them. *)
Fixpoint float_chars_from (k : nat) (s : string) : option (list ascii) :=
  match k, s with
  | O, _ | _, EmptyString => Some []
  | S k, _ =>
      '(cp, rest) ← utf8_head s;
      c ← float_char cp;
      l ← float_chars_from k rest;
      Some (c :: l)
  end.

Definition float_chars (s : string) : option (list ascii) :=
  float_chars_from (String.length s) s.

(** [isspace] of C: TAB..CR and the blank. *)
Definition is_blank (c : ascii) : bool :=
  let n := N_of_ascii c in (((9 <=? n) && (n <=? 13)) || (n =? 32))%N.

Fixpoint skip_blanks (l : list ascii) : list ascii :=
  match l with
  | c :: l' => if is_blank c then skip_blanks l' else l
  | [] => []
  end.

Definition trim_blanks (l : list ascii) : list ascii :=
  rev (skip_blanks (rev (skip_blanks l))).

Definition is_digit (c : ascii) : bool :=
  let n := N_of_ascii c in (48 <=? n)%N && (n <=? 57)%N.

Definition digit_val (c : ascii) : Z := Z.of_N (N_of_ascii c) - 48.

(** The rest of a digit part, after its first digit: accumulated value,
    number of digits read, and the unread input. *)
Fixpoint digits_tail (acc : Z) (n : nat) (l : list ascii)
  : Z * nat * list ascii :=
  match l with
  | c :: l' =>
      if is_digit c then digits_tail (10 * acc + digit_val c) (S n) l'
      else if Ascii.eqb c "_" then
        match l' with
        | d :: l'' =>
            if is_digit d
            then digits_tail (10 * acc + digit_val d) (S n) l''
            else (acc, n, l)
        | [] => (acc, n, l)
        end
      else (acc, n, l)
  | [] => (acc, n, l)
  end.

Definition digitpart (acc : Z) (l : list ascii)
  : option (Z * nat * list ascii) :=
  match l with
  | c :: l' =>
      if is_digit c then Some (digits_tail (10 * acc + digit_val c) 1 l')
      else None
  | [] => None
  end.

(** [number]: mantissa, number of fractional digits, unread input. *)
Definition parse_number (l : list ascii) : option (Z * nat * list ascii) :=
  match digitpart 0 l with
  | Some (m, _, rest) =>
      match rest with
      | "."%char :: rest' =>
          match digitpart m rest' with
          | Some (m', k, rest'') => Some (m', k, rest'')
          | None => Some (m, 0%nat, rest')
          end
      | _ => Some (m, 0%nat, rest)
      end
  | None =>
      match l with
      | "."%char :: rest' => digitpart 0 rest'
      | _ => None
      end
  end.

Definition parse_sign (l : list ascii) : bool * list ascii :=
  match l with
  | "+"%char :: l' => (false, l')
  | "-"%char :: l' => (true, l')
  | _ => (false, l)
  end.

(** [exponent] up to the end of the input; no exponent is exponent [0]. *)
Definition parse_exponent (l : list ascii) : option Z :=
  match l with
  | [] => Some 0
  | c :: l' =>
      if Ascii.eqb c "e" || Ascii.eqb c "E" then
        let '(neg, l'') := parse_sign l' in
        match digitpart 0 l'' with
        | Some (e, _, []) => Some (if neg then - e else e)
        | _ => None
        end
      else None
  end.

(** The decimal a text denotes: the sign, the mantissa [m] and the exponent
    [p] of [m * 10^p]. *)
Definition decimal_of_string (s : string) : option (bool * Z * Z) :=
  l ← float_chars s;
  let '(neg, l) := parse_sign (trim_blanks l) in
  '(m, k, rest) ← parse_number l;
  e ← parse_exponent rest;
  Some (neg, m, e - Z.of_nat k).

Definition float_of_string (s : string) : option R :=
  (λ d : bool * Z * Z,
     let '(neg, m, p) := d in
     let x := (IZR m * powerRZ 10 p)%R in if neg then (- x)%R else x)
    <$> decimal_of_string s.

(** [int(x)] on a float: truncation towards zero. *)
Definition trunc (x : R) : Z :=
  if decide (0 <= x)%R then Int_part x else - Int_part (- x).

(** *** [int(float(s))] on a string

    [float()] rounds the decimal to the nearest binary64, ties to the even
    significand; a decimal beyond the largest binary64 becomes an infinity,
    on which [int()] raises [OverflowError]. *)

(** [a / b] rounded to the nearest integer, ties to the even one. *)
Definition div_nearest_even (a b : Z) : Z :=
  let q := a / b in
  let r := a mod b in
  if 2 * r <? b then q
  else if b <? 2 * r then q + 1
  else if Z.even q then q else q + 1.

(** The binary64 nearest to [n / d], for positive [n] and [d]: the
    significand [m] and the exponent [e] of the value [m * 2^e].  The exponent
    is that of the last place of [n / d] among numbers of 53 bits, and at
    least that of the subnormal numbers. *)
Definition b64_nearest (n d : Z) : Z * Z :=
  let e0 := Z.log2 n - Z.log2 d in
  let below :=
    if 0 <=? e0 then n <? d * 2 ^ e0 else n * 2 ^ (- e0) <? d in
  let e := Z.max ((if below then e0 - 1 else e0) - 52) (-1074) in
  let m :=
    if 0 <=? e then div_nearest_even n (d * 2 ^ e)
    else div_nearest_even (n * 2 ^ (- e)) d in
  (m, e).

(** [int(float(s))]; [None] when [float()] or [int()] raises, as [int()]
    does on the infinities and on NaN. *)
Definition int_of_float_text (s : string) : option Z :=
  d ← decimal_of_string s;
  let '(neg, m, p) := d : bool * Z * Z in
  if m =? 0 then Some 0
  else
    let '(sig, e) :=
      if 0 <=? p then b64_nearest (m * 10 ^ p) 1
      else b64_nearest m (10 ^ (- p)) in
    let v := if 0 <=? e then sig * 2 ^ e else sig / 2 ^ (- e) in
    if 2 ^ 1024 <=? v then None else Some (if neg then - v else v).

End Py.

Export Py.

(** ** Helpers *)

Definition CHAIN_ID : string := "solana".

(** [_safe_float(x, default)].  A list or a dictionary is displayed with an
    opening bracket, which [float()] rejects; the exception is caught and the
    default returned. *)
Definition _safe_float (x : pyval) (dflt : R) : R :=
  match x with
  | PNone => dflt
  | PBool b => if b then 1%R else 0%R
  | PInt n => IZR n
  | PFloat r => r
  | PStr s =>
      let s := strip s in
      if decide (s = "") then dflt
      else default dflt (float_of_string (remove_commas s))
  | PList _ | PDict _ => dflt
  end.

(** [_safe_int(x, default)] *)
Definition _safe_int (x : pyval) (dflt : Z) : Z :=
  match x with
  | PNone => dflt
  | PBool b => if b then 1 else 0
  | PInt n => n
  | PFloat r => trunc r
  | PStr s =>
      let s := strip s in
      if decide (s = "") then dflt
      else default dflt (int_of_float_text s)
  | PList _ | PDict _ => dflt
  end.

(** [_age_minutes_from_pair_created_at], with the reading of the clock
    ([_now_utc_ms()]) as an argument. *)
Definition _age_minutes_from_pair_created_at
    (now_ms : Z) (pair_created_at : pyval) : R :=
  let ts := _safe_int pair_created_at 0 in
  if decide (ts <= 0) then 999999%R
  else
    let age_ms := Z.max 0 (now_ms - ts) in
    (IZR age_ms / 60000)%R.

(** [_chunks(items, n)]: the slices [items[i:i+n]] for [i] in
    [range(0, len(items), n)]. *)
Definition _chunks {A} (items : list A) (n : nat) : list (list A) :=
  (λ i, take n (drop (i * n) items)) <$> seq 0 ((length items + n - 1) / n)%nat.

Definition chain_aliases : list string :=
  ["sol"; "solana-mainnet"; "mainnet"; "sol-mainnet"].

(** [_normalize_chain_id] *)
Definition _normalize_chain_id (chain_id : pyval) : option string :=
  c ← py_str (py_or chain_id (PStr ""));
  let c := lower (strip c) in
  Some (if bool_decide (c ∈ chain_aliases) then "solana" else c).

(** [max(a, b)] on floats: the first argument unless the second is larger. *)
Definition py_max (a b : R) : R := if decide (b > a)%R then b else a.
Definition py_min (a b : R) : R := if decide (b < a)%R then b else a.

(** [math.log10] *)
Definition log10 (x : R) : R := (ln x / ln 10)%R.

(** ** Scoring / filtering *)

(** [(pair.get(k) or {}).get(k')] *)
Definition get2 (pair : pydict) (k k' : string) : option pyval :=
  sub_get (get pair k) k'.

(** The text of a value inside an f-string. *)
Definition fmt (v : pyval) : option string := py_str v.

(** [compute_metrics_from_pair], with the reading of the clock as an
    argument. *)
Definition compute_metrics_from_pair (now_ms : Z) (pair : pydict)
  : option pydict :=
  liq_usd ← (λ v, _safe_float v 0) <$> get2 pair "liquidity" "usd";
  let fdv := _safe_float (get pair "fdv") 0 in
  let mcap := _safe_float (get pair "marketCap") 0 in
  let vol := get pair "volume" in
  vol5 ← (λ v, _safe_float v 0) <$> sub_get vol "m5";
  vol1 ← (λ v, _safe_float v 0) <$> sub_get vol "h1";
  vol24 ← (λ v, _safe_float v 0) <$> sub_get vol "h24";
  let txns := get pair "txns" in
  m5 ← sub_get txns "m5";
  buys5 ← (λ v, _safe_int v 0) <$> sub_get m5 "buys";
  sells5 ← (λ v, _safe_int v 0) <$> sub_get m5 "sells";
  let net_buy_5m := buys5 - sells5 in
  let pc := get pair "priceChange" in
  m5pct ← (λ v, _safe_float v 0) <$> sub_get pc "m5";
  h1pct ← (λ v, _safe_float v 0) <$> sub_get pc "h1";
  h6pct ← (λ v, _safe_float v 0) <$> sub_get pc "h6";
  h24pct ← (λ v, _safe_float v 0) <$> sub_get pc "h24";
  let age_min :=
    _age_minutes_from_pair_created_at now_ms (get pair "pairCreatedAt") in
  let turnover_1h_over_liq :=
    if decide (liq_usd > 0)%R then (vol1 / liq_usd)%R else 0%R in
  let base := get pair "baseToken" in
  let quote := get pair "quoteToken" in
  base_symbol ← sub_get base "symbol";
  base_name ← sub_get base "name";
  base_address ← sub_get base "address";
  quote_symbol ← sub_get quote "symbol";
  quote_address ← sub_get quote "address";
  url ← (if truthy (get pair "pairAddress")
         then (λ a, PStr ("https://dexscreener.com/solana/" +:+ a))
                <$> fmt (get pair "pairAddress")
         else Some (PStr ""));
  Some (
    <["pairAddress" := py_or (get pair "pairAddress") (PStr "")]> $
    <["dexId" := py_or (get pair "dexId") (PStr "")]> $
    <["priceUsd" := get pair "priceUsd"]> $
    <["liquidityUsd" := PFloat liq_usd]> $
    <["fdv" := PFloat fdv]> $
    <["marketCap" := PFloat mcap]> $
    <["vol5m" := PFloat vol5]> $
    <["vol1h" := PFloat vol1]> $
    <["vol24h" := PFloat vol24]> $
    <["buys5m" := PInt buys5]> $
    <["sells5m" := PInt sells5]> $
    <["netBuy5m" := PInt net_buy_5m]> $
    <["m5pct" := PFloat m5pct]> $
    <["h1pct" := PFloat h1pct]> $
    <["h6pct" := PFloat h6pct]> $
    <["h24pct" := PFloat h24pct]> $
    <["ageMin" := PFloat age_min]> $
    <["turnover_1h_over_liq" := PFloat turnover_1h_over_liq]> $
    <["baseTokenSymbol" := base_symbol]> $
    <["baseTokenName" := base_name]> $
    <["baseTokenAddress" := base_address]> $
    <["quoteTokenSymbol" := quote_symbol]> $
    <["quoteTokenAddress" := quote_address]> $
    <["urlDexscreener" := url]> ∅).

(** The result of [score_pair]: the dictionary [{score, spike_score}]. *)
Record scores := { score : R; spike_score : R }.

(** [score_pair] *)
Definition score_pair (row : pydict) (pump_mode : bool) : scores :=
  let liq := _safe_float (get row "liquidityUsd") 0 in
  let vol5 := _safe_float (get row "vol5m") 0 in
  let vol1 := _safe_float (get row "vol1h") 0 in
  let netbuy := _safe_int (get row "netBuy5m") 0 in
  let m5pct := _safe_float (get row "m5pct") 0 in
  let h1pct := _safe_float (get row "h1pct") 0 in
  let turnover := _safe_float (get row "turnover_1h_over_liq") 0 in
  let liq_s := log10 (1 + py_max liq 0) in
  let vol_s := log10 (1 + py_max vol1 0) in
  let flow_s := log10 (1 + IZR (Z.max netbuy 0)) in
  let mom :=
    (m5pct * (if pump_mode then 1.15 else 0.85) + h1pct * 0.35)%R in
  let spike_score :=
    (0.55 * py_max 0 (mom / 10) +
     0.30 * py_min 2.5 (turnover * 12) +
     0.25 * py_min 2 (flow_s / 2))%R in
  let score :=
    (0.30 * liq_s +
     0.25 * vol_s +
     1.15 * spike_score +
     (if decide (m5pct > 0)%R then 0.15 else 0))%R in
  {| score := score; spike_score := spike_score |}.

(** The threshold dictionary of a mode. *)
Record thresholds := {
  min_liq : R;
  min_vol5 : R;
  min_netbuy5 : R;
  max_age_min : R;
  min_score : R
}.

(** [_mode_thresholds] *)
Definition _mode_thresholds (mode : string) (pump_mode : bool) : thresholds :=
  let mode := lower (strip mode) in
  if decide (mode = "ultra_early") then
    {| min_liq := if pump_mode then 2500 else 4000;
       min_vol5 := if pump_mode then 40 else 80;
       min_netbuy5 := if pump_mode then 0 else 1;
       max_age_min := 240;
       min_score := 0.15 |}
  else if decide (mode = "early_strict") then
    {| min_liq := if pump_mode then 6000 else 12000;
       min_vol5 := if pump_mode then 120 else 250;
       min_netbuy5 := if pump_mode then 1 else 2;
       max_age_min := 24 * 60;
       min_score := 0.45 |}
  else if decide (mode = "early") then
    {| min_liq := if pump_mode then 3500 else 8000;
       min_vol5 := if pump_mode then 80 else 160;
       min_netbuy5 := if pump_mode then 0 else 1;
       max_age_min := 24 * 60;
       min_score := 0.25 |}
  else if decide (mode = "strict") then
    {| min_liq := if pump_mode then 15000 else 25000;
       min_vol5 := if pump_mode then 250 else 500;
       min_netbuy5 := if pump_mode then 2 else 3;
       max_age_min := 7 * 24 * 60;
       min_score := 0.85 |}
  else
    {| min_liq := if pump_mode then 2500 else 5000;
       min_vol5 := if pump_mode then 60 else 120;
       min_netbuy5 := if pump_mode then 0 else 1;
       max_age_min := 7 * 24 * 60;
       min_score := 0.20 |}.

(** [ScanOptions]; the progress callback is left out. *)
Record ScanOptions := {
  selected_modes : list string;
  top_n : Z;
  candidates_max : Z;
  anti_dead : bool;
  include_boosts : bool;
  include_profiles : bool;
  include_cto : bool;
  include_ads : bool;
  include_orders : bool;
  unique_per_token : bool;
  trending_filters : bool;
  trending_min_liquidity : R;
  trending_min_vol1h : R;
  trending_min_vol5m : R;
  trending_min_netbuy5m : Z;
  spike_score_min : R;
  verbose_debug : bool;
  pump_mode : bool;
  sort_by_spike : bool;
  chain_id : string
}.

(** [_anti_dead_pass] *)
Definition _anti_dead_pass (row : pydict) (opts : ScanOptions) : bool :=
  let liq := _safe_float (get row "liquidityUsd") 0 in
  let vol5 := _safe_float (get row "vol5m") 0 in
  let buys5 := _safe_int (get row "buys5m") 0 in
  let sells5 := _safe_int (get row "sells5m") 0 in
  let age_min := _safe_float (get row "ageMin") 999999 in
  if decide (age_min <= (if pump_mode opts then 90 else 60))%R then true
  else
    let liq_floor :=
      py_max 1200
        (trending_min_liquidity opts * (if pump_mode opts then 0.75 else 0.85))
    in
    if decide (liq < liq_floor)%R then false
    else
      let txns5 := buys5 + sells5 in
      let vol_floor :=
        py_max 40
          (trending_min_vol5m opts * (if pump_mode opts then 0.75 else 0.85))
      in
      if bool_decide (txns5 < (if pump_mode opts then 1 else 2))
         && bool_decide (vol5 < vol_floor)%R
      then false
      else if decide (age_min > 10 * 24 * 60)%R then false
      else true.

(** The rejection reasons of the trending filter, without the figures that
    the source formats into their text. *)
Inductive reason :=
| low_liq | low_vol | low_netbuy | low_spike
| promoted_no_real_buy | m5_non_positive.

(** [_trending_reasons] *)
Definition _trending_reasons (row : pydict) (opts : ScanOptions)
  : list reason :=
  let liq := _safe_float (get row "liquidityUsd") 0 in
  let vol1 := _safe_float (get row "vol1h") 0 in
  let vol5 := _safe_float (get row "vol5m") 0 in
  let netbuy5 := _safe_int (get row "netBuy5m") 0 in
  let spike := _safe_float (get row "spike_score") 0 in
  let turnover := _safe_float (get row "turnover_1h_over_liq") 0 in
  let m5pct := _safe_float (get row "m5pct") 0 in
  let boost_amt := _safe_float (get row "boostAmount") 0 in
  (if decide (liq < trending_min_liquidity opts)%R then [low_liq] else [])
  ++ (if bool_decide (vol1 < trending_min_vol1h opts)%R
         && bool_decide (vol5 < trending_min_vol5m opts)%R
      then [low_vol] else [])
  ++ (if decide (netbuy5 < trending_min_netbuy5m opts) then [low_netbuy]
      else [])
  ++ (if decide (spike < spike_score_min opts)%R then [low_spike] else [])
  ++ (if bool_decide (boost_amt > 0)%R && bool_decide (netbuy5 <= 0)
         && bool_decide (turnover < 0.01)%R
         && bool_decide (spike < py_max (spike_score_min opts) 0.40)%R
      then [promoted_no_real_buy] else [])
  ++ (if bool_decide (m5pct <= 0)%R
         && bool_decide (spike < py_max (spike_score_min opts) 0.55)%R
      then [m5_non_positive] else []).

(** ** Candidates *)

(** A value used as a list of source names: [v or []], a string standing for
    the one-element list.  The members are compared and appended as strings;
    any other shape has no result. *)
Definition source_list (v : pyval) : option (list string) :=
  match py_or v (PList []) with
  | PStr s => Some [s]
  | PList l => mapM (λ x, match x with PStr s => Some s | _ => None end) l
  | _ => None
  end.

(** [for s in ...: if s and s not in s1: s1.append(s)] *)
Fixpoint append_sources (s1 : list string) (new : list pyval)
  : option (list string) :=
  match new with
  | [] => Some s1
  | s :: new' =>
      if truthy s then
        match s with
        | PStr t =>
            append_sources (if bool_decide (t ∈ s1) then s1 else s1 ++ [t]) new'
        | _ => None
        end
      else append_sources s1 new'
  end.

Definition priority : gmap string Z :=
  <["boosts" := 3]> $ <["ads" := 2]> $ <["cto" := 1]> $ <["profiles" := 0]> ∅.

(** [table.get(str(v), 0)]; a value without modelled display text is
    displayed as a numeral or a bracketed literal, which is no key. *)
Definition table_get (table : gmap string Z) (v : pyval) : Z :=
  match py_str v with
  | Some s => default 0 (table !! s)
  | None => 0
  end.

Definition profile_keys : list string :=
  ["profileUrl"; "profileDescription"; "profileLinksCount"; "icon"; "header"].

(** [if not out.get(k) and src.get(k): out[k] = src[k]] *)
Definition fill_once (src : pydict) (out : pydict) (k : string) : pydict :=
  if negb (truthy (get out k)) && truthy (get src k)
  then <[k := get src k]> out else out.

(** The blocks of [_merge_candidate], in the order of the source. *)

(** Merge sources.  The list, which the source code extends in place, is
    rebuilt. *)
Definition merge_sources (out src : pydict) : option pydict :=
  s1 ← source_list (get out "sources");
  s2 ← source_list (get src "sources");
  s1 ← append_sources s1 (get src "source" :: (PStr <$> s2));
  Some (<["sources" := PList (PStr <$> s1)]> out).

(** Priority for primary source *)
Definition merge_primary (out src : pydict) : pydict :=
  let src_primary := get src "source" in
  let dst_primary := get out "source" in
  if decide (table_get priority src_primary > table_get priority dst_primary)
  then <["source" := src_primary]> out else out.

(** [out[k] = max(_safe_float(out.get(k)), _safe_float(src.get(k)))] *)
Definition merge_max (k : string) (out src : pydict) : pydict :=
  <[k := PFloat (py_max (_safe_float (get out k) 0)
                        (_safe_float (get src k) 0))]> out.

(** Boost numbers (max) *)
Definition merge_boosts (out src : pydict) : pydict :=
  let out := merge_max "boostAmount" out src in
  let out := merge_max "boostTotal" out src in
  <["boostType" := py_or (get out "boostType") (get src "boostType")]> out.

(** CTO *)
Definition merge_cto (out src : pydict) : pydict :=
  <["isCTO" := PBool (truthy (get out "isCTO") || truthy (get src "isCTO"))]>
    out.

(** Profile *)
Definition merge_profile (out src : pydict) : pydict :=
  foldl (fill_once src) out profile_keys.

(** [_merge_candidate] *)
Definition _merge_candidate (dst src : pydict) : option pydict :=
  if decide (dst = ∅) then Some src
  else
    out ← merge_sources dst src;
    let out := merge_primary out src in
    let out := merge_boosts out src in
    let out := merge_cto out src in
    Some (merge_profile out src).

(** The entry of a token in the table [candidates_by_token] once its records
    have arrived in the given order. *)
Definition merge_all (records : list pydict) : option pydict :=
  foldl (λ entry c, entry ≫= λ dst, _merge_candidate dst c) (Some ∅) records.

(** The three constructors return [Some None] for a discarded record.  A
    chain identifier whose display text is not modelled (a float, a list, a
    dictionary) is displayed as a numeral or a bracketed literal, which is not
    the configured chain: the record is discarded. *)

(** [_candidate_from_boost_item] *)
Definition _candidate_from_boost_item (it : pydict) : option (option pydict) :=
  match _normalize_chain_id (get it "chainId") with
  | None => Some None
  | Some chain =>
  if decide (chain ≠ CHAIN_ID) then Some None
  else
    ta ← strip_or_empty (get it "tokenAddress");
    if decide (ta = "") then Some None
    else
      let amount :=
        get_or it "amount"
          (get_or it "boostAmount" (get_or it "activeBoosts" (PInt 0))) in
      let total :=
        get_or it "totalAmount"
          (get_or it "boostTotal" (get_or it "totalBoosts" amount)) in
      let btype := get_or it "type" (get it "boostType") in
      Some (Some (
        <["chainId" := PStr chain]> $
        <["tokenAddress" := PStr ta]> $
        <["source" := PStr "boosts"]> $
        <["sources" := PList [PStr "boosts"]]> $
        <["boostAmount" := PFloat (_safe_float amount 0)]> $
        <["boostTotal" := PFloat (_safe_float total 0)]> $
        <["boostType" := btype]> $
        <["profileUrl" := py_or (get it "url") (PStr "")]> ∅))
  end.

(** [_candidate_from_ad_item] *)
Definition _candidate_from_ad_item (it : pydict) : option (option pydict) :=
  match _normalize_chain_id (get it "chainId") with
  | None => Some None
  | Some chain =>
  if decide (chain ≠ CHAIN_ID) then Some None
  else
    ta ← strip_or_empty (get it "tokenAddress");
    if decide (ta = "") then Some None
    else
      Some (Some (
        <["chainId" := PStr chain]> $
        <["tokenAddress" := PStr ta]> $
        <["source" := PStr "ads"]> $
        <["sources" := PList [PStr "ads"]]> $
        <["adType" := get it "type"]> $
        <["adDate" := get it "date"]> $
        <["adDurationHours" := get it "durationHours"]> $
        <["profileUrl" := py_or (get it "url") (PStr "")]> ∅))
  end.

(** [len(v or []) if isinstance(v, list) else 0] *)
Definition links_count (v : pyval) : Z :=
  match v with PList l => Z.of_nat (length l) | _ => 0 end.

(** [_candidate_from_cto_item] *)
Definition _candidate_from_cto_item (it : pydict) : option (option pydict) :=
  match _normalize_chain_id (get it "chainId") with
  | None => Some None
  | Some chain =>
  if decide (chain ≠ CHAIN_ID) then Some None
  else
    ta ← strip_or_empty (get it "tokenAddress");
    if decide (ta = "") then Some None
    else
      Some (Some (
        <["chainId" := PStr chain]> $
        <["tokenAddress" := PStr ta]> $
        <["source" := PStr "cto"]> $
        <["sources" := PList [PStr "cto"]]> $
        <["isCTO" := PBool true]> $
        <["profileUrl" := py_or (get it "url") (PStr "")]> $
        <["profileDescription" := py_or (get it "description") (PStr "")]> $
        <["profileLinksCount" := PInt (links_count (get it "links"))]> ∅))
  end.

(** ** Main scan *)

(** The answers of the provider during one scan, and the readings of the
    clock, one per token whose metrics are computed. *)
Record world := {
  fetch_token_boosts_latest : list pydict;
  fetch_token_boosts_top : list pydict;
  fetch_ads_latest : list pydict;
  fetch_community_takeovers_latest : list pydict;
  fetch_token_profiles_latest : list pydict;
  fetch_pairs_for_tokens_batch : list string → list pydict;
  fetch_token_pairs_fallback : string → list pydict;
  fetch_orders_for_token : string → list pydict;
  _now_utc_ms : string → Z
}.

(** The debug record: echoed options, counts, and the [why] entry. *)
Record debug := {
  dbg_opts : ScanOptions;
  dbg_counts : gmap string Z;
  dbg_why : option string
}.

(** A dictionary whose order of insertion is observed ([.values()]). *)
Definition table := list (string * pydict).

Fixpoint tbl_lookup (t : table) (k : string) : option pydict :=
  match t with
  | [] => None
  | (k', v) :: t' => if decide (k' = k) then Some v else tbl_lookup t' k
  end.

Fixpoint tbl_store (t : table) (k : string) (v : pydict) : table :=
  match t with
  | [] => [(k, v)]
  | (k', v') :: t' =>
      if decide (k' = k) then (k, v) :: t' else (k', v') :: tbl_store t' k v
  end.

(** [list.sort(key=..., reverse=True)]: the stable descending sort; [gt y x]
    says that the key of [y] is larger than the key of [x]. *)
Fixpoint insert_desc {A} (gt : A → A → bool) (x : A) (l : list A) : list A :=
  match l with
  | [] => [x]
  | y :: l' => if gt y x then y :: insert_desc gt x l' else x :: l
  end.

Definition sort_desc {A} (gt : A → A → bool) (l : list A) : list A :=
  foldr (insert_desc gt) [] l.

(** Comparison of tuples: the first components that differ decide. *)
Definition ZR_gt (a b : Z * R) : bool :=
  bool_decide (a.1 > b.1)
  || (bool_decide (a.1 = b.1) && bool_decide (a.2 > b.2)%R).

Definition RR_gt (a b : R * R) : bool :=
  bool_decide (a.1 > b.1)%R
  || (bool_decide (a.1 = b.1) && bool_decide (a.2 > b.2)%R).

Definition RRR_gt (a b : R * R * R) : bool :=
  RR_gt a.1 b.1 || (bool_decide (a.1 = b.1) && bool_decide (a.2 > b.2)%R).

(** [c["tokenAddress"].lower()] *)
Definition token_key (c : pydict) : option string :=
  match c !! "tokenAddress" with
  | Some (PStr s) => Some (lower s)
  | _ => None
  end.

(** One turn of the three loops over the records of a source. *)
Definition add_record (ctor : pydict → option (option pydict))
    (tbl : option table) (it : pydict) : option table :=
  tbl ← tbl;
  c ← ctor it;
  match c with
  | None => Some tbl
  | Some c =>
      if decide (c = ∅) then Some tbl
      else
        key ← token_key c;
        m ← _merge_candidate (default ∅ (tbl_lookup tbl key)) c;
        Some (tbl_store tbl key m)
  end.

Definition add_records (ctor : pydict → option (option pydict))
    (items : list pydict) (tbl : table) : option table :=
  foldl (add_record ctor) (Some tbl) items.

Definition boosts_items (opts : ScanOptions) (w : world) : list pydict :=
  if include_boosts opts then
    fetch_token_boosts_latest w
    ++ (if pump_mode opts then fetch_token_boosts_top w else [])
  else [].

(** Step 1: the table [candidates_by_token]. *)
Definition collect_candidates (opts : ScanOptions) (w : world)
  : option table :=
  t ← add_records _candidate_from_boost_item (boosts_items opts w) [];
  t ← (if include_ads opts
       then add_records _candidate_from_ad_item (fetch_ads_latest w) t
       else Some t);
  if include_cto opts
  then add_records _candidate_from_cto_item
         (fetch_community_takeovers_latest w) t
  else Some t.

Definition cand_table : gmap string Z :=
  <["boosts" := 3]> $ <["ads" := 2]> $ <["cto" := 1]> ∅.

(** [_cand_priority] *)
Definition _cand_priority (c : pydict) : Z * R :=
  let p := table_get cand_table (py_or (get c "source") (PStr "")) in
  (p, _safe_float (get c "boostAmount") 0).

(** [candidates[: max(1, candidates_max)]] after the sort. *)
Definition cut_candidates (opts : ScanOptions) (t : table) : list pydict :=
  take (Z.to_nat (Z.max 1 (candidates_max opts)))
    (sort_desc (λ a b, ZR_gt (_cand_priority a) (_cand_priority b)) (t.*2)).

(** Step 2: the index of the profiles, and the enrichment of the table. *)
Definition add_profile (idx : option (gmap string pydict)) (p : pydict)
  : option (gmap string pydict) :=
  idx ← idx;
  match _normalize_chain_id (get p "chainId") with
  | None => Some idx
  | Some chain =>
      if decide (chain ≠ CHAIN_ID) then Some idx
      else
        ta ← lower <$> strip_or_empty (get p "tokenAddress");
        if decide (ta = "") then Some idx
        else
          Some (<[ta :=
            <["profileUrl" := py_or (get p "url") (PStr "")]> $
            <["profileDescription" := py_or (get p "description") (PStr "")]> $
            <["profileLinksCount" := PInt (links_count (get p "links"))]> $
            <["icon" := py_or (get p "icon") (PStr "")]> $
            <["header" := py_or (get p "header") (PStr "")]> ∅]> idx)
  end.

Definition profiles_index (opts : ScanOptions) (w : world)
  : option (gmap string pydict) :=
  if include_profiles opts
  then foldl add_profile (Some ∅) (fetch_token_profiles_latest w)
  else Some ∅.

Definition enrich (idx : gmap string pydict) (tbl : option table) (c : pydict)
  : option table :=
  tbl ← tbl;
  ta ← lower <$> strip_or_empty (get c "tokenAddress");
  if decide (ta = "") then Some tbl
  else
    match idx !! ta with
    | Some prof =>
        c' ← _merge_candidate c prof;
        Some (tbl_store tbl ta c')
    | None => Some tbl
    end.

(** Step 3: the addresses, and the pairs of every token. *)
Definition token_addresses (candidates : list pydict) : option (list string) :=
  addrs ← mapM (λ c, py_str (get c "tokenAddress"))
             (filter (λ c, truthy (get c "tokenAddress")) candidates);
  Some (filter (λ a, a ≠ "") (strip <$> addrs)).

Abbreviation pair_index := (gmap string (list pydict)).

(** [idx.setdefault(k, []).extend(ps)] *)
Definition extend (idx : pair_index) (k : string) (ps : list pydict)
  : pair_index :=
  <[k := default [] (idx !! k) ++ ps]> idx.

Definition address_key (v : pyval) : option string :=
  (λ s, lower (strip s)) <$> py_str (py_or v (PStr "")).

Definition group_pair (idx : option pair_index) (p : pydict)
  : option pair_index :=
  idx ← idx;
  base ← get2 p "baseToken" "address";
  quote ← get2 p "quoteToken" "address";
  base_l ← address_key base;
  quote_l ← address_key quote;
  let idx := if decide (base_l ≠ "") then extend idx base_l [p] else idx in
  Some (if decide (quote_l ≠ "") then extend idx quote_l [p] else idx).

Definition fallback (w : world) (idx : pair_index) (a : string) : pair_index :=
  match fetch_token_pairs_fallback w a with
  | [] => idx
  | pairs_fb => extend idx (lower a) pairs_fb
  end.

(** The pairs of the batched requests, and their index by token. *)
Definition batch_pairs (w : world) (token_addrs : list string) : list pydict :=
  concat (fetch_pairs_for_tokens_batch w <$> _chunks token_addrs 30).

Definition batch_index (w : world) (token_addrs : list string)
  : option pair_index :=
  foldl group_pair (Some ∅) (batch_pairs w token_addrs).

Definition missing_tokens (idx : pair_index) (token_addrs : list string)
  : list string :=
  filter (λ a, idx !! lower a = None) token_addrs.

(** The single requests for at most 15 of the tokens the batches missed. *)
Definition resolve_missing (w : world) (idx : pair_index)
    (missing : list string) : pair_index :=
  foldl (fallback w) idx (take (Nat.min 15 (length missing)) missing).

(** Step 4: the best pair of a token, by liquidity and then 24h volume. *)
Fixpoint best_pair (best : option pydict) (best_key : R * R)
    (pairs : list pydict) : option (option pydict) :=
  match pairs with
  | [] => Some best
  | p :: pairs' =>
      liq ← (λ v, _safe_float v 0) <$> get2 p "liquidity" "usd";
      vol24 ← (λ v, _safe_float v 0) <$> get2 p "volume" "h24";
      let key := (liq, vol24) in
      if RR_gt key best_key then best_pair (Some p) key pairs'
      else best_pair best best_key pairs'
  end.

(** [sc = score_pair(row, pump_mode=...); row.update(sc)] *)
Definition with_scores (row : pydict) (pump : bool) : pydict :=
  let sc := score_pair row pump in
  <["spike_score" := PFloat (spike_score sc)]> $
  <["score" := PFloat (score sc)]> row.

(** The row of a token before the filters, from its best pair. *)
Definition build_base_row (opts : ScanOptions) (w : world) (tbl : table)
    (token_addr : string) (best : pydict) : option pydict :=
  let ta_l := lower token_addr in
  let base := get best "baseToken" in
  let quote := get best "quoteToken" in
  symbol ← (λ v, py_or v (PStr "")) <$> sub_get base "symbol";
  name ← (λ v, py_or v (PStr "")) <$> sub_get base "name";
  base_l ← sub_get base "address" ≫= address_key;
  '(symbol, name) ←
    (if decide (base_l ≠ ta_l) then
       quote_l ← sub_get quote "address" ≫= address_key;
       if decide (quote_l = ta_l) then
         qs ← sub_get quote "symbol";
         qn ← sub_get quote "name";
         Some (py_or qs symbol, py_or qn name)
       else Some (symbol, name)
     else Some (symbol, name));
  let base_row : pydict :=
    <["tokenAddress" := PStr token_addr]> $
    <["symbol" := symbol]> $
    <["name" := name]> ∅ in
  metrics ← compute_metrics_from_pair (_now_utc_ms w token_addr) best;
  let base_row := metrics ∪ base_row in
  let cand := default ∅ (tbl_lookup tbl ta_l) in
  let source := py_or (get cand "source") (PStr "") in
  let base_row := <["source" := source]> base_row in
  let base_row :=
    <["sources" :=
        if truthy source then py_or (get cand "sources") (PList [source])
        else PList []]> base_row in
  let base_row :=
    <["boostAmount" := PFloat (_safe_float (get cand "boostAmount") 0)]>
      base_row in
  let base_row :=
    <["boostTotal" := PFloat (_safe_float (get cand "boostTotal") 0)]>
      base_row in
  let base_row := <["boostType" := get cand "boostType"]> base_row in
  let base_row := <["isCTO" := PBool (truthy (get cand "isCTO"))]> base_row in
  let base_row :=
    <["profileUrl" :=
        py_or (get cand "profileUrl")
          (py_or (get base_row "profileUrl") (PStr ""))]> base_row in
  let base_row :=
    <["profileDescription" :=
        py_or (get cand "profileDescription") (PStr "")]> base_row in
  let base_row :=
    <["profileLinksCount" :=
        PInt (_safe_int (get cand "profileLinksCount") 0)]> base_row in
  let base_row :=
    <["urlGMGN" :=
        PStr (if decide (token_addr ≠ "")
              then "https://gmgn.ai/sol/token/" +:+ token_addr else "")]>
      base_row in
  Some (with_scores base_row (pump_mode opts)).

(** The threshold gate of one mode on a scored row. *)
Definition mode_pass (base_row : pydict) (pump : bool) (mode : string)
  : bool :=
  let t := _mode_thresholds mode pump in
  if decide (_safe_float (get base_row "liquidityUsd") 0 < min_liq t)%R
  then false
  else if decide (_safe_float (get base_row "vol5m") 0 < min_vol5 t)%R
  then false
  else if decide (_safe_int (get base_row "netBuy5m") 0
                  < trunc (min_netbuy5 t))
  then false
  else if decide (_safe_float (get base_row "ageMin") 0 > max_age_min t)%R
  then false
  else if decide (_safe_float (get base_row "score") 0 < min_score t)%R
  then false
  else true.

(** [for mode in opts.selected_modes: ...]: one row per mode that passes. *)
Definition mode_rows (opts : ScanOptions) (base_row : pydict) : list pydict :=
  (λ mode, <["mode" := PStr mode]> base_row)
    <$> filter (λ mode, mode_pass base_row (pump_mode opts) mode)
          (selected_modes opts).

(** The rows of one token, after the anti-dead and trending filters. *)
Definition token_rows (opts : ScanOptions) (w : world) (tbl : table)
    (idx : pair_index) (token_addr : string) : option (list pydict) :=
  match default [] (idx !! lower token_addr) with
  | [] => Some []
  | pairs =>
      best ← best_pair None (-1, -1)%R pairs;
      match best with
      | None => Some []
      | Some best =>
          if decide (best = ∅) then Some []
          else
            base_row ← build_base_row opts w tbl token_addr best;
            if anti_dead opts && negb (_anti_dead_pass base_row opts)
            then Some []
            else if trending_filters opts
                    && bool_decide (_trending_reasons base_row opts ≠ [])
            then Some []
            else Some (mode_rows opts base_row)
      end
  end.

(** Step 5: ranking and the reduction to one row per token. *)

(** [_rank_key] *)
Definition _rank_key (opts : ScanOptions) (r : pydict) : R * R * R :=
  let spike := _safe_float (get r "spike_score") 0 in
  let score := _safe_float (get r "score") 0 in
  let liq := _safe_float (get r "liquidityUsd") 0 in
  (if sort_by_spike opts then spike else score, score, liq).

Definition rank_gt (opts : ScanOptions) (a b : pydict) : bool :=
  RRR_gt (_rank_key opts a) (_rank_key opts b).

(** [rows.sort(key=_rank_key, reverse=True)] *)
Definition sort_rows (opts : ScanOptions) (rows : list pydict) : list pydict :=
  sort_desc (rank_gt opts) rows.

(** The loop that fills [best_per_token]: the first row of every token. *)
Fixpoint best_per_token (best : table) (rows : list pydict) : option table :=
  match rows with
  | [] => Some best
  | r :: rows' =>
      ta ← lower_or_empty (get r "tokenAddress");
      if decide (ta = "") then best_per_token best rows'
      else if decide (tbl_lookup best ta = None)
      then best_per_token (best ++ [(ta, r)]) rows'
      else best_per_token best rows'
  end.

(** The body of [if opts.unique_per_token:], on the sorted rows. *)
Definition unique_rows (opts : ScanOptions) (rows : list pydict)
  : option (list pydict) :=
  best ← best_per_token [] rows;
  Some (sort_rows opts (best.*2)).

(** The whole of step 5, on the rows that passed the filters. *)
Definition rank_rows (opts : ScanOptions) (rows : list pydict)
  : option (list pydict) :=
  let rows := sort_rows opts rows in
  rows ← (if unique_per_token opts then unique_rows opts rows else Some rows);
  Some (take (Z.to_nat (Z.max 1 (top_n opts))) rows).

(** Step 6: the paid orders of a finalist. *)
Definition add_orders (w : world) (r : pydict) : option pydict :=
  ta ← strip_or_empty (get r "tokenAddress");
  if decide (ta = "") then Some r
  else
    let orders := fetch_orders_for_token w ta in
    Some (<["isDexPaid" := PBool (bool_decide (orders ≠ []))]> $
          <["orders_count" := PInt (Z.of_nat (length orders))]> r).

(** The options as [run_scan_for_modes] builds them from its arguments. *)
Definition make_opts (args : ScanOptions) : ScanOptions :=
  {| selected_modes := (λ m, lower (strip m)) <$> selected_modes args;
     top_n := top_n args;
     candidates_max := candidates_max args;
     anti_dead := anti_dead args;
     include_boosts := include_boosts args;
     include_profiles := include_profiles args;
     include_cto := include_cto args;
     include_ads := include_ads args;
     include_orders := include_orders args;
     unique_per_token := unique_per_token args;
     trending_filters := trending_filters args;
     trending_min_liquidity := trending_min_liquidity args;
     trending_min_vol1h := trending_min_vol1h args;
     trending_min_vol5m := trending_min_vol5m args;
     trending_min_netbuy5m := trending_min_netbuy5m args;
     spike_score_min := spike_score_min args;
     verbose_debug := verbose_debug args;
     pump_mode := pump_mode args;
     sort_by_spike := sort_by_spike args;
     chain_id := CHAIN_ID |}.

Definition count (n : nat) : Z := Z.of_nat n.

(** [run_scan_for_modes]: the rows and the debug record. *)
Definition run_scan_for_modes (args : ScanOptions) (w : world)
  : option (list pydict * debug) :=
  let opts := make_opts args in
  let counts : gmap string Z :=
    {["boost_items_raw" := count (length (boosts_items opts w))]} in
  candidates_by_token ← collect_candidates opts w;
  let counts :=
    <["ads_items_raw" :=
        if include_ads opts then count (length (fetch_ads_latest w)) else 0]>
      counts in
  let counts :=
    <["cto_items_raw" :=
        if include_cto opts
        then count (length (fetch_community_takeovers_latest w)) else 0]>
      counts in
  let candidates := cut_candidates opts candidates_by_token in
  let counts := <["candidates_unique" := count (length candidates)]> counts in
  match candidates with
  | [] =>
      Some ([], {| dbg_opts := opts; dbg_counts := counts;
                   dbg_why := Some "no_candidates" |})
  | _ =>
      profiles_idx ← profiles_index opts w;
      let counts :=
        <["profiles_raw" :=
            if include_profiles opts
            then count (length (fetch_token_profiles_latest w)) else 0]>
          counts in
      candidates_by_token ←
        foldl (enrich profiles_idx) (Some candidates_by_token) candidates;
      token_addrs ← token_addresses candidates;
      let all_pairs := batch_pairs w token_addrs in
      let counts := <["pairs_returned" := count (length all_pairs)]> counts in
      pairs_by_token ← batch_index w token_addrs;
      let missing := missing_tokens pairs_by_token token_addrs in
      let counts :=
        <["tokens_missing_from_batch" := count (length missing)]> counts in
      let pairs_by_token := resolve_missing w pairs_by_token missing in
      per_token ←
        mapM (token_rows opts w candidates_by_token pairs_by_token) token_addrs;
      let rows := concat per_token in
      let counts := <["rows_after_filters" := count (length rows)]> counts in
      let dbg :=
        {| dbg_opts := opts; dbg_counts := counts; dbg_why := None |} in
      match rows with
      | [] => Some ([], dbg)
      | _ =>
          rows ← rank_rows opts rows;
          rows ← (if include_orders opts then mapM (add_orders w) rows
                  else Some rows);
          Some (rows, dbg)
      end
  end.

(** ** Specification-side definitions and example data *)

(** The scoring formulas as the specification words them. *)
Definition spec_mom (m5pct h1pct : R) (pump : bool) : R :=
  (m5pct * (if pump then 1.15 else 0.85) + h1pct * 0.35)%R.

Definition spec_spike_score (m5pct h1pct turnover : R) (netBuy5m : Z)
    (pump : bool) : R :=
  let mom := spec_mom m5pct h1pct pump in
  let flow_s := log10 (1 + Rmax (IZR netBuy5m) 0) in
  (0.55 * Rmax 0 (mom / 10) + 0.30 * Rmin 2.5 (turnover * 12)
   + 0.25 * Rmin 2 (flow_s / 2))%R.

Definition spec_score (liquidity vol1h m5pct h1pct turnover : R)
    (netBuy5m : Z) (pump : bool) : R :=
  let liq_s := log10 (1 + Rmax liquidity 0) in
  let vol_s := log10 (1 + Rmax vol1h 0) in
  (0.30 * liq_s + 0.25 * vol_s
   + 1.15 * spec_spike_score m5pct h1pct turnover netBuy5m pump
   + (if decide (m5pct > 0)%R then 0.15 else 0))%R.

(** The metrics of scenario A. *)
Definition scenario_A : pydict :=
  <["liquidityUsd" := PFloat 20000]> $
  <["vol5m" := PFloat 300]> $
  <["vol1h" := PFloat 1500]> $
  <["netBuy5m" := PInt 3]> $
  <["m5pct" := PFloat 5]> $
  <["h1pct" := PFloat 2]> $
  <["ageMin" := PFloat 30]> $
  <["turnover_1h_over_liq" := PFloat (1500 / 20000)]> ∅.

(** A candidate record as the table holds it: not empty, its [sources] a
    list of names (or one name), its [source] a name when it has one.  The
    constructors build such records and merging preserves them. *)
Definition wf_candidate (c : pydict) : Prop :=
  c ≠ ∅
  ∧ is_Some (source_list (get c "sources"))
  ∧ (truthy (get c "source") = true → ∃ s, get c "source" = PStr s).

(** [it.get("amount", it.get("boostAmount", it.get("activeBoosts", 0)))] *)
Definition boost_amount (it : pydict) : R :=
  _safe_float
    (get_or it "amount"
       (get_or it "boostAmount" (get_or it "activeBoosts" (PInt 0)))) 0.

(** The records of scenario C and the candidates built from them. *)
Definition boost_item_50 : pydict :=
  <["chainId" := PStr "solana"]> $
  <["tokenAddress" := PStr "TokenA"]> $
  <["amount" := PInt 50]> ∅.

Definition ad_item_A : pydict :=
  <["chainId" := PStr "solana"]> $
  <["tokenAddress" := PStr "TokenA"]> $
  <["type" := PStr "tokenAd"]> ∅.

Definition cto_item_A : pydict :=
  <["chainId" := PStr "sol"]> $
  <["tokenAddress" := PStr " TokenA "]> ∅.

Definition candidate_of (r : option (option pydict)) : pydict :=
  default ∅ (default None r).

(** The pair snapshot of scenario A, created 30 minutes before [now_A]. *)
Definition pair_A : pydict :=
  <["pairAddress" := PStr "PairA"]> $
  <["dexId" := PStr "raydium"]> $
  <["baseToken" :=
      PDict (<["address" := PStr "TokenA"]> $ <["symbol" := PStr "TKA"]> $
             <["name" := PStr "Token A"]> ∅)]> $
  <["quoteToken" :=
      PDict (<["address" := PStr "So11"]> $ <["symbol" := PStr "SOL"]> ∅)]> $
  <["liquidity" := PDict {["usd" := PFloat 20000]}]> $
  <["volume" :=
      PDict (<["m5" := PFloat 300]> $ <["h1" := PFloat 1500]> $
             <["h24" := PFloat 9000]> ∅)]> $
  <["txns" :=
      PDict {["m5" := PDict (<["buys" := PInt 10]> $ <["sells" := PInt 7]> ∅)]}]> $
  <["priceChange" :=
      PDict (<["m5" := PFloat 5]> $ <["h1" := PFloat 2]> ∅)]> $
  <["pairCreatedAt" := PInt 1700000000000]> ∅.

Definition now_A : Z := 1700000000000 + 30 * 60000.

(** Descending lexicographic order on rank keys. *)
Definition lex_ge (a b : R * R * R) : Prop :=
  (a.1.1 > b.1.1)%R
  ∨ (a.1.1 = b.1.1
     ∧ ((a.1.2 > b.1.2)%R ∨ (a.1.2 = b.1.2 ∧ (a.2 >= b.2)%R))).

(** The rank key of [a] is greater than or equal to the rank key of [b]. *)
Definition rank_ge (opts : ScanOptions) (a b : pydict) : Prop :=
  lex_ge (_rank_key opts a) (_rank_key opts b).

(** [(r.get("tokenAddress") or "").lower()]: the token of a row. *)
Definition row_token (r : pydict) : option string :=
  lower_or_empty (get r "tokenAddress").

(** A row as the scan builds it: its token address is a non-empty string. *)
Definition has_token (r : pydict) : Prop :=
  ∃ s, row_token r = Some s ∧ s ≠ "".

(** [max(1, opts.top_n)] as a number of rows. *)
Definition row_limit (opts : ScanOptions) : nat :=
  Z.to_nat (Z.max 1 (top_n opts)).

(** The rows of a scan that passed the filters: the list [rows] of
    [run_scan_for_modes] at the end of step 4. *)
Definition qualifying_rows (args : ScanOptions) (w : world)
  : option (list pydict) :=
  let opts := make_opts args in
  candidates_by_token ← collect_candidates opts w;
  let candidates := cut_candidates opts candidates_by_token in
  match candidates with
  | [] => Some []
  | _ =>
      profiles_idx ← profiles_index opts w;
      candidates_by_token ←
        foldl (enrich profiles_idx) (Some candidates_by_token) candidates;
      token_addrs ← token_addresses candidates;
      pairs_by_token ← batch_index w token_addrs;
      let missing := missing_tokens pairs_by_token token_addrs in
      let pairs_by_token := resolve_missing w pairs_by_token missing in
      per_token ←
        mapM (token_rows opts w candidates_by_token pairs_by_token) token_addrs;
      Some (concat per_token)
  end.

(** The ranking of step 5 before its truncation: the sorted rows, reduced to
    the first row of every token when [unique_per_token] is set. *)
Definition ranked_rows (opts : ScanOptions) (rows : list pydict)
  : option (list pydict) :=
  let rows := sort_rows opts rows in
  if unique_per_token opts then unique_rows opts rows else Some rows.

(** Step 6 on the rows of step 5. *)
Definition with_orders (opts : ScanOptions) (w : world) (rows : list pydict)
  : option (list pydict) :=
  if include_orders opts then mapM (add_orders w) rows else Some rows.

(** One row per token: [ranked] holds rows of [rows], no two of them of the
    same token, and for every row of [rows] a row of its token that ranks at
    least as high. *)
Definition best_of_tokens (opts : ScanOptions) (rows ranked : list pydict)
  : Prop :=
  (∀ r, r ∈ ranked → r ∈ rows)
  ∧ NoDup (row_token <$> ranked)
  ∧ ∀ q, q ∈ rows →
      ∃ r, r ∈ ranked ∧ row_token r = row_token q ∧ rank_ge opts r q.

(** The arguments of [run_scan_for_modes] with their default values, for
    given modes, result count and pump mode. *)
Definition scan_args (modes : list string) (top : Z) (pump : bool)
  : ScanOptions :=
  {| selected_modes := modes;
     top_n := top;
     candidates_max := 250;
     anti_dead := true;
     include_boosts := true;
     include_profiles := true;
     include_cto := true;
     include_ads := false;
     include_orders := false;
     unique_per_token := true;
     trending_filters := true;
     trending_min_liquidity := 15000;
     trending_min_vol1h := 1000;
     trending_min_vol5m := 500;
     trending_min_netbuy5m := 2;
     spike_score_min := 0.25;
     verbose_debug := false;
     pump_mode := pump;
     sort_by_spike := true;
     chain_id := CHAIN_ID |}.

(** The five modes. *)
Definition five_modes : list string :=
  ["ultra_early"; "early_strict"; "early"; "strict"; "degen"].

(** A row that passed the filters, reduced to the fields the ranking reads. *)
Definition qualifying_row (token mode : string) : pydict :=
  <["tokenAddress" := PStr token]> $
  <["mode" := PStr mode]> $
  <["spike_score" := PFloat 0.7]> $
  <["score" := PFloat 3]> $
  <["liquidityUsd" := PFloat 20000]> ∅.

(** Four tokens that qualify for the five modes: twenty rows. *)
Definition twenty_rows : list pydict :=
  token ← ["TokenA"; "TokenB"; "TokenC"; "TokenD"];
  qualifying_row token <$> five_modes.

(** The provider that answers every request with the empty list. *)
Definition silent_world : world :=
  {| fetch_token_boosts_latest := [];
     fetch_token_boosts_top := [];
     fetch_ads_latest := [];
     fetch_community_takeovers_latest := [];
     fetch_token_profiles_latest := [];
     fetch_pairs_for_tokens_batch := λ _, [];
     fetch_token_pairs_fallback := λ _, [];
     fetch_orders_for_token := λ _, [];
     _now_utc_ms := λ _, 0 |}.

(** Scenario A as a scan: one boosted token whose only pair is [pair_A]. *)
Definition world_A : world :=
  {| fetch_token_boosts_latest := [boost_item_50];
     fetch_token_boosts_top := [];
     fetch_ads_latest := [];
     fetch_community_takeovers_latest := [];
     fetch_token_profiles_latest := [];
     fetch_pairs_for_tokens_batch := λ _, [pair_A];
     fetch_token_pairs_fallback := λ _, [];
     fetch_orders_for_token := λ _, [];
     _now_utc_ms := λ _, now_A |}.

Definition args_A : ScanOptions :=
  scan_args ["early_strict"; "degen"; "strict"] 5 true.

Definition candidate_A : pydict :=
  candidate_of (_candidate_from_boost_item boost_item_50).

(** The table, the pair index, and the scored row of the token in this scan. *)
Definition table_A : table := [("tokena", candidate_A)].
Definition index_A : pair_index :=
  <["so11" := [pair_A]]> (<["tokena" := [pair_A]]> ∅).

Definition base_row_A : pydict :=
  default ∅ (build_base_row (make_opts args_A) world_A table_A "TokenA" pair_A).

(** The fields [score_pair] reads. *)
Definition scoring_fields : list string :=
  ["liquidityUsd"; "vol1h"; "netBuy5m"; "m5pct"; "h1pct";
   "turnover_1h_over_liq"].

(** The row of the token for a mode. *)
Definition row_A (mode : string) : pydict := <["mode" := PStr mode]> base_row_A.

(** A paid order of a token. *)
Definition order_A : pydict :=
  <["type" := PStr "tokenProfile"]> $ <["status" := PStr "approved"]> ∅.

(** Scenario A with a provider that lists one paid order for every token. *)
Definition world_B : world :=
  {| fetch_token_boosts_latest := [boost_item_50];
     fetch_token_boosts_top := [];
     fetch_ads_latest := [];
     fetch_community_takeovers_latest := [];
     fetch_token_profiles_latest := [];
     fetch_pairs_for_tokens_batch := λ _, [pair_A];
     fetch_token_pairs_fallback := λ _, [];
     fetch_orders_for_token := λ _, [order_A];
     _now_utc_ms := λ _, now_A |}.

(** The arguments of scenario A for two rows, without the reduction to one
    row per token and with the paid orders. *)
Definition args_B : ScanOptions :=
  {| selected_modes := ["early_strict"; "degen"; "strict"];
     top_n := 2;
     candidates_max := 250;
     anti_dead := true;
     include_boosts := true;
     include_profiles := true;
     include_cto := true;
     include_ads := false;
     include_orders := true;
     unique_per_token := false;
     trending_filters := true;
     trending_min_liquidity := 15000;
     trending_min_vol1h := 1000;
     trending_min_vol5m := 500;
     trending_min_netbuy5m := 2;
     spike_score_min := 0.25;
     verbose_debug := false;
     pump_mode := true;
     sort_by_spike := true;
     chain_id := CHAIN_ID |}.

(** The row of the token for a mode, with its paid orders. *)
Definition paid_row_A (mode : string) : pydict :=
  <["isDexPaid" := PBool true]> $ <["orders_count" := PInt 1]> $ row_A mode.

(** A creation timestamp that is missing, zero, negative or not numeric: the
    value is absent, or it is a number that is zero or less (for a float,
    below one, which [int()] truncates to zero or less), or it is a text that
    is no number or the text of such a number, or it is no scalar at all. *)
Definition no_timestamp (v : pyval) : Prop :=
  match v with
  | PNone => True
  | PBool b => b = false
  | PInt n => n <= 0
  | PFloat x => (x < 1)%R
  | PStr s =>
      match float_of_string (strip s) with
      | Some x => (x <= 0)%R
      | None => True
      end
  | PList _ | PDict _ => True
  end.

(** The text of a chain identifier after trimming and lowercasing. *)
Definition chain_text (chain_id : pyval) : option string :=
  (λ c, lower (strip c)) <$> py_str (py_or chain_id (PStr "")).

(** The texts that stand for the configured chain. *)
Definition accepted_chains : list string :=
  ["sol"; "solana-mainnet"; "mainnet"; "sol-mainnet"; "solana"].

(** U+00A0, the no-break space, and U+2003, the em space, as texts. *)
Definition nbsp : string := String "194"%char (String "160"%char "").
Definition em_space : string :=
  String "226"%char (String "128"%char (String "131"%char "")).

(** The chain identifier of a record is one of the accepted ones. *)
Definition chain_accepted (it : pydict) : Prop :=
  ∃ c, chain_text (get it "chainId") = Some c ∧ c ∈ accepted_chains.

(** The three candidate constructors. *)
Definition constructors : list (pydict → option (option pydict)) :=
  [_candidate_from_boost_item; _candidate_from_ad_item;
   _candidate_from_cto_item].

(** A record of the configured chain that names no token. *)
Definition item_without_address : pydict := {["chainId" := PStr "solana"]}.

(** ** Further parts of the program *)

(** The key by which the best pair of a token is chosen:
    [(liquidity.usd, volume.h24)], both read with [_safe_float]. *)
Definition pair_key (p : pydict) : option (R * R) :=
  liq ← (λ v, _safe_float v 0) <$> get2 p "liquidity" "usd";
  vol24 ← (λ v, _safe_float v 0) <$> get2 p "volume" "h24";
  Some (liq, vol24).

(** ** API wrappers

    The wrappers of the provider's endpoints, over the transport
    [_http_get_json]: a function of the URL that gives the decoded JSON value
    of the answer, or [PNone] when the request fails (a status of 400 or
    more, or an exception).  The debug dictionary that accompanies every
    answer is left out. *)

Module Api.

Definition DEX_BASE : string := "https://api.dexscreener.com".

(** [for k in keys: if isinstance(data.get(k), list): return data[k]] *)
Fixpoint first_list (data : pydict) (keys : list string)
  : option (list pyval) :=
  match keys with
  | [] => None
  | k :: keys' =>
      match get data k with
      | PList l => Some l
      | _ => first_list data keys'
      end
  end.

(** The answers that are tested for a dictionary first. *)
Definition keyed_or_list (keys : list string) (data : pyval) : list pyval :=
  match
    match data with PDict d => first_list d keys | _ => None end
  with
  | Some l => l
  | None => match data with PList l => l | _ => [] end
  end.

(** The answers that are tested for a list first. *)
Definition list_or_keyed (keys : list string) (data : pyval) : list pyval :=
  match data with
  | PList l => l
  | PDict d => default [] (first_list d keys)
  | _ => []
  end.

Definition is_str (v : pyval) : bool :=
  match v with PStr _ => true | _ => false end.

(** The loop of [fetch_pairs_for_tokens_batch] that keeps the addresses
    unique up to case, in their order. *)
Fixpoint unique_addresses (seen : gset string) (token_addresses : list string)
  : list string :=
  match token_addresses with
  | [] => []
  | a :: rest =>
      let aa := strip a in
      if decide (aa = "") then unique_addresses seen rest
      else if decide (lower aa ∈ seen) then unique_addresses seen rest
      else aa :: unique_addresses ({[lower aa]} ∪ seen) rest
  end.

Section wrappers.
Variable _http_get_json : string → pyval.

Definition fetch_token_boosts_latest : list pyval :=
  keyed_or_list ["data"; "boosts"; "tokens"; "results"]
    (_http_get_json (DEX_BASE +:+ "/token-boosts/latest/v1")).

Definition fetch_token_boosts_top : list pyval :=
  keyed_or_list ["data"; "boosts"; "tokens"; "results"]
    (_http_get_json (DEX_BASE +:+ "/token-boosts/top/v1")).

Definition fetch_ads_latest : list pyval :=
  list_or_keyed ["data"; "ads"; "results"]
    (_http_get_json (DEX_BASE +:+ "/ads/latest/v1")).

Definition fetch_token_profiles_latest : list pyval :=
  let data := _http_get_json (DEX_BASE +:+ "/token-profiles/latest/v1") in
  match data with
  | PList l => l
  | PDict d =>
      match first_list d ["data"; "profiles"; "results"] with
      | Some l => l
      | None =>
          if is_str (get d "tokenAddress") && is_str (get d "chainId")
          then [data] else []
      end
  | _ => []
  end.

Definition fetch_community_takeovers_latest : list pyval :=
  list_or_keyed ["data"; "results"; "ctos"]
    (_http_get_json (DEX_BASE +:+ "/community-takeovers/latest/v1")).

Definition fetch_orders_for_token (chain_id : pyval) (token_address : string)
  : option (list pyval) :=
  chain_id ← _normalize_chain_id chain_id;
  Some (list_or_keyed ["orders"; "data"; "results"]
          (_http_get_json
             (DEX_BASE +:+ "/orders/v1/" +:+ chain_id +:+ "/"
              +:+ token_address))).

Definition fetch_pairs_for_tokens_batch (chain_id : pyval)
    (token_addresses : list string) : option (list pyval) :=
  chain_id ← _normalize_chain_id chain_id;
  match unique_addresses ∅ token_addresses with
  | [] => Some []
  | addrs =>
      Some (list_or_keyed ["pairs"; "data"; "results"]
              (_http_get_json
                 (DEX_BASE +:+ "/tokens/v1/" +:+ chain_id +:+ "/"
                  +:+ String.concat "," addrs)))
  end.

Definition fetch_token_pairs_fallback (chain_id : pyval)
    (token_address : string) : option (list pyval) :=
  chain_id ← _normalize_chain_id chain_id;
  Some (list_or_keyed ["pairs"; "data"; "results"]
          (_http_get_json
             (DEX_BASE +:+ "/token-pairs/v1/" +:+ chain_id +:+ "/"
              +:+ token_address))).

End wrappers.

End Api.

(** ** Helpers of older versions of the user interface *)

(** [(it.get("tokenAddress") or it.get("token_address") or "").strip().lower()] *)
Definition item_key (it : pydict) : option string :=
  lower <$> strip_or_empty
              (py_or (get it "tokenAddress") (get it "token_address")).

(** [_index_by_token] *)
Definition _index_by_token (items : list pydict)
  : option (gmap string pydict) :=
  foldl (λ idx it,
           idx ← idx;
           ta ← item_key it;
           if decide (ta = "") then Some idx else Some (<[ta := it]> idx))
    (Some ∅) items.

(** The grouping of the pairs in [scan_runners]: the addresses are lowercased
    but not trimmed, and [.lower()] raises on an address that is true and no
    text. *)
Definition legacy_group (idx : pair_index) (v : pyval) (p : pydict)
  : option pair_index :=
  if truthy v then
    match v with PStr s => Some (extend idx (lower s) [p]) | _ => None end
  else Some idx.

Definition legacy_group_pair (idx : option pair_index) (p : pydict)
  : option pair_index :=
  idx ← idx;
  base ← (λ v, py_or v (PStr "")) <$> get2 p "baseToken" "address";
  quote ← (λ v, py_or v (PStr "")) <$> get2 p "quoteToken" "address";
  idx ← legacy_group idx base p;
  legacy_group idx quote p.

(** [max(pairs, key=...)]: the first pair with the largest key; [ValueError]
    on the empty list. *)
Definition max_pair (pairs : list pydict) : option pydict :=
  match pairs with
  | [] => None
  | p :: pairs' =>
      k ← pair_key p;
      best ← best_pair (Some p) k pairs';
      best
  end.

(** The symbol and the name of a token in its best pair. *)
Definition symbol_and_name (best : pydict) (ta_l : string)
  : option (pyval * pyval) :=
  let base := get best "baseToken" in
  let quote := get best "quoteToken" in
  symbol ← (λ v, py_or v (PStr "")) <$> sub_get base "symbol";
  name ← (λ v, py_or v (PStr "")) <$> sub_get base "name";
  base_l ← sub_get base "address" ≫= address_key;
  if decide (base_l ≠ ta_l) then
    quote_l ← sub_get quote "address" ≫= address_key;
    if decide (quote_l = ta_l) then
      qs ← sub_get quote "symbol";
      qn ← sub_get quote "name";
      Some (py_or qs symbol, py_or qn name)
    else Some (symbol, name)
  else Some (symbol, name).

(** The scored row of a token in [scan_runners]. *)
Definition legacy_row (w : world) (pump : bool) (ta : string) (best : pydict)
  : option pydict :=
  '(symbol, name) ← symbol_and_name best (lower ta);
  let row : pydict :=
    <["tokenAddress" := PStr ta]> $
    <["symbol" := symbol]> $
    <["name" := name]> ∅ in
  metrics ← compute_metrics_from_pair (_now_utc_ms w ta) best;
  Some (with_scores (metrics ∪ row) pump).

Definition legacy_token_rows (w : world) (pump : bool)
    (selected_modes : list string) (idx : pair_index) (ta : string)
  : option (list pydict) :=
  match default [] (idx !! lower ta) with
  | [] => Some []
  | pairs =>
      best ← max_pair pairs;
      row ← legacy_row w pump ta best;
      Some ((λ mode, <["mode" := PStr mode]> row)
              <$> filter (λ mode, mode_pass row pump mode) selected_modes)
  end.

(** The key of the two sorts of [scan_runners]. *)
Definition legacy_key (sort_by_spike : bool) (r : pydict) : R :=
  if sort_by_spike then _safe_float (get r "spike_score") 0
  else _safe_float (get r "score") 0.

Definition legacy_sort (sort_by_spike : bool) (rows : list pydict)
  : list pydict :=
  sort_desc (λ a b, bool_decide (legacy_key sort_by_spike a
                                 > legacy_key sort_by_spike b)%R) rows.

(** [r.get("mode") or ""] is the key [m] of the dictionary [per_mode]. *)
Definition in_mode (m : string) (r : pydict) : bool :=
  match py_or (get r "mode") (PStr "") with
  | PStr s => bool_decide (s = m)
  | _ => false
  end.

(** [scan_runners], the pairs read from the provider [w]. *)
Definition scan_runners (w : world) (candidates : list pydict)
    (selected_modes : list string) (top_n_per_mode : Z)
    (pump_mode sort_by_spike : bool) : option (list pydict) :=
  match candidates with
  | [] => Some []
  | _ =>
      token_addrs ← token_addresses candidates;
      match token_addrs with
      | [] => Some []
      | _ =>
          let all_pairs := batch_pairs w (take 300 token_addrs) in
          pairs_by_token ← foldl legacy_group_pair (Some ∅) all_pairs;
          per_token ←
            mapM (legacy_token_rows w pump_mode selected_modes pairs_by_token)
              token_addrs;
          let rows := legacy_sort sort_by_spike (concat per_token) in
          let out :=
            m ← selected_modes;
            take (Z.to_nat (Z.max 1 top_n_per_mode)) (filter (in_mode m) rows)
          in
          Some (legacy_sort sort_by_spike out)
      end
  end.

(** ** The user interface ([app.py])

    The computations of the page on the rows of a scan: the blacklist applied
    after the scan, and the columns of the table of results.  The entries of
    the blacklist are the texts that the page keeps in its session state. *)

Module App.

(** [set([str(x).strip() for x in entries if str(x).strip()])] *)
Definition blocked (entries : list string) : gset string :=
  list_to_set (filter (λ s, s ≠ "") (strip <$> entries)).

(** [str(r.get("tokenAddress", "")).strip()] *)
Definition row_address (r : pydict) : option string :=
  strip <$> py_str (get_or r "tokenAddress" (PStr "")).

(** [[r for r in runners if ... not in blocked]] *)
Fixpoint keep_rows (blocked : gset string) (runners : list pydict)
  : option (list pydict) :=
  match runners with
  | [] => Some []
  | r :: runners' =>
      a ← row_address r;
      kept ← keep_rows blocked runners';
      Some (if decide (a ∈ blocked) then kept else r :: kept)
  end.

(** The blacklist applied to the rows of a scan: the rows that are shown and
    the number of rows removed. *)
Definition apply_blacklist (entries : list string) (runners : list pydict)
  : option (list pydict * Z) :=
  let blocked := blocked entries in
  if bool_decide (blocked ≠ ∅) && bool_decide (runners ≠ []) then
    let before := Z.of_nat (length runners) in
    kept ← keep_rows blocked runners;
    Some (kept, before - Z.of_nat (length kept))
  else Some (runners, 0).

Definition preferred : list string :=
  ["mode"; "symbol"; "name"; "score";
   "spike_score"; "tokenAddress"; "source"; "pairAddress";
   "priceUsd"; "marketCap"; "fdv"; "liquidityUsd";
   "vol5m"; "vol1h"; "vol24h";
   "buys5m"; "sells5m"; "netBuy5m";
   "m5pct"; "h1pct"; "h6pct"; "h24pct";
   "ageMin"; "dexId";
   "boostAmount"; "boostTotal"; "boostType";
   "isCTO";
   "profileUrl"; "profileLinksCount"; "profileDescription";
   "urlDexscreener"; "urlGMGN"].

(** [[c for c in preferred if c in columns] + [c for c in columns if c not in preferred]] *)
Definition ordered_columns (columns : list string) : list string :=
  filter (λ c, c ∈ columns) preferred
  ++ filter (λ c, c ∉ preferred) columns.

(** The columns shown, for the configured list of visible columns. *)
Definition shown_columns (visible columns : list string) : list string :=
  let columns := ordered_columns columns in
  let vis := filter (λ c, c ∈ columns) visible in
  match vis with
  | [] => columns
  | _ => filter (λ c, c ∈ vis) columns
  end.

End App.

(** ** Definitions for the further properties *)

(** [str.lower] on a character of ASCII. *)
Definition lower_cp (cp : N) : N :=
  if ((65 <=? cp) && (cp <=? 90))%N then (cp + 32)%N else cp.

(** The names of the modes that have thresholds of their own. *)
Definition named_modes : list string :=
  ["ultra_early"; "early_strict"; "early"; "strict"].

(** The pairs of modes of which the first is the stricter one. *)
Definition stricter_modes : list (string * string) :=
  [("strict", "degen"); ("early_strict", "early"); ("early", "degen")].

(** A scored row of a token twelve hours old, reduced to the fields the gates
    read. *)
Definition gate_row : pydict :=
  <["liquidityUsd" := PFloat 20000]> $
  <["vol5m" := PFloat 300]> $
  <["buys5m" := PInt 10]> $
  <["sells5m" := PInt 7]> $
  <["netBuy5m" := PInt 3]> $
  <["ageMin" := PFloat 720]> $
  <["score" := PFloat 3]> ∅.

(** A nested section of a pair that [(v or {}).get(k)] reads without error:
    it is missing or false, or it is a dictionary. *)
Definition section_ok (v : pyval) : Prop :=
  match v with PDict _ => True | _ => truthy v = false end.

(** A pair whose sections are dictionaries where they are present, and whose
    address, when present, is a text, an integer or a truth value. *)
Definition well_shaped_pair (pair : pydict) : Prop :=
  Forall (λ k, section_ok (get pair k))
    ["liquidity"; "volume"; "txns"; "priceChange"; "baseToken"; "quoteToken"]
  ∧ (∀ txns, get pair "txns" = PDict txns → section_ok (get txns "m5"))
  ∧ (truthy (get pair "pairAddress") = true →
     is_Some (py_str (get pair "pairAddress"))).

(** The metrics of the pair of scenario A. *)
Definition metrics_A : pydict :=
  default ∅ (compute_metrics_from_pair now_A pair_A).

(** The keys that [_merge_candidate] assigns. *)
Definition merged_keys : list string :=
  ["sources"; "source"; "boostAmount"; "boostTotal"; "boostType"; "isCTO"]
  ++ profile_keys.

(** The entry of a key in the result of a merge of [src] into a non-empty
    [dst], where [s] is the merged list of sources. *)
Definition merged_value (dst src : pydict) (s : list string) (k : string)
  : option pyval :=
  if decide (k = "sources") then Some (PList (PStr <$> s))
  else if decide (k = "source") then
    if decide (table_get priority (get src "source")
               > table_get priority (get dst "source"))
    then Some (get src "source") else dst !! "source"
  else if decide (k = "boostAmount") then
    Some (PFloat (py_max (_safe_float (get dst "boostAmount") 0)
                         (_safe_float (get src "boostAmount") 0)))
  else if decide (k = "boostTotal") then
    Some (PFloat (py_max (_safe_float (get dst "boostTotal") 0)
                         (_safe_float (get src "boostTotal") 0)))
  else if decide (k = "boostType") then
    Some (py_or (get dst "boostType") (get src "boostType"))
  else if decide (k = "isCTO") then
    Some (PBool (truthy (get dst "isCTO") || truthy (get src "isCTO")))
  else if bool_decide (k ∈ profile_keys) then
    if negb (truthy (get dst k)) && truthy (get src k)
    then Some (get src k) else dst !! k
  else dst !! k.

(** The ads candidate of scenario C, and the entry of the token once it has
    been merged into the boosts candidate. *)
Definition candidate_ad_A : pydict :=
  candidate_of (_candidate_from_ad_item ad_item_A).

Definition merged_A : pydict :=
  default ∅ (_merge_candidate candidate_A candidate_ad_A).

(** An entry of the table of candidates as the scan keeps it: the key is the
    lowercased token address of the record, which is trimmed and not empty,
    and the record is on the configured chain. *)
Definition entry_ok (e : string * pydict) : Prop :=
  ∃ ta, e.2 !! "tokenAddress" = Some (PStr ta)
        ∧ ta ≠ "" ∧ strip ta = ta ∧ e.1 = lower ta
        ∧ e.2 !! "chainId" = Some (PStr CHAIN_ID).

Definition table_ok (t : table) : Prop := NoDup (t.*1) ∧ Forall entry_ok t.

(** Descending order on the keys of [_cand_priority]. *)
Definition ZR_ge (a b : Z * R) : Prop :=
  a.1 > b.1 ∨ (a.1 = b.1 ∧ (a.2 >= b.2)%R).

Definition cand_ge (a b : pydict) : Prop :=
  ZR_ge (_cand_priority a) (_cand_priority b).

(** A row passed the filters of the scan: it carries a selected mode whose
    gate it passes, and it passes the anti-dead and the trending filter when
    they are enabled. *)
Definition passed_filters (opts : ScanOptions) (r : pydict) : Prop :=
  ∃ mode,
    mode ∈ selected_modes opts
    ∧ get r "mode" = PStr mode
    ∧ mode_pass r (pump_mode opts) mode = true
    ∧ (anti_dead opts = true → _anti_dead_pass r opts = true)
    ∧ (trending_filters opts = true → _trending_reasons r opts = []).

(** The keys that the scan adds to a row after its filters. *)
Definition late_keys : list string := ["mode"; "isDexPaid"; "orders_count"].

(** What step 6 leaves in a row: with [include_orders], the number of paid
    orders of its token and whether there is one; without, neither field. *)
Definition orders_recorded (include : bool) (w : world) (r : pydict) : Prop :=
  ∃ ta,
    get r "tokenAddress" = PStr ta
    ∧ if include then
        r !! "orders_count"
        = Some (PInt (Z.of_nat (length (fetch_orders_for_token w ta))))
        ∧ r !! "isDexPaid"
          = Some (PBool (bool_decide (fetch_orders_for_token w ta ≠ [])))
      else r !! "orders_count" = None ∧ r !! "isDexPaid" = None.

(** A provider whose batched requests find nothing and whose single requests
    find the pair of scenario A. *)
Definition world_fallback : world :=
  {| fetch_token_boosts_latest := [boost_item_50];
     fetch_token_boosts_top := [];
     fetch_ads_latest := [];
     fetch_community_takeovers_latest := [];
     fetch_token_profiles_latest := [];
     fetch_pairs_for_tokens_batch := λ _, [];
     fetch_token_pairs_fallback := λ _, [pair_A];
     fetch_orders_for_token := λ _, [];
     _now_utc_ms := λ _, now_A |}.

(** The records of an answer as dictionaries, which is what the scan takes
    them for. *)
Definition records (l : list pyval) : option (list pydict) :=
  mapM (λ v, match v with PDict d => Some d | _ => None end) l.

(** The provider [w] of a scan gives the answers of the wrappers over the
    transport [http]. *)
Definition served_by (http : string → pyval) (w : world) : Prop :=
  records (Api.fetch_token_boosts_latest http)
  = Some (fetch_token_boosts_latest w)
  ∧ records (Api.fetch_token_boosts_top http)
    = Some (fetch_token_boosts_top w)
  ∧ records (Api.fetch_ads_latest http) = Some (fetch_ads_latest w)
  ∧ records (Api.fetch_community_takeovers_latest http)
    = Some (fetch_community_takeovers_latest w)
  ∧ records (Api.fetch_token_profiles_latest http)
    = Some (fetch_token_profiles_latest w)
  ∧ (∀ ch, Api.fetch_pairs_for_tokens_batch http (PStr CHAIN_ID) ch ≫= records
           = Some (fetch_pairs_for_tokens_batch w ch))
  ∧ (∀ a, Api.fetch_token_pairs_fallback http (PStr CHAIN_ID) a ≫= records
          = Some (fetch_token_pairs_fallback w a))
  ∧ (∀ a, Api.fetch_orders_for_token http (PStr CHAIN_ID) a ≫= records
          = Some (fetch_orders_for_token w a)).

(** An answer that is neither a list nor an object: the [None] of a failed
    request, or a JSON scalar. *)
Definition no_container (v : pyval) : Prop :=
  match v with PList _ | PDict _ => False | _ => True end.

(** The transport on which every request fails. *)
Definition failing_transport : string → pyval := λ _, PNone.

(** A record of the token of scenario A with its address in capitals. *)
Definition item_upper : pydict :=
  <["tokenAddress" := PStr "TOKENA"]> $ <["chainId" := PStr "solana"]> ∅.

(** Descending order on the keys of the sorts of [scan_runners]. *)
Definition legacy_ge (sort_by_spike : bool) (a b : pydict) : Prop :=
  (legacy_key sort_by_spike a >= legacy_key sort_by_spike b)%R.

(** The fields that the gate of a mode reads. *)
Definition gate_fields : list string :=
  ["liquidityUsd"; "vol5m"; "netBuy5m"; "ageMin"; "score"].

(** The scored row of the token of scenario A in [scan_runners]. *)
Definition legacy_row_A : pydict :=
  default ∅ (legacy_row world_A true "TokenA" pair_A).

Definition legacy_index_A : pair_index :=
  default ∅ (foldl legacy_group_pair (Some ∅) [pair_A]).

(** A profile of the token of scenario A, and the index of the profiles of a
    provider that lists it. *)
Definition profile_item_A : pydict :=
  <["chainId" := PStr "solana"]> $
  <["tokenAddress" := PStr "TokenA"]> $
  <["url" := PStr "https://dexscreener.com/solana/tokena"]> $
  <["description" := PStr "Token A"]> ∅.

(** Scenario A with a provider that lists the profile of the token. *)
Definition world_P : world :=
  {| fetch_token_boosts_latest := [boost_item_50];
     fetch_token_boosts_top := [];
     fetch_ads_latest := [];
     fetch_community_takeovers_latest := [];
     fetch_token_profiles_latest := [profile_item_A];
     fetch_pairs_for_tokens_batch := λ _, [pair_A];
     fetch_token_pairs_fallback := λ _, [];
     fetch_orders_for_token := λ _, [];
     _now_utc_ms := λ _, now_A |}.

Definition profiles_A : gmap string pydict :=
  default ∅ (profiles_index (make_opts args_A) world_P).

(** A pair with little liquidity, and the pairs of a token of which [pair_A]
    is the second of three. *)
Definition pair_low : pydict :=
  <["pairAddress" := PStr "PairL"]> $
  <["liquidity" := PDict {["usd" := PFloat 100]}]> ∅.

Definition three_pairs : list pydict := [pair_low; pair_A; pair_low].

(** The index of a provider whose only pair of the token is the empty
    record. *)
Definition index_empty_pair : pair_index := {["tokena" := [∅]]}.

(** The row of the token of scenario A in [scan_runners], for a mode. *)
Definition legacy_mode_row_A (mode : string) : pydict :=
  <["mode" := PStr mode]> legacy_row_A.

(** * Properties *)

Lemma py_max_Rmax a b : py_max a b = Rmax a b.
Proof. unfold py_max, Rmax. case_decide; destruct (Rle_dec a b); lra. Qed.

Lemma py_min_Rmin a b : py_min a b = Rmin a b.
Proof. unfold py_min, Rmin. case_decide; destruct (Rle_dec a b); lra. Qed.

Lemma IZR_Zmax n m : IZR (Z.max n m) = Rmax (IZR n) (IZR m).
Proof.
  unfold Rmax. destruct (Rle_dec (IZR n) (IZR m)) as [H|H].
  - apply le_IZR in H. by rewrite Z.max_r.
  - rewrite Z.max_l; [done|]. apply Z.lt_le_incl, lt_IZR. lra.
Qed.

Lemma ln10_pos : (0 < ln 10)%R.
Proof. rewrite <- ln_1. apply ln_increasing; lra. Qed.

Lemma log10_nonneg x : (1 <= x)%R → (0 <= log10 x)%R.
Proof.
  intros Hx. unfold log10. apply Rmult_le_pos.
  - destruct Hx as [Hx| <-]; [|rewrite ln_1; lra].
    left. rewrite <- ln_1. apply ln_increasing; lra.
  - left. apply Rinv_0_lt_compat, ln10_pos.
Qed.

Lemma trunc_IZR n : trunc (IZR n) = n.
Proof.
  unfold trunc. case_decide as H.
  - symmetry. apply Int_part_spec. lra.
  - rewrite <- opp_IZR. rewrite <- (Int_part_spec (IZR (- n)) (- n)); [lia|lra].
Qed.

(** The helpers on the inputs the comments of the source mention. *)
Example strip_example : strip "  TokenA " = "TokenA".
Proof. reflexivity. Qed.

Example normalize_examples :
  _normalize_chain_id (PStr " Sol-Mainnet ") = Some "solana"
  ∧ _normalize_chain_id (PStr "Ethereum") = Some "ethereum"
  ∧ _normalize_chain_id PNone = Some ""
  ∧ _normalize_chain_id (PInt 101) = Some "101".
Proof. repeat split; reflexivity. Qed.

(** The white space of Unicode is trimmed like the blank: a chain name
    followed by U+00A0 is accepted, a mode name between U+2003 and U+00A0
    has the thresholds of the mode, and a number between them is read. *)
Example unicode_space_examples :
  strip (em_space +:+ "Token A" +:+ nbsp +:+ " ") = "Token A"
  ∧ _normalize_chain_id (PStr ("Solana" +:+ nbsp)) = Some "solana"
  ∧ chain_accepted {["chainId" := PStr ("solana" +:+ nbsp)]}
  ∧ _mode_thresholds (em_space +:+ "Strict" +:+ nbsp) false
    = _mode_thresholds "strict" false
  ∧ _safe_int (PStr (nbsp +:+ "12.7" +:+ em_space)) 0 = 12.
Proof.
  split; [reflexivity|]. split; [reflexivity|]. split.
  - exists "solana". split; [reflexivity|]. unfold accepted_chains.
    do 4 apply list_elem_of_further. apply list_elem_of_here.
  - split; reflexivity.
Qed.

Example safe_float_examples :
  _safe_float (PStr "1,234.5") 0 = 1234.5%R
  ∧ _safe_float (PStr " 1_0e-1 ") 0 = 1%R
  ∧ _safe_float (PStr "-.5") 0 = (-0.5)%R
  ∧ _safe_float (PStr "abc") 7 = 7%R
  ∧ _safe_float (PStr "1.2.3") 7 = 7%R
  ∧ _safe_float (PStr "5_") 7 = 7%R
  ∧ _safe_float (PStr "  ") 7 = 7%R
  ∧ _safe_float PNone 7 = 7%R
  ∧ _safe_float (PBool true) 7 = 1%R
  ∧ _safe_float (PInt 3) 7 = 3%R.
Proof.
  repeat split; try reflexivity.
  - change (_safe_float (PStr "1,234.5") 0) with (12345 * powerRZ 10 (0 - 1))%R.
    simpl. lra.
  - change (_safe_float (PStr " 1_0e-1 ") 0) with (10 * powerRZ 10 (-1 - 0))%R.
    simpl. lra.
  - change (_safe_float (PStr "-.5") 0) with (- (5 * powerRZ 10 (0 - 1)))%R.
    simpl. lra.
Qed.

Example safe_int_examples :
  _safe_int (PStr "12.0") 0 = 12
  ∧ _safe_int (PStr "x") 0 = 0
  ∧ _safe_int (PFloat (-2.5)) 0 = -2
  ∧ _safe_int (PBool true) 0 = 1.
Proof.
  repeat split; try reflexivity.
  cbn [_safe_int]. unfold trunc. rewrite decide_False by lra.
  rewrite <- (Int_part_spec (- -2.5) 2); [done|lra].
Qed.

(** [int(float(s))] rounds as the floats do: a text beyond the largest float
    gives the default, a text within half a unit in the last place of one
    gives one, and an integer above [2^53] gives its nearest float. *)
Example safe_int_rounding :
  _safe_int (PStr "1e400") 0 = 0
  ∧ _safe_int (PStr "0.99999999999999999999") 0 = 1
  ∧ _safe_int (PStr "0.9999999999999999") 0 = 0
  ∧ _safe_int (PStr "9007199254740993") 0 = 9007199254740992
  ∧ _safe_int (PStr "-1e400") 7 = 7
  ∧ _safe_int (PStr "1.7e12") 0 = 1700000000000.
Proof. repeat split; vm_compute; reflexivity. Qed.

Example chunks_example : _chunks [1; 2; 3; 4; 5]%nat 2 = [[1; 2]; [3; 4]; [5]]%nat.
Proof. reflexivity. Qed.

Lemma chunks_length {A} (items : list A) (n : nat) :
  Forall (λ c, (length c ≤ n)%nat) (_chunks items n).
Proof.
  unfold _chunks. apply Forall_fmap, Forall_forall. intros i _.
  cbn. rewrite length_take. lia.
Qed.

Lemma concat_slices {A} (n k : nat) : ∀ items : list A,
  (length items ≤ k * n)%nat →
  concat ((λ i, take n (drop (i * n) items)) <$> seq 0 k) = items.
Proof.
  induction k as [|k IH]; intros items Hlen.
  - destruct items; [done|]. cbn in Hlen. lia.
  - cbn [seq fmap list_fmap concat]. rewrite <- seq_shift, <- list_fmap_compose.
    rewrite drop_0.
    transitivity (take n items ++ drop n items); [|apply take_drop].
    f_equal.
    rewrite <- (IH (drop n items)) by (rewrite length_drop; lia).
    f_equal. apply list_fmap_ext. intros _ i _. cbn.
    by rewrite drop_drop.
Qed.

(** The chunks hold at most [n] items each and together all the items. *)
Lemma chunks_concat {A} (items : list A) (n : nat) :
  (0 < n)%nat → concat (_chunks items n) = items.
Proof.
  intros Hn. unfold _chunks. apply concat_slices.
  pose proof (Nat.div_mod_eq (length items + n - 1) n) as Hd.
  pose proof (Nat.mod_upper_bound (length items + n - 1) n) as Hm. nia.
Qed.

Lemma get_insert_eq (d : pydict) k v : get (<[k := v]> d) k = v.
Proof. unfold get. by rewrite lookup_insert_eq. Qed.

Lemma get_insert_ne (d : pydict) k k' v : k ≠ k' → get (<[k := v]> d) k' = get d k'.
Proof. intros. unfold get. by rewrite lookup_insert_ne. Qed.

(** The scores in terms of the coerced fields of any row. *)
Lemma score_pair_eq (row : pydict) (pump : bool) :
  score_pair row pump =
    {| score :=
         spec_score (_safe_float (get row "liquidityUsd") 0)
           (_safe_float (get row "vol1h") 0) (_safe_float (get row "m5pct") 0)
           (_safe_float (get row "h1pct") 0)
           (_safe_float (get row "turnover_1h_over_liq") 0)
           (_safe_int (get row "netBuy5m") 0) pump;
       spike_score :=
         spec_spike_score (_safe_float (get row "m5pct") 0)
           (_safe_float (get row "h1pct") 0)
           (_safe_float (get row "turnover_1h_over_liq") 0)
           (_safe_int (get row "netBuy5m") 0) pump |}.
Proof.
  unfold score_pair, spec_score, spec_spike_score, spec_mom.
  by rewrite !py_max_Rmax, !py_min_Rmin, IZR_Zmax.
Qed.

(** C1.  For every metrics record (a row whose liquidityUsd, vol1h, m5pct,
    h1pct and turnover_1h_over_liq are floats and whose netBuy5m is an
    integer) and every flag pump_mode, [score_pair] returns exactly the
    spike_score and the score of the specification's formulas. *)
Theorem score_pair_formula (row : pydict) (pump : bool)
    (liq vol1h m5pct h1pct turnover : R) (netBuy5m : Z) :
  get row "liquidityUsd" = PFloat liq →
  get row "vol1h" = PFloat vol1h →
  get row "netBuy5m" = PInt netBuy5m →
  get row "m5pct" = PFloat m5pct →
  get row "h1pct" = PFloat h1pct →
  get row "turnover_1h_over_liq" = PFloat turnover →
  score_pair row pump =
    {| score := spec_score liq vol1h m5pct h1pct turnover netBuy5m pump;
       spike_score := spec_spike_score m5pct h1pct turnover netBuy5m pump |}.
Proof.
  intros Hliq Hvol Hnb Hm5 Hh1 Hto. rewrite score_pair_eq.
  by rewrite Hliq, Hvol, Hnb, Hm5, Hh1, Hto.
Qed.

Lemma score_pair_formula_witness :
  score_pair scenario_A true =
    {| score := spec_score 20000 1500 5 2 (1500 / 20000) 3 true;
       spike_score := spec_spike_score 5 2 (1500 / 20000) 3 true |}.
Proof. apply score_pair_formula; reflexivity. Defined.

Lemma log10_ge_pow (n : nat) x : (10 ^ n <= x)%R → (IZR (Z.of_nat n) <= log10 x)%R.
Proof.
  intros Hx. rewrite <- INR_IZR_INZ. unfold log10.
  assert (Hp : (0 < 10 ^ n)%R) by (apply pow_lt; lra).
  assert (Hl : (INR n * ln 10 <= ln x)%R).
  { rewrite <- ln_pow by lra.
    destruct Hx as [Hx|Hx]; [left; apply ln_increasing; lra | rewrite Hx; lra]. }
  pose proof ln10_pos as H10.
  apply Rmult_le_reg_r with (ln 10); [done|].
  unfold Rdiv. rewrite Rmult_assoc, Rinv_l by lra. lra.
Qed.

Lemma log10_lt_pow (n : nat) x : (0 < x < 10 ^ n)%R → (log10 x < IZR (Z.of_nat n))%R.
Proof.
  intros [Hx0 Hx]. rewrite <- INR_IZR_INZ. unfold log10.
  assert (Hl : (ln x < INR n * ln 10)%R).
  { rewrite <- ln_pow by lra. apply ln_increasing; lra. }
  pose proof ln10_pos as H10.
  apply Rmult_lt_reg_r with (ln 10); [done|].
  unfold Rdiv. rewrite Rmult_assoc, Rinv_l by lra. lra.
Qed.

Lemma mode_pass_true row pump mode :
  mode_pass row pump mode = true ↔
    let t := _mode_thresholds mode pump in
    (min_liq t <= _safe_float (get row "liquidityUsd") 0)%R
    ∧ (min_vol5 t <= _safe_float (get row "vol5m") 0)%R
    ∧ trunc (min_netbuy5 t) <= _safe_int (get row "netBuy5m") 0
    ∧ (_safe_float (get row "ageMin") 0 <= max_age_min t)%R
    ∧ (min_score t <= _safe_float (get row "score") 0)%R.
Proof.
  unfold mode_pass. cbv zeta.
  repeat case_decide; split; try done; intros; try lra; try lia;
    repeat split; try lra; lia.
Qed.

Lemma scenario_A_score :
  (2.8 < score (score_pair scenario_A true) < 3.6)%R.
Proof.
  rewrite score_pair_eq. cbn [score].
  change (get scenario_A "liquidityUsd") with (PFloat 20000).
  change (get scenario_A "vol1h") with (PFloat 1500).
  change (get scenario_A "m5pct") with (PFloat 5).
  change (get scenario_A "h1pct") with (PFloat 2).
  change (get scenario_A "turnover_1h_over_liq") with (PFloat (1500 / 20000)).
  change (get scenario_A "netBuy5m") with (PInt 3).
  cbn [_safe_float _safe_int].
  unfold spec_score, spec_spike_score, spec_mom.
  assert (H1 : (4 <= log10 (1 + Rmax 20000 0) < 5)%R).
  { rewrite Rmax_left by lra. split.
    - apply (log10_ge_pow 4). lra.
    - apply (log10_lt_pow 5). lra. }
  assert (H2 : (3 <= log10 (1 + Rmax 1500 0) < 4)%R).
  { rewrite Rmax_left by lra. split.
    - apply (log10_ge_pow 3). lra.
    - apply (log10_lt_pow 4). lra. }
  assert (H3 : (0 <= log10 (1 + Rmax 3 0) < 1)%R).
  { rewrite Rmax_left by lra. split.
    - apply (log10_ge_pow 0). simpl. lra.
    - apply (log10_lt_pow 1). simpl. lra. }
  rewrite (Rmax_right 0) by lra. rewrite (Rmin_right 2.5) by lra.
  rewrite (Rmin_right 2) by lra.
  rewrite decide_True by lra. lra.
Qed.

Lemma scenario_A_pass mode :
  mode ∈ ["ultra_early"; "early_strict"; "early"; "strict"; "degen"] →
  mode_pass (with_scores scenario_A true) true mode = true.
Proof.
  intros Hm. apply mode_pass_true. cbv zeta.
  change (get (with_scores scenario_A true) "liquidityUsd") with (PFloat 20000).
  change (get (with_scores scenario_A true) "vol5m") with (PFloat 300).
  change (get (with_scores scenario_A true) "netBuy5m") with (PInt 3).
  change (get (with_scores scenario_A true) "ageMin") with (PFloat 30).
  change (get (with_scores scenario_A true) "score")
    with (PFloat (score (score_pair scenario_A true))).
  cbn [_safe_float _safe_int].
  pose proof scenario_A_score as Hs.
  repeat (apply elem_of_cons in Hm as [->|Hm]); [..|by apply elem_of_nil in Hm].
  all: match goal with |- context [_mode_thresholds ?m true] =>
         let t := eval hnf in (_mode_thresholds m true) in
         change (_mode_thresholds m true) with t end.
  all: cbn [min_liq min_vol5 min_netbuy5 max_age_min min_score].
  all: rewrite ?(trunc_IZR 0), ?(trunc_IZR 1), ?(trunc_IZR 2).
  all: repeat split; try lra; try lia.
Qed.

(** C2 fails as stated: the token of scenario A does not stay out of mode
    [strict]. *)
Lemma scenario_A_not_as_claimed :
  ¬ (mode_pass (with_scores scenario_A true) true "early_strict" = true
     ∧ mode_pass (with_scores scenario_A true) true "degen" = true
     ∧ mode_pass (with_scores scenario_A true) true "strict" = false).
Proof.
  intros (_ & _ & H). rewrite scenario_A_pass in H; [done|].
  repeat constructor.
Qed.

(** C2, amended.  The token of scenario A (liquidityUsd=20000, vol5m=300,
    vol1h=1500, netBuy5m=3, m5pct=5, h1pct=2, ageMin=30, turnover 0.075),
    scored and gated with pump_mode=true, has a score between 2.8 and 3.6,
    above the min_score 0.85 of mode [strict], and qualifies for the modes
    [early_strict], [degen] and [strict]. *)
Theorem scenario_A_modes :
  (2.8 < score (score_pair scenario_A true) < 3.6)%R
  ∧ (min_score (_mode_thresholds "strict" true)
     <= score (score_pair scenario_A true))%R
  ∧ mode_pass (with_scores scenario_A true) true "early_strict" = true
  ∧ mode_pass (with_scores scenario_A true) true "degen" = true
  ∧ mode_pass (with_scores scenario_A true) true "strict" = true.
Proof.
  pose proof scenario_A_score as Hs.
  split; [done|]. split.
  - change (min_score (_mode_thresholds "strict" true)) with 0.85%R. lra.
  - repeat split; apply scenario_A_pass; repeat constructor.
Qed.

Ltac not_member :=
  rewrite ?not_elem_of_cons; repeat split; solve [done | apply not_elem_of_nil].

Lemma get_fill_once src out k k' :
  k ≠ k' → get (fill_once src out k) k' = get out k'.
Proof.
  intros Hk. unfold fill_once.
  destruct (negb _ && _); [by apply get_insert_ne | done].
Qed.

Lemma get_merge_profile out src k :
  k ∉ profile_keys → get (merge_profile out src) k = get out k.
Proof.
  unfold merge_profile. intros Hk. revert out.
  induction profile_keys as [|k' ks IH]; intros out; [done|].
  apply not_elem_of_cons in Hk as [? Hk].
  cbn [foldl]. rewrite IH by done. by apply get_fill_once.
Qed.

Lemma merge_profile_nonempty out src : out ≠ ∅ → merge_profile out src ≠ ∅.
Proof.
  unfold merge_profile. revert out.
  induction profile_keys as [|k ks IH]; intros out Hne; [done|].
  cbn [foldl]. apply IH. unfold fill_once.
  destruct (negb _ && _); [apply insert_non_empty | done].
Qed.

Lemma get_merge_cto_ne out src k :
  k ≠ "isCTO" → get (merge_cto out src) k = get out k.
Proof. intros. unfold merge_cto. by rewrite get_insert_ne. Qed.

Lemma get_merge_max_ne k' out src k :
  k ≠ k' → get (merge_max k' out src) k = get out k.
Proof. intros. unfold merge_max. by rewrite get_insert_ne. Qed.

Lemma get_merge_boosts_ne out src k :
  k ∉ ["boostAmount"; "boostTotal"; "boostType"] →
  get (merge_boosts out src) k = get out k.
Proof.
  intros Hk. unfold merge_boosts.
  apply not_elem_of_cons in Hk as [? Hk].
  apply not_elem_of_cons in Hk as [? Hk].
  apply not_elem_of_cons in Hk as [? Hk].
  by rewrite get_insert_ne, !get_merge_max_ne.
Qed.

Lemma get_merge_primary_ne out src k :
  k ≠ "source" → get (merge_primary out src) k = get out k.
Proof.
  intros. unfold merge_primary. cbv zeta.
  case_decide; [by rewrite get_insert_ne | done].
Qed.

Lemma get_merge_sources_ne out src out' k :
  merge_sources out src = Some out' → k ≠ "sources" → get out' k = get out k.
Proof.
  unfold merge_sources. intros Hm Hk.
  destruct (source_list (get out "sources")); [|done].
  destruct (source_list (get src "sources")); [|done].
  cbn [mbind option_bind] in Hm. destruct (append_sources _ _); [|done].
  injection Hm as <-. by rewrite get_insert_ne.
Qed.

Lemma source_list_strs (l : list string) :
  source_list (PList (PStr <$> l)) = Some l.
Proof.
  unfold source_list, py_or. destruct l as [|s l]; [done|].
  cbn [truthy fmap list_fmap].
  change (mapM (λ x, match x with PStr s0 => Some s0 | _ => None end)
            (PStr <$> s :: l) = Some (s :: l)).
  apply mapM_Some. induction (s :: l); constructor; auto.
Qed.

Lemma append_sources_strs (l s1 : list string) :
  is_Some (append_sources s1 (PStr <$> l)).
Proof.
  revert s1. induction l as [|t l IH]; intros s1; [by eexists|].
  cbn [fmap list_fmap append_sources]. destruct (truthy (PStr t)); apply IH.
Qed.

Lemma append_sources_head v l s1 :
  (truthy v = true → ∃ s, v = PStr s) →
  is_Some (append_sources s1 (v :: (PStr <$> l))).
Proof.
  intros Hv. cbn [append_sources]. destruct (truthy v) eqn:Ht.
  - destruct (Hv eq_refl) as [s ->]. apply append_sources_strs.
  - apply append_sources_strs.
Qed.

(** What a merge into a non-empty entry returns. *)
Lemma merge_fields (dst src out : pydict) :
  dst ≠ ∅ → _merge_candidate dst src = Some out →
  get out "boostAmount" =
    PFloat (Rmax (_safe_float (get dst "boostAmount") 0)
                 (_safe_float (get src "boostAmount") 0))
  ∧ get out "boostTotal" =
    PFloat (Rmax (_safe_float (get dst "boostTotal") 0)
                 (_safe_float (get src "boostTotal") 0))
  ∧ get out "isCTO" = PBool (truthy (get dst "isCTO") || truthy (get src "isCTO"))
  ∧ get out "source" =
      (if decide (table_get priority (get src "source")
                  > table_get priority (get dst "source"))
       then get src "source" else get dst "source")
  ∧ ∃ s1 s2 s,
      source_list (get dst "sources") = Some s1
      ∧ source_list (get src "sources") = Some s2
      ∧ append_sources s1 (get src "source" :: (PStr <$> s2)) = Some s
      ∧ get out "sources" = PList (PStr <$> s).
Proof.
  intros Hne Hm. unfold _merge_candidate in Hm.
  rewrite decide_False in Hm by done.
  destruct (merge_sources dst src) as [o1|] eqn:H1; [|done].
  cbn [mbind option_bind] in Hm. cbv zeta in Hm. injection Hm as <-.
  rewrite !get_merge_profile by (unfold profile_keys; not_member).
  pose proof (get_merge_sources_ne _ _ _ "source" H1) as Hs.
  pose proof (get_merge_sources_ne _ _ _ "boostAmount" H1) as Ha.
  pose proof (get_merge_sources_ne _ _ _ "boostTotal" H1) as Ht.
  pose proof (get_merge_sources_ne _ _ _ "isCTO" H1) as Hc.
  repeat split.
  - rewrite get_merge_cto_ne by done. unfold merge_boosts.
    rewrite get_insert_ne, get_merge_max_ne by done.
    unfold merge_max at 1. rewrite get_insert_eq, py_max_Rmax.
    by rewrite get_merge_primary_ne, Ha.
  - rewrite get_merge_cto_ne by done. unfold merge_boosts.
    rewrite get_insert_ne by done.
    unfold merge_max at 1. rewrite get_insert_eq, py_max_Rmax.
    by rewrite get_merge_max_ne, get_merge_primary_ne, Ht.
  - unfold merge_cto. rewrite get_insert_eq.
    rewrite get_merge_boosts_ne by not_member.
    by rewrite get_merge_primary_ne, Hc.
  - rewrite get_merge_cto_ne by done.
    rewrite get_merge_boosts_ne by not_member.
    unfold merge_primary. cbv zeta. rewrite Hs by done.
    case_decide; [by rewrite get_insert_eq | by apply Hs].
  - unfold merge_sources in H1.
    destruct (source_list (get dst "sources")) as [s1|]; [|done].
    destruct (source_list (get src "sources")) as [s2|]; [|done].
    cbn [mbind option_bind] in H1.
    destruct (append_sources s1 _) as [s|] eqn:H3; [|done].
    injection H1 as <-. exists s1, s2, s. repeat split; [done|].
    rewrite get_merge_cto_ne by done.
    rewrite get_merge_boosts_ne by not_member.
    rewrite get_merge_primary_ne by done. by rewrite get_insert_eq.
Qed.

Lemma merge_succeeds (dst src : pydict) :
  is_Some (source_list (get dst "sources")) →
  is_Some (source_list (get src "sources")) →
  (truthy (get src "source") = true → ∃ s, get src "source" = PStr s) →
  is_Some (_merge_candidate dst src).
Proof.
  intros [s1 H1] [s2 H2] Hs. unfold _merge_candidate.
  case_decide; [by eexists|]. unfold merge_sources. rewrite H1, H2.
  cbn [mbind option_bind].
  destruct (append_sources_head (get src "source") s2 s1 Hs) as [s ->].
  by eexists.
Qed.

Lemma merge_wf (dst src out : pydict) :
  wf_candidate dst → wf_candidate src →
  _merge_candidate dst src = Some out → wf_candidate out.
Proof.
  intros (Hne & Hl & Hs) (Hne' & Hl' & Hs') Hm.
  destruct (merge_fields _ _ _ Hne Hm) as (_ & _ & _ & Hsrc & s1 & s2 & s & _ & _ & _ & Hso).
  split; [|split].
  - unfold _merge_candidate in Hm. rewrite decide_False in Hm by done.
    destruct (merge_sources dst src) as [o1|] eqn:H1; [|done].
    cbn [mbind option_bind] in Hm. injection Hm as <-.
    apply merge_profile_nonempty, insert_non_empty.
  - rewrite Hso, source_list_strs. by eexists.
  - rewrite Hsrc. case_decide; auto.
Qed.

Lemma boost_item_fields it c :
  _candidate_from_boost_item it = Some (Some c) →
  c ≠ ∅
  ∧ get c "source" = PStr "boosts"
  ∧ get c "sources" = PList [PStr "boosts"]
  ∧ get c "boostAmount" = PFloat (boost_amount it)
  ∧ get c "isCTO" = PNone.
Proof.
  unfold _candidate_from_boost_item. intros H.
  destruct (_normalize_chain_id _) as [chain|]; [|done].
  case_decide; [done|].
  destruct (strip_or_empty _) as [ta|]; [|done]. cbn [mbind option_bind] in H.
  case_decide; [done|]. injection H as <-.
  split; [apply insert_non_empty|]. repeat split; reflexivity.
Qed.

Lemma ad_item_fields it c :
  _candidate_from_ad_item it = Some (Some c) →
  c ≠ ∅
  ∧ get c "source" = PStr "ads"
  ∧ get c "sources" = PList [PStr "ads"]
  ∧ get c "boostAmount" = PNone
  ∧ get c "isCTO" = PNone.
Proof.
  unfold _candidate_from_ad_item. intros H.
  destruct (_normalize_chain_id _) as [chain|]; [|done].
  case_decide; [done|].
  destruct (strip_or_empty _) as [ta|]; [|done]. cbn [mbind option_bind] in H.
  case_decide; [done|]. injection H as <-.
  split; [apply insert_non_empty|]. repeat split; reflexivity.
Qed.

Lemma cto_item_fields it c :
  _candidate_from_cto_item it = Some (Some c) →
  c ≠ ∅
  ∧ get c "source" = PStr "cto"
  ∧ get c "sources" = PList [PStr "cto"]
  ∧ get c "boostAmount" = PNone
  ∧ get c "isCTO" = PBool true.
Proof.
  unfold _candidate_from_cto_item. intros H.
  destruct (_normalize_chain_id _) as [chain|]; [|done].
  case_decide; [done|].
  destruct (strip_or_empty _) as [ta|]; [|done]. cbn [mbind option_bind] in H.
  case_decide; [done|]. injection H as <-.
  split; [apply insert_non_empty|]. repeat split; reflexivity.
Qed.

Lemma wf_of_fields c s :
  c ≠ ∅ → get c "source" = PStr s → get c "sources" = PList [PStr s] →
  wf_candidate c.
Proof.
  intros Hne Hs Hl. split; [done|]. split.
  - rewrite Hl. by eexists.
  - intros _. by exists s.
Qed.

Lemma constructor_wf ctor it c :
  ctor ∈ constructors → ctor it = Some (Some c) → wf_candidate c.
Proof.
  intros Hc H. unfold constructors in Hc.
  repeat (apply elem_of_cons in Hc as [->|Hc]); [..|by apply elem_of_nil in Hc].
  - destruct (boost_item_fields _ _ H) as (? & ? & ? & _). by eapply wf_of_fields.
  - destruct (ad_item_fields _ _ H) as (? & ? & ? & _). by eapply wf_of_fields.
  - destruct (cto_item_fields _ _ H) as (? & ? & ? & _). by eapply wf_of_fields.
Qed.

(** C3.  Candidate merging is commutative and idempotent on boostAmount and
    boostTotal (maximum) and on isCTO (logical OR): for any two candidate
    records A and B, both merges return a record; the merged boostAmount and
    boostTotal are the maxima of the two amounts and the merged isCTO is the
    disjunction of the two flags; the two orders give the same values of the
    three fields, and merging B again into the result leaves them
    unchanged. *)
Theorem merge_commutative_idempotent (A B : pydict) :
  wf_candidate A → wf_candidate B →
  ∃ ab ba abb,
    _merge_candidate A B = Some ab
    ∧ _merge_candidate B A = Some ba
    ∧ _merge_candidate ab B = Some abb
    ∧ get ab "boostAmount" =
        PFloat (Rmax (_safe_float (get A "boostAmount") 0)
                     (_safe_float (get B "boostAmount") 0))
    ∧ get ab "boostTotal" =
        PFloat (Rmax (_safe_float (get A "boostTotal") 0)
                     (_safe_float (get B "boostTotal") 0))
    ∧ get ab "isCTO" =
        PBool (truthy (get A "isCTO") || truthy (get B "isCTO"))
    ∧ ∀ k, k ∈ ["boostAmount"; "boostTotal"; "isCTO"] →
        get ab k = get ba k ∧ get abb k = get ab k.
Proof.
  intros HA HB.
  destruct (merge_succeeds A B) as [ab Hab]; [apply HA | apply HB | apply HB |].
  destruct (merge_succeeds B A) as [ba Hba]; [apply HB | apply HA | apply HA |].
  pose proof (merge_wf _ _ _ HA HB Hab) as Hwf.
  destruct (merge_succeeds ab B) as [abb Habb]; [apply Hwf | apply HB | apply HB |].
  exists ab, ba, abb.
  destruct HA as [HA _], HB as [HB _], Hwf as [Hne _].
  destruct (merge_fields _ _ _ HA Hab) as (Ha & Ht & Hc & _).
  destruct (merge_fields _ _ _ HB Hba) as (Ha' & Ht' & Hc' & _).
  destruct (merge_fields _ _ _ Hne Habb) as (Ha'' & Ht'' & Hc'' & _).
  do 6 (split; [done|]). intros k H. split.
  - repeat (apply elem_of_cons in H as [->|H]); [..|by apply elem_of_nil in H].
    + by rewrite Ha, Ha', Rmax_comm.
    + by rewrite Ht, Ht', Rmax_comm.
    + by rewrite Hc, Hc', orb_comm.
  - repeat (apply elem_of_cons in H as [->|H]); [..|by apply elem_of_nil in H].
    + rewrite Ha'', Ha. cbn [_safe_float]. f_equal.
      apply Rmax_left, Rmax_r.
    + rewrite Ht'', Ht. cbn [_safe_float]. f_equal.
      apply Rmax_left, Rmax_r.
    + rewrite Hc'', Hc. cbn [truthy]. f_equal.
      by destruct (truthy (get A "isCTO")), (truthy (get B "isCTO")).
Qed.

Lemma merge_commutative_idempotent_witness :
  ∃ ab ba abb,
    _merge_candidate (candidate_of (_candidate_from_boost_item boost_item_50))
      (candidate_of (_candidate_from_cto_item cto_item_A)) = Some ab
    ∧ _merge_candidate (candidate_of (_candidate_from_cto_item cto_item_A))
        (candidate_of (_candidate_from_boost_item boost_item_50)) = Some ba
    ∧ _merge_candidate ab (candidate_of (_candidate_from_cto_item cto_item_A))
      = Some abb
    ∧ get ab "boostAmount" =
        PFloat (Rmax
          (_safe_float
             (get (candidate_of (_candidate_from_boost_item boost_item_50))
                "boostAmount") 0)
          (_safe_float
             (get (candidate_of (_candidate_from_cto_item cto_item_A))
                "boostAmount") 0))
    ∧ get ab "boostTotal" =
        PFloat (Rmax
          (_safe_float
             (get (candidate_of (_candidate_from_boost_item boost_item_50))
                "boostTotal") 0)
          (_safe_float
             (get (candidate_of (_candidate_from_cto_item cto_item_A))
                "boostTotal") 0))
    ∧ get ab "isCTO" =
        PBool
          (truthy
             (get (candidate_of (_candidate_from_boost_item boost_item_50))
                "isCTO")
           || truthy
                (get (candidate_of (_candidate_from_cto_item cto_item_A))
                   "isCTO"))
    ∧ ∀ k, k ∈ ["boostAmount"; "boostTotal"; "isCTO"] →
        get ab k = get ba k ∧ get abb k = get ab k.
Proof.
  apply merge_commutative_idempotent.
  - apply (constructor_wf _candidate_from_boost_item boost_item_50);
      [apply list_elem_of_here | reflexivity].
  - apply (constructor_wf _candidate_from_cto_item cto_item_A);
      [apply list_elem_of_further, list_elem_of_further, list_elem_of_here
      | reflexivity].
Defined.

Lemma merge_all_two (c1 c2 : pydict) :
  merge_all [c1; c2] = _merge_candidate c1 c2.
Proof. reflexivity. Qed.

(** C4.  For a token aggregated from a boosts record and an ads record, in
    whichever order the two candidates are merged into its entry, the entry
    has source "boosts", as boostAmount the maximum of the boost amounts seen
    (the amount of the boosts record and the 0 of the ads record, which has
    none), and a sources list containing "boosts" and "ads". *)
Theorem boosts_win_in_any_order (itb ita cb ca : pydict) (order : list pydict) :
  _candidate_from_boost_item itb = Some (Some cb) →
  _candidate_from_ad_item ita = Some (Some ca) →
  order ∈ [[cb; ca]; [ca; cb]] →
  ∃ r l,
    merge_all order = Some r
    ∧ get r "source" = PStr "boosts"
    ∧ get r "boostAmount" = PFloat (Rmax (boost_amount itb) 0)
    ∧ get r "sources" = PList l
    ∧ PStr "boosts" ∈ l ∧ PStr "ads" ∈ l.
Proof.
  intros Hb Ha Ho.
  destruct (boost_item_fields _ _ Hb) as (Hnb & Hsb & Hlb & Hab & _).
  destruct (ad_item_fields _ _ Ha) as (Hna & Hsa & Hla & Haa & _).
  assert (Hwb : wf_candidate cb) by by eapply wf_of_fields.
  assert (Hwa : wf_candidate ca) by by eapply wf_of_fields.
  apply elem_of_cons in Ho as [->|Ho];
    [|apply elem_of_cons in Ho as [->|Ho]; [|by apply elem_of_nil in Ho]];
    rewrite merge_all_two.
  - destruct (merge_succeeds cb ca) as [r Hr]; [apply Hwb | apply Hwa..|].
    destruct (merge_fields _ _ _ Hnb Hr)
      as (Hra & _ & _ & Hrs & s1 & s2 & s & H1 & H2 & H3 & Hrl).
    exists r, (PStr <$> s). rewrite Hr, Hrs, Hra, Hrl, Hsa, Hsb, Hab, Haa.
    rewrite Hlb in H1. rewrite Hla in H2. rewrite Hsa in H3.
    injection H1 as <-. injection H2 as <-. injection H3 as <-.
    repeat split; [|apply list_elem_of_fmap; eexists; split; [done|]..].
    + apply list_elem_of_here.
    + apply list_elem_of_further, list_elem_of_here.
  - destruct (merge_succeeds ca cb) as [r Hr]; [apply Hwa | apply Hwb..|].
    destruct (merge_fields _ _ _ Hna Hr)
      as (Hra & _ & _ & Hrs & s1 & s2 & s & H1 & H2 & H3 & Hrl).
    exists r, (PStr <$> s). rewrite Hr, Hrs, Hra, Hrl, Hsa, Hsb, Hab, Haa.
    rewrite Hla in H1. rewrite Hlb in H2. rewrite Hsb in H3.
    injection H1 as <-. injection H2 as <-. injection H3 as <-.
    repeat split; [by rewrite Rmax_comm
                  |apply list_elem_of_fmap; eexists; split; [done|]..].
    + apply list_elem_of_further, list_elem_of_here.
    + apply list_elem_of_here.
Qed.

Lemma boosts_win_in_any_order_witness :
  ∃ r l,
    merge_all [candidate_of (_candidate_from_ad_item ad_item_A);
               candidate_of (_candidate_from_boost_item boost_item_50)]
    = Some r
    ∧ get r "source" = PStr "boosts"
    ∧ get r "boostAmount" = PFloat (Rmax (boost_amount boost_item_50) 0)
    ∧ get r "sources" = PList l
    ∧ PStr "boosts" ∈ l ∧ PStr "ads" ∈ l.
Proof.
  apply (boosts_win_in_any_order boost_item_50 ad_item_A
           (candidate_of (_candidate_from_boost_item boost_item_50))
           (candidate_of (_candidate_from_ad_item ad_item_A)));
    [reflexivity | reflexivity
    | apply list_elem_of_further, list_elem_of_here].
Defined.

(** In scenario C the boost amount is 50, and so is the merged amount. *)
Lemma scenario_C_amount : Rmax (boost_amount boost_item_50) 0 = 50%R.
Proof. change (boost_amount boost_item_50) with 50%R. apply Rmax_left. lra. Qed.

Lemma priority_lookup s n :
  priority !! s = Some n →
  n <= 3 ∧ (3 <= n → s = "boosts").
Proof.
  unfold priority. rewrite !lookup_insert, lookup_empty.
  repeat case_decide; intros [= <-]; split; (lia || by intros).
Qed.

Lemma priority_le v : table_get priority v <= 3.
Proof.
  unfold table_get. destruct (py_str v) as [s|]; [|lia].
  destruct (priority !! s) as [n|] eqn:Hn; cbn; [|lia].
  by apply priority_lookup in Hn as [? _].
Qed.

Lemma priority_top (c : pydict) :
  (truthy (get c "source") = true → ∃ s, get c "source" = PStr s) →
  3 <= table_get priority (get c "source") → get c "source" = PStr "boosts".
Proof.
  intros Hs H3. destruct (truthy (get c "source")) eqn:Ht.
  - destruct (Hs eq_refl) as [s Hc]. rewrite Hc in *. unfold table_get in H3.
    cbn [py_str] in H3. revert H3.
    destruct (priority !! s) as [n|] eqn:Hn; cbn; intros H3. 2: { lia. }
    apply priority_lookup in Hn as [_ Hn]. by rewrite Hn.
  - exfalso. clear Hs. revert Ht H3.
    destruct (get c "source") as [|[]|n|x|s|l|d]; intros Ht H3; try done.
    + cbn in Ht. apply negb_false_iff, Z.eqb_eq in Ht as ->. done.
    + cbn in Ht. apply negb_false_iff, String.eqb_eq in Ht as ->. done.
Qed.

(** Once a boosts record has been merged, the source stays "boosts". *)
Lemma boosts_stay (records : list pydict) : ∀ d,
  wf_candidate d → get d "source" = PStr "boosts" →
  Forall wf_candidate records →
  ∃ r, foldl (λ entry c, entry ≫= λ dst, _merge_candidate dst c)
         (Some d) records = Some r
       ∧ get r "source" = PStr "boosts".
Proof.
  induction records as [|c records IH]; intros d Hd Hs Hall; [by exists d|].
  apply Forall_cons in Hall as [Hc Hall]. cbn [foldl mbind option_bind].
  destruct (merge_succeeds d c) as [r Hr]; [apply Hd | apply Hc..|].
  rewrite Hr. apply IH; [exact (merge_wf _ _ _ Hd Hc Hr) | | done].
  destruct Hd as [Hne _].
  destruct (merge_fields _ _ _ Hne Hr) as (_ & _ & _ & -> & _).
  rewrite Hs. case_decide as Hp; [|done].
  pose proof (priority_le (get c "source")).
  change (table_get priority (PStr "boosts")) with 3 in Hp. lia.
Qed.

(** Whatever the number and the order of the records of a token, its entry
    has source "boosts" as soon as one of them is a boosts record. *)
Lemma boosts_dominate (records : list pydict) : ∀ d,
  d = ∅ ∨ wf_candidate d →
  Forall wf_candidate records →
  (∃ c, c ∈ records ∧ get c "source" = PStr "boosts") →
  ∃ r, foldl (λ entry c, entry ≫= λ dst, _merge_candidate dst c)
         (Some d) records = Some r
       ∧ get r "source" = PStr "boosts".
Proof.
  induction records as [|c records IH]; intros d Hd Hall (b & Hb & Hbs).
  { by apply elem_of_nil in Hb. }
  apply Forall_cons in Hall as [Hc Hall]. cbn [foldl mbind option_bind].
  destruct Hd as [->|Hd].
  - unfold _merge_candidate at 2. rewrite decide_True by done.
    apply elem_of_cons in Hb as [<-|Hb].
    + by apply boosts_stay.
    + apply IH; [by right | done | by exists b].
  - destruct (merge_succeeds d c) as [r Hr]; [apply Hd | apply Hc..|].
    rewrite Hr. pose proof (merge_wf _ _ _ Hd Hc Hr) as Hwf.
    apply elem_of_cons in Hb as [<-|Hb]; [|apply IH; [by right | done | by exists b]].
    apply boosts_stay; [done| |done].
    destruct Hd as (Hne & _ & Hds).
    destruct (merge_fields _ _ _ Hne Hr) as (_ & _ & _ & -> & _).
    rewrite Hbs. case_decide as Hp; [done|].
    apply priority_top; [done|].
    change (table_get priority (PStr "boosts")) with 3 in Hp. lia.
Qed.

Lemma merge_all_boosts (records : list pydict) :
  Forall wf_candidate records →
  (∃ c, c ∈ records ∧ get c "source" = PStr "boosts") →
  ∃ r, merge_all records = Some r ∧ get r "source" = PStr "boosts".
Proof. intros Hall Hb. apply boosts_dominate; [by left | done..]. Qed.

Section sort_desc.
Context {A : Type} (gt : A → A → bool) (ge : A → A → Prop).
Hypothesis gt_ge : ∀ x y, gt x y = true → ge x y.
Hypothesis not_gt_ge : ∀ x y, gt x y = false → ge y x.
Hypothesis ge_trans : ∀ x y z, ge x y → ge y z → ge x z.

Lemma insert_desc_perm x l : insert_desc gt x l ≡ₚ x :: l.
Proof.
  induction l as [|y l IH]; [done|]. cbn [insert_desc].
  destruct (gt y x); [|done]. rewrite IH. apply Permutation_swap.
Qed.

Lemma sort_desc_perm l : sort_desc gt l ≡ₚ l.
Proof.
  unfold sort_desc. induction l as [|x l IH]; [done|].
  cbn [foldr]. by rewrite insert_desc_perm, IH.
Qed.

Lemma sort_desc_length l : length (sort_desc gt l) = length l.
Proof. by rewrite sort_desc_perm. Qed.

Lemma insert_desc_sorted x l :
  StronglySorted ge l → StronglySorted ge (insert_desc gt x l).
Proof.
  induction 1 as [|y l Hl IH Hy]; cbn [insert_desc].
  - repeat constructor.
  - destruct (gt y x) eqn:Hg.
    + constructor; [done|]. rewrite insert_desc_perm.
      constructor; [by apply gt_ge | done].
    + constructor; [by constructor|].
      constructor; [by apply not_gt_ge|].
      eapply Forall_impl; [exact Hy|]. intros z Hz.
      eapply ge_trans; [|exact Hz]. by apply not_gt_ge.
Qed.

Lemma sort_desc_sorted l : StronglySorted ge (sort_desc gt l).
Proof.
  unfold sort_desc. induction l as [|x l IH]; [constructor|].
  cbn [foldr]. by apply insert_desc_sorted.
Qed.

End sort_desc.

Lemma RRR_gt_ge a b : RRR_gt a b = true → lex_ge a b.
Proof.
  unfold RRR_gt, RR_gt, lex_ge. destruct a as [[a1 a2] a3], b as [[b1 b2] b3].
  cbn [fst snd]. intros H.
  repeat (apply orb_true_iff in H as [H|H] || apply andb_true_iff in H as [H ?]);
    repeat match goal with
           | H : bool_decide _ = true |- _ => apply bool_decide_eq_true in H
           end.
  - by left.
  - right. split; [done|]. by left.
  - injection H as -> ->. right. split; [done|]. right. split; [done|]. lra.
Qed.

Lemma RRR_not_gt_ge a b : RRR_gt a b = false → lex_ge b a.
Proof.
  unfold RRR_gt, RR_gt, lex_ge. destruct a as [[a1 a2] a3], b as [[b1 b2] b3].
  cbn [fst snd]. intros H.
  apply orb_false_iff in H as [H1 H2].
  apply orb_false_iff in H1 as [H1 H1'].
  apply bool_decide_eq_false in H1.
  destruct (Rtotal_order a1 b1) as [?|[->|?]]; [left; lra| |lra].
  right. split; [done|].
  rewrite bool_decide_eq_true_2 in H1' by done. cbn in H1'.
  apply bool_decide_eq_false in H1'.
  destruct (Rtotal_order a2 b2) as [?|[->|?]]; [left; lra| |lra].
  right. split; [done|].
  rewrite bool_decide_eq_true_2 in H2 by done. cbn in H2.
  apply bool_decide_eq_false in H2. lra.
Qed.

Lemma lex_ge_trans a b c : lex_ge a b → lex_ge b c → lex_ge a c.
Proof.
  unfold lex_ge.
  destruct a as [[a1 a2] a3], b as [[b1 b2] b3], c as [[c1 c2] c3].
  cbn [fst snd]. intros [H1|[-> [H1|[-> H1]]]] [H2|[<- [H2|[<- H2]]]].
  all: try (left; lra).
  all: try (right; split; [done|]; left; lra).
  right. split; [done|]. right. split; [done|]. lra.
Qed.

Lemma lex_ge_refl a : lex_ge a a.
Proof. right. split; [done|]. right. split; [done|]. lra. Qed.

Lemma sort_rows_sorted opts rows :
  StronglySorted (rank_ge opts) (sort_rows opts rows).
Proof.
  apply sort_desc_sorted.
  - intros x y. apply RRR_gt_ge.
  - intros x y. apply RRR_not_gt_ge.
  - intros x y z. apply lex_ge_trans.
Qed.

Lemma sort_rows_perm opts rows : sort_rows opts rows ≡ₚ rows.
Proof. apply sort_desc_perm. Qed.

Lemma tbl_lookup_None (t : table) k : tbl_lookup t k = None ↔ k ∉ t.*1.
Proof.
  induction t as [|[k' v] t IHt]; cbn [tbl_lookup fmap list_fmap fst].
  - split; [intros _; apply not_elem_of_nil | done].
  - case_decide as Hk.
    + subst. split; [done|]. intros []. apply list_elem_of_here.
    + rewrite IHt, not_elem_of_cons. split; [done|]. by intros [_ ?].
Qed.

Lemma best_per_token_spec (rows : list pydict) : ∀ (best best' : table),
  best_per_token best rows = Some best' →
  ∃ new,
    best' = best ++ new
    ∧ (NoDup (best.*1) → NoDup (best'.*1))
    ∧ (∀ k r, (k, r) ∈ new →
         k ≠ "" ∧ (k ∉ best.*1)
         ∧ ∃ l1 l2, rows = l1 ++ r :: l2 ∧ row_token r = Some k
                    ∧ ∀ r', r' ∈ l1 → row_token r' ≠ Some k)
    ∧ (∀ r k, r ∈ rows → row_token r = Some k → k ≠ "" → k ∈ best'.*1).
Proof.
  induction rows as [|r rows IH]; intros best best' H; cbn [best_per_token] in H.
  - injection H as <-. exists []. rewrite app_nil_r.
    split; [done|]. split; [done|]. split.
    + intros k r Hin. by apply elem_of_nil in Hin.
    + intros r k Hin. by apply elem_of_nil in Hin.
  - fold (row_token r) in H.
    destruct (row_token r) as [ta|] eqn:Hta; [|done].
    cbn [mbind option_bind] in H.
    case_decide as Hempty; [|case_decide as Hseen].
    + destruct (IH _ _ H) as (new & -> & Hnd & Hnew & Hcov).
      exists new. split; [done|]. split; [done|]. split.
      * intros k r0 Hin.
        apply Hnew in Hin as (Hk & Hnk & l1 & l2 & -> & Hr & Hl1).
        split; [done|]. split; [done|].
        exists (r :: l1), l2. split; [done|]. split; [done|].
        intros r' [->|Hin]%elem_of_cons; [congruence | by apply Hl1].
      * intros r' k [->|Hin]%elem_of_cons Hr' Hk; [congruence | by eapply Hcov].
    + apply tbl_lookup_None in Hseen.
      destruct (IH _ _ H) as (new & -> & Hnd & Hnew & Hcov).
      replace ((best ++ [(ta, r)]) ++ new) with (best ++ (ta, r) :: new) in *
        by (by rewrite <- app_assoc).
      exists ((ta, r) :: new).
      split; [done|]. split; [|split].
      * intros Hb. apply Hnd.
        rewrite fmap_app. cbn [fmap list_fmap fst].
        apply NoDup_app. split; [done|]. split; [|apply NoDup_singleton].
        intros x Hx ->%list_elem_of_singleton. done.
      * intros k r0 [[= -> ->]|Hin]%elem_of_cons.
        -- split; [done|]. split; [done|].
           exists [], rows. split; [done|]. split; [done|].
           intros r' Hin. by apply elem_of_nil in Hin.
        -- apply Hnew in Hin as (Hk & Hnk & l1 & l2 & -> & Hr & Hl1).
           rewrite fmap_app in Hnk. apply not_elem_of_app in Hnk as [Hnk Hne].
           cbn [fmap list_fmap fst] in Hne.
           apply not_elem_of_cons in Hne as [Hne _].
           split; [done|]. split; [done|].
           exists (r :: l1), l2. split; [done|]. split; [done|].
           intros r' [->|Hin]%elem_of_cons; [congruence | by apply Hl1].
      * intros r' k [->|Hin]%elem_of_cons Hr' Hk; [|by eapply Hcov].
        assert (k = ta) as -> by congruence.
        rewrite fmap_app. apply elem_of_app. right.
        apply list_elem_of_here.
    + assert (Hin : ta ∈ best.*1).
      { destruct (decide (ta ∈ best.*1)) as [|Hn]; [done|].
        by apply tbl_lookup_None in Hn. }
      destruct (IH _ _ H) as (new & -> & Hnd & Hnew & Hcov).
      exists new. split; [done|]. split; [done|]. split.
      * intros k r0 Hin0.
        apply Hnew in Hin0 as (Hk & Hnk & l1 & l2 & -> & Hr & Hl1).
        split; [done|]. split; [done|].
        exists (r :: l1), l2. split; [done|]. split; [done|].
        intros r' [->|Hin']%elem_of_cons; [congruence | by apply Hl1].
      * intros r' k [->|Hin']%elem_of_cons Hr' Hk; [|by eapply Hcov].
        assert (k = ta) as -> by congruence.
        rewrite fmap_app. apply elem_of_app. by left.
Qed.

Lemma best_per_token_total (rows : list pydict) : ∀ best,
  Forall (λ r, is_Some (row_token r)) rows →
  is_Some (best_per_token best rows).
Proof.
  induction rows as [|r rows IH]; intros best Hall; [by eexists|].
  apply Forall_cons in Hall as [[ta Hta] Hall]. cbn [best_per_token].
  fold (row_token r). rewrite Hta. cbn [mbind option_bind].
  repeat case_decide; by apply IH.
Qed.

Lemma has_token_total rows :
  Forall has_token rows → Forall (λ r, is_Some (row_token r)) rows.
Proof.
  intros H. eapply Forall_impl; [exact H|]. intros r (s & -> & _). by eexists.
Qed.

Lemma sorted_first_ge opts (l1 l2 : list pydict) r r' :
  StronglySorted (rank_ge opts) (l1 ++ r :: l2) →
  r' ∈ r :: l2 → rank_ge opts r r'.
Proof.
  intros Hs [->|Hin]%elem_of_cons; [apply lex_ge_refl|].
  apply StronglySorted_app_1_r in Hs.
  apply StronglySorted_inv in Hs as [_ Hall].
  by eapply Forall_forall in Hall.
Qed.

(** The reduction on sorted rows, before its result is sorted again. *)
Lemma best_per_token_sorted opts rows best :
  StronglySorted (rank_ge opts) rows →
  best_per_token [] rows = Some best →
  NoDup (best.*1)
  ∧ (∀ k r, (k, r) ∈ best → r ∈ rows ∧ row_token r = Some k ∧ k ≠ "")
  ∧ (∀ r k, r ∈ rows → row_token r = Some k → k ≠ "" → k ∈ best.*1)
  ∧ (∀ k r r', (k, r) ∈ best → r' ∈ rows → row_token r' = Some k →
       rank_ge opts r r').
Proof.
  intros Hs Hb.
  destruct (best_per_token_spec _ _ _ Hb) as (new & -> & Hnd & Hnew & Hcov).
  cbn [app] in *. split; [apply Hnd, NoDup_nil_2|]. split; [|split; [done|]].
  - intros k r Hin. apply Hnew in Hin as (Hk & _ & l1 & l2 & -> & Hr & _).
    split; [|done]. apply elem_of_app. right. apply list_elem_of_here.
  - intros k r r' Hin Hin' Hr'.
    apply Hnew in Hin as (Hk & _ & l1 & l2 & -> & Hr & Hl1).
    apply elem_of_app in Hin' as [Hin'|Hin'].
    + by apply Hl1 in Hin'.
    + by eapply sorted_first_ge.
Qed.

(** C5.  For every list of qualifying rows (rows as the scan builds them,
    with a non-empty token address), the unique-per-token reduction returns a
    list that is no longer than its input, is made of input rows, holds
    exactly one row per distinct token (no token twice, every token of the
    input present), and in which the retained row of a token has a rank key
    greater than or equal to the rank key of every row of that token. *)
Theorem unique_per_token_reduction (opts : ScanOptions) (rows : list pydict) :
  Forall has_token rows →
  ∃ out,
    unique_rows opts (sort_rows opts rows) = Some out
    ∧ (length out ≤ length rows)%nat
    ∧ (∀ r, r ∈ out → r ∈ rows)
    ∧ NoDup (row_token <$> out)
    ∧ (∀ r, r ∈ rows → row_token r ∈ row_token <$> out)
    ∧ (∀ kept r, kept ∈ out → r ∈ rows → row_token r = row_token kept →
         rank_ge opts kept r).
Proof.
  intros Hall.
  assert (Hall' : Forall has_token (sort_rows opts rows))
    by by rewrite sort_rows_perm.
  destruct (best_per_token_total _ [] (has_token_total _ Hall')) as [best Hb].
  destruct (best_per_token_sorted opts _ _ (sort_rows_sorted opts rows) Hb)
    as (Hnd & Hin & Hcov & Hge).
  assert (Htok : row_token <$> best.*2 = Some <$> best.*1).
  { clear -Hin. induction best as [|[k r] best IH]; [done|].
    cbn [fmap list_fmap fst snd]. f_equal.
    - apply (Hin k r), list_elem_of_here.
    - apply IH. intros k' r' Hin'. by apply Hin, list_elem_of_further. }
  assert (Hsub : ∀ r, r ∈ best.*2 → ∃ k, (k, r) ∈ best).
  { intros r ([k r'] & -> & Hr)%list_elem_of_fmap. by exists k. }
  unfold unique_rows. rewrite Hb. cbn [mbind option_bind].
  eexists. split; [done|]. split; [|split; [|split; [|split]]].
  - unfold sort_rows at 1. rewrite sort_desc_length, length_fmap.
    rewrite <- (length_fmap fst), <- (sort_desc_length (rank_gt opts) rows).
    rewrite <- (length_fmap (λ r, default "" (row_token r))).
    apply submseteq_length, NoDup_submseteq; [done|].
    intros k ([k' r] & -> & Hk)%list_elem_of_fmap.
    apply Hin in Hk as (Hr & Htk & _). cbn [fst].
    apply list_elem_of_fmap. exists r. by rewrite Htk.
  - intros r Hr. rewrite sort_rows_perm in Hr.
    apply Hsub in Hr as [k Hk]. apply Hin in Hk as [Hk _].
    by rewrite sort_rows_perm in Hk.
  - rewrite sort_rows_perm, Htok. by apply (NoDup_fmap_2 _).
  - intros r Hr. rewrite sort_rows_perm, Htok.
    apply (Forall_forall (λ r, has_token r)) with (x := r) in Hall as (s & Hs & Hne); [|done].
    rewrite Hs. apply list_elem_of_fmap_2. eapply Hcov; [|done..].
    by rewrite sort_rows_perm.
  - intros kept r Hk Hr Heq. rewrite sort_rows_perm in Hk.
    apply Hsub in Hk as [k Hk]. eapply Hge; [done|by rewrite sort_rows_perm|].
    rewrite Heq. by apply Hin in Hk as (_ & ? & _).
Qed.

Lemma lower_nonempty s : s ≠ "" → lower s ≠ "".
Proof. by destruct s. Qed.

Lemma row_token_str r s :
  get r "tokenAddress" = PStr s → s ≠ "" → has_token r.
Proof.
  intros Hr Hs. exists (lower s). split; [|by apply lower_nonempty].
  unfold row_token, lower_or_empty. rewrite Hr. cbn [truthy].
  by destruct s.
Qed.

Lemma twenty_rows_have_token : Forall has_token twenty_rows.
Proof.
  apply Forall_forall. intros r Hr.
  unfold twenty_rows in Hr. apply list_elem_of_bind in Hr as (t & Hr & Ht).
  apply list_elem_of_fmap in Hr as (m & -> & _).
  apply (row_token_str _ t); [reflexivity|].
  repeat (apply elem_of_cons in Ht as [->|Ht]; [done|]).
  by apply elem_of_nil in Ht.
Qed.

Lemma unique_per_token_reduction_witness :
  ∃ out,
    unique_rows (scan_args five_modes 5 true)
      (sort_rows (scan_args five_modes 5 true) twenty_rows) = Some out
    ∧ (length out ≤ length twenty_rows)%nat
    ∧ (∀ r, r ∈ out → r ∈ twenty_rows)
    ∧ NoDup (row_token <$> out)
    ∧ (∀ r, r ∈ twenty_rows → row_token r ∈ row_token <$> out)
    ∧ (∀ kept r, kept ∈ out → r ∈ twenty_rows →
         row_token r = row_token kept →
         rank_ge (scan_args five_modes 5 true) kept r).
Proof. apply unique_per_token_reduction, twenty_rows_have_token. Defined.

Lemma take_sorted {A} (R : relation A) n l :
  StronglySorted R l → StronglySorted R (take n l).
Proof.
  intros H. rewrite <- (take_drop n l) in H.
  by apply StronglySorted_app_1_l in H.
Qed.

Lemma rank_rows_sorted opts rows out :
  rank_rows opts rows = Some out →
  StronglySorted (rank_ge opts) out ∧ (length out ≤ row_limit opts)%nat.
Proof.
  unfold rank_rows, row_limit. cbv zeta. intros H.
  destruct (unique_per_token opts).
  - unfold unique_rows in H.
    destruct (best_per_token [] _) as [best|]; [|done].
    cbn [mbind option_bind] in H. injection H as <-. split.
    + apply take_sorted, sort_rows_sorted.
    + rewrite length_take. lia.
  - cbn [mbind option_bind] in H. injection H as <-. split.
    + apply take_sorted, sort_rows_sorted.
    + rewrite length_take. lia.
Qed.

Lemma rank_rows_length opts rows :
  Forall has_token rows →
  ∃ out,
    rank_rows opts rows = Some out
    ∧ length out =
        Nat.min (row_limit opts)
          (if unique_per_token opts
           then length (remove_dups (row_token <$> rows))
           else length rows).
Proof.
  intros Hall. unfold rank_rows, row_limit. cbv zeta.
  destruct (unique_per_token opts).
  - assert (Hall' : Forall has_token (sort_rows opts rows))
      by by rewrite sort_rows_perm.
    destruct (best_per_token_total _ [] (has_token_total _ Hall'))
      as [best Hb].
    destruct (best_per_token_sorted opts _ _ (sort_rows_sorted opts rows) Hb)
      as (Hnd & Hin & Hcov & _).
    unfold unique_rows. rewrite Hb. cbn [mbind option_bind].
    eexists. split; [done|]. rewrite length_take. f_equal.
    unfold sort_rows at 1. rewrite sort_desc_length, length_fmap.
    rewrite <- (length_fmap fst), <- (length_fmap Some).
    apply Permutation_length, NoDup_Permutation.
    + by apply (NoDup_fmap_2 _).
    + apply NoDup_remove_dups.
    + intros x. rewrite elem_of_remove_dups, <- (sort_rows_perm opts rows).
      split.
      * intros (k & -> & ([k' r] & -> & Hk)%list_elem_of_fmap)%list_elem_of_fmap.
        apply Hin in Hk as (Hr & Hk & _). cbn [fst]. rewrite <- Hk.
        by apply list_elem_of_fmap_2.
      * intros (r & -> & Hr)%list_elem_of_fmap.
        apply (Forall_forall (λ r, has_token r)) with (x := r) in Hall'
          as (s & Hs & Hne); [|done].
        rewrite Hs. apply list_elem_of_fmap_2. by eapply Hcov.
  - cbn [mbind option_bind]. eexists. split; [done|].
    rewrite length_take. f_equal. apply sort_desc_length.
Qed.

Lemma add_orders_rank_key opts w r r' :
  add_orders w r = Some r' → _rank_key opts r' = _rank_key opts r.
Proof.
  unfold add_orders. intros H.
  destruct (strip_or_empty _) as [ta|]; [|done]. cbn [mbind option_bind] in H.
  case_decide; injection H as <-; [done|].
  unfold _rank_key. by rewrite !get_insert_ne by done.
Qed.

Lemma mapM_add_orders_sorted opts w rows rows' :
  mapM (add_orders w) rows = Some rows' →
  StronglySorted (rank_ge opts) rows →
  StronglySorted (rank_ge opts) rows' ∧ length rows' = length rows.
Proof.
  intros H%mapM_Some_1 Hs. split; [|symmetry; by eapply Forall2_length].
  revert Hs. induction H as [|r r' rows rows' Hr H IH]; [done|].
  intros [Hs Hall]%StronglySorted_inv. constructor; [by apply IH|].
  clear IH Hs. induction H as [|x x' l l' Hx H IH]; [done|].
  apply Forall_cons in Hall as [Hrx Hall]. constructor; [|by apply IH].
  unfold rank_ge in *.
  by rewrite (add_orders_rank_key _ _ _ _ Hr), (add_orders_rank_key _ _ _ _ Hx).
Qed.

Lemma run_scan_rows args w rows dbg :
  run_scan_for_modes args w = Some (rows, dbg) →
  let opts := make_opts args in
  StronglySorted (rank_ge opts) rows ∧ (length rows ≤ row_limit opts)%nat.
Proof.
  unfold run_scan_for_modes. cbv zeta. intros H.
  assert (Hnil : StronglySorted (rank_ge (make_opts args)) []
                 ∧ (length (@nil pydict) ≤ row_limit (make_opts args))%nat).
  { split; [constructor | cbn; lia]. }
  destruct (collect_candidates _ _) as [tbl|]; [|done].
  cbn [mbind option_bind] in H.
  destruct (cut_candidates _ _) as [|c cs]; [by injection H as <- <-|].
  destruct (profiles_index _ _) as [idx|]; [|done].
  cbn [mbind option_bind] in H.
  destruct (foldl _ _ _) as [tbl'|]; [|done]. cbn [mbind option_bind] in H.
  destruct (token_addresses _) as [addrs|]; [|done].
  cbn [mbind option_bind] in H.
  destruct (batch_index _ _) as [pidx|]; [|done]. cbn [mbind option_bind] in H.
  destruct (mapM _ _) as [per_token|]; [|done]. cbn [mbind option_bind] in H.
  destruct (concat per_token) as [|r0 qual] eqn:Hq; [by injection H as <- <-|].
  destruct (rank_rows _ _) as [ranked|] eqn:Hr; [|done].
  cbn [mbind option_bind] in H.
  apply rank_rows_sorted in Hr as [Hs Hl].
  destruct (include_orders (make_opts args)).
  - destruct (mapM _ ranked) as [rows'|] eqn:Ho; [|done].
    cbn [mbind option_bind] in H. injection H as <- <-.
    destruct (mapM_add_orders_sorted _ _ _ _ Ho Hs) as [? Hlen].
    split; [done|]. by rewrite Hlen.
  - cbn [mbind option_bind] in H. by injection H as <- <-.
Qed.

Ltac bind_inv H :=
  repeat match type of H with
         | context [mbind _ ?o] =>
             let E := fresh "E" in
             destruct o eqn:E; cbn [mbind option_bind] in H; [|done]
         | context [fmap _ ?o] =>
             let E := fresh "E" in
             destruct o eqn:E; cbn [fmap option_fmap option_map] in H
         end.

Lemma compute_metrics_fields now pair m :
  compute_metrics_from_pair now pair = Some m →
  m !! "tokenAddress" = None
  ∧ m !! "symbol" = None
  ∧ m !! "name" = None
  ∧ get m "ageMin"
    = PFloat (_age_minutes_from_pair_created_at now (get pair "pairCreatedAt"))
  ∧ ∃ liq vol5 vol1h m5pct h1pct turnover netbuy,
      get m "liquidityUsd" = PFloat liq
      ∧ get m "vol5m" = PFloat vol5
      ∧ get m "vol1h" = PFloat vol1h
      ∧ get m "m5pct" = PFloat m5pct
      ∧ get m "h1pct" = PFloat h1pct
      ∧ get m "turnover_1h_over_liq" = PFloat turnover
      ∧ get m "netBuy5m" = PInt netbuy.
Proof.
  unfold compute_metrics_from_pair. cbv zeta. intros H.
  bind_inv H. apply (inj Some) in H. subst m.
  repeat split; try reflexivity.
  do 7 eexists. repeat split; reflexivity.
Qed.

Lemma build_base_row_token opts w tbl token_addr best row :
  build_base_row opts w tbl token_addr best = Some row →
  get row "tokenAddress" = PStr token_addr.
Proof.
  unfold build_base_row. cbv zeta. intros H.
  repeat match type of H with
         | mbind _ ?o = _ =>
             destruct o as [?|] eqn:?; cbn [mbind option_bind] in H; [|done]
         | context [let '(_, _) := ?p in _] => destruct p
         end.
  injection H as <-.
  match goal with
  | Hm : compute_metrics_from_pair _ _ = Some _ |- _ =>
      apply compute_metrics_fields in Hm as (Hta & _)
  end.
  unfold with_scores. rewrite !get_insert_ne by done.
  unfold get. rewrite lookup_union_r by done. reflexivity.
Qed.

Lemma mode_rows_token opts base_row row :
  row ∈ mode_rows opts base_row →
  get row "tokenAddress" = get base_row "tokenAddress".
Proof.
  unfold mode_rows. intros (mode & -> & _)%list_elem_of_fmap.
  by rewrite get_insert_ne.
Qed.

Lemma token_rows_have_token opts w tbl idx token_addr rows :
  token_addr ≠ "" →
  token_rows opts w tbl idx token_addr = Some rows → Forall has_token rows.
Proof.
  unfold token_rows. intros Hne H.
  destruct (default [] _) as [|p ps]; [by injection H as <-|].
  destruct (best_pair _ _ _) as [[best|]|]; cbn [mbind option_bind] in H;
    [|by injection H as <-|done].
  case_decide; [by injection H as <-|].
  destruct (build_base_row _ _ _ _ _) as [base_row|] eqn:Hb; [|done].
  cbn [mbind option_bind] in H.
  repeat match type of H with
         | (if ?b then _ else _) = _ =>
             destruct b; [by injection H as <-|]
         end.
  injection H as <-. apply Forall_forall. intros row Hrow.
  apply mode_rows_token in Hrow. eapply row_token_str; [|done].
  rewrite Hrow. by eapply build_base_row_token.
Qed.

Lemma token_addresses_nonempty candidates addrs :
  token_addresses candidates = Some addrs → Forall (λ a, a ≠ "") addrs.
Proof.
  unfold token_addresses. intros H.
  destruct (mapM _ _) as [l|]; [|done]. cbn [mbind option_bind] in H.
  injection H as <-. apply Forall_forall. intros a Ha.
  by apply list_elem_of_filter in Ha as [? _].
Qed.

Lemma mapM_token_rows opts w tbl idx addrs per_token :
  Forall (λ a, a ≠ "") addrs →
  mapM (token_rows opts w tbl idx) addrs = Some per_token →
  Forall has_token (concat per_token).
Proof.
  intros Hne H%mapM_Some_1. induction H as [|a rows addrs per Ha H IH]; [done|].
  apply Forall_cons in Hne as [Hne Hall]. cbn [concat].
  apply Forall_app. split; [by eapply token_rows_have_token | by apply IH].
Qed.

(** C6 fails as stated: with top_n=5 and unique_per_token enabled (its
    default), twenty qualifying rows of four tokens leave four rows. *)
Lemma twenty_rows_give_four :
  length twenty_rows = 20%nat
  ∧ top_n (scan_args five_modes 5 true) = 5
  ∧ length <$> rank_rows (scan_args five_modes 5 true) twenty_rows
    = Some 4%nat.
Proof.
  split; [reflexivity|]. split; [reflexivity|].
  destruct (rank_rows_length (scan_args five_modes 5 true) twenty_rows
              twenty_rows_have_token) as (out & -> & Hlen).
  cbn [fmap option_fmap option_map]. rewrite Hlen. reflexivity.
Qed.

Lemma rank_rows_ranked opts rows :
  rank_rows opts rows = take (row_limit opts) <$> ranked_rows opts rows.
Proof.
  unfold rank_rows, ranked_rows, row_limit. cbv zeta.
  destruct (unique_per_token opts); [|done].
  by destruct (unique_rows _ _).
Qed.

Lemma ranked_rows_spec opts rows ranked :
  Forall has_token rows →
  ranked_rows opts rows = Some ranked →
  StronglySorted (rank_ge opts) ranked
  ∧ (if unique_per_token opts then best_of_tokens opts rows ranked
     else ranked ≡ₚ rows).
Proof.
  intros Hall. unfold ranked_rows. cbv zeta.
  destruct (unique_per_token opts).
  - unfold unique_rows.
    destruct (best_per_token [] _) as [best|] eqn:Hb; [|done].
    cbn [mbind option_bind]. intros [= <-].
    split; [apply sort_rows_sorted|].
    destruct (best_per_token_sorted opts _ _ (sort_rows_sorted opts rows) Hb)
      as (Hnd & Hin & Hcov & Hbest).
    assert (Htok : row_token <$> best.*2 = Some <$> best.*1).
    { clear -Hin. induction best as [|[k r] best IH]; [done|].
      cbn [fmap list_fmap fst snd]. f_equal.
      - apply (Hin k r), list_elem_of_here.
      - apply IH. intros k' r' Hin'. by apply Hin, list_elem_of_further. }
    split; [|split].
    + intros r. rewrite sort_rows_perm.
      intros ([k r'] & -> & Hk)%list_elem_of_fmap.
      apply Hin in Hk as [Hk _]. by rewrite sort_rows_perm in Hk.
    + rewrite sort_rows_perm, Htok. by apply (NoDup_fmap_2 _).
    + intros q Hq.
      apply (Forall_forall (λ r, has_token r)) with (x := q) in Hall
        as (s & Hs & Hne); [|done].
      assert (Hq' : q ∈ sort_rows opts rows) by by rewrite sort_rows_perm.
      pose proof (Hcov q s Hq' Hs Hne) as Hk.
      apply list_elem_of_fmap in Hk as ([k r] & -> & Hk). cbn [fst] in *.
      exists r. split; [|split].
      * rewrite sort_rows_perm. apply list_elem_of_fmap. by exists (k, r).
      * rewrite Hs. by apply (Hin k r).
      * by apply (Hbest k r q).
  - intros [= <-]. split; [apply sort_rows_sorted|apply sort_rows_perm].
Qed.

Lemma kept_above_dropped {A} (R : relation A) n l x y :
  StronglySorted R l → x ∈ take n l → y ∈ drop n l → R x y.
Proof.
  intros Hs. rewrite <- (take_drop n l) in Hs.
  by apply StronglySorted_app_1_elem_of.
Qed.

Lemma with_orders_keys opts w rows rows' :
  with_orders opts w rows = Some rows' →
  ∀ r', r' ∈ rows' → ∃ r, r ∈ rows ∧ _rank_key opts r' = _rank_key opts r.
Proof.
  unfold with_orders. destruct (include_orders opts).
  - intros H%mapM_Some_1 r' Hr'.
    apply list_elem_of_lookup in Hr' as [i Hi].
    destruct (Forall2_lookup_r _ _ _ _ _ H Hi) as (r & Hr & Ho).
    exists r. split; [by eapply list_elem_of_lookup_2|].
    by eapply add_orders_rank_key.
  - intros [= <-] r Hr. by exists r.
Qed.

Lemma with_orders_sorted opts w rows rows' :
  with_orders opts w rows = Some rows' →
  StronglySorted (rank_ge opts) rows →
  StronglySorted (rank_ge opts) rows' ∧ length rows' = length rows.
Proof.
  unfold with_orders. destruct (include_orders opts).
  - apply mapM_add_orders_sorted.
  - by intros [= <-].
Qed.

(** The stages of a scan that returns: the rows that passed the filters,
    ranked, truncated and completed with the paid orders. *)
Lemma run_scan_stages args w rows dbg :
  run_scan_for_modes args w = Some (rows, dbg) →
  let opts := make_opts args in
  ∃ qualifying ranked,
    qualifying_rows args w = Some qualifying
    ∧ Forall has_token qualifying
    ∧ (dbg_why dbg = None →
         dbg_counts dbg !! "rows_after_filters"
         = Some (count (length qualifying)))
    ∧ ranked_rows opts qualifying = Some ranked
    ∧ with_orders opts w (take (row_limit opts) ranked) = Some rows.
Proof.
  unfold run_scan_for_modes, qualifying_rows. cbv zeta. intros H.
  assert (Hnil : ranked_rows (make_opts args) [] = Some []
                 ∧ with_orders (make_opts args) w
                     (take (row_limit (make_opts args)) []) = Some []).
  { unfold ranked_rows, with_orders. cbv zeta.
    split; [by destruct (unique_per_token _)|].
    rewrite take_nil. by destruct (include_orders _). }
  destruct (collect_candidates _ _) as [tbl|]; [|done].
  cbn [mbind option_bind] in H |- *.
  destruct (cut_candidates _ _) as [|c cs].
  { injection H as <- <-. exists [], []. by destruct Hnil. }
  destruct (profiles_index _ _) as [idx|]; [|done].
  cbn [mbind option_bind] in H |- *.
  destruct (foldl _ _ _) as [tbl'|]; [|done].
  cbn [mbind option_bind] in H |- *.
  destruct (token_addresses _) as [addrs|] eqn:Ha; [|done].
  cbn [mbind option_bind] in H |- *.
  destruct (batch_index _ _) as [pidx|]; [|done].
  cbn [mbind option_bind] in H |- *.
  destruct (mapM _ _) as [per_token|] eqn:Hp; [|done].
  cbn [mbind option_bind] in H |- *.
  pose proof (mapM_token_rows _ _ _ _ _ _
                (token_addresses_nonempty _ _ Ha) Hp) as Hall.
  destruct (concat per_token) as [|r0 qual] eqn:Hq.
  { injection H as <- <-. exists [], []. destruct Hnil as [? ?].
    repeat split; try done.
    all: intros _; cbn [dbg_counts]; by rewrite lookup_insert_eq. }
  rewrite rank_rows_ranked in H.
  destruct (ranked_rows _ _) as [ranked|] eqn:Hr; [|done].
  cbn [fmap option_fmap option_map mbind option_bind] in H.
  exists (r0 :: qual), ranked. split; [done|]. split; [done|].
  unfold with_orders.
  destruct (include_orders (make_opts args)).
  - destruct (mapM (add_orders w) _) as [rows'|] eqn:Ho; [|done].
    cbn [mbind option_bind] in H. injection H as <- <-.
    repeat split; try done.
    all: intros _; cbn [dbg_counts]; by rewrite lookup_insert_eq.
  - cbn [mbind option_bind] in H. injection H as <- <-.
    repeat split; try done.
    all: intros _; cbn [dbg_counts]; by rewrite lookup_insert_eq.
Qed.

(** C6, amended.  The rows that passed the filters are sorted descending by
    the lexicographic rank key and, when unique_per_token is set, reduced to
    the best row of every token; the scan returns the first max(1, top_n)
    rows of this ranking, with the paid-order fields when include_orders is
    set.  So the returned rows are sorted descending, every returned row
    ranks at least as high as every row of the ranking that is left out, and
    their number is the minimum of max(1, top_n) and of the number of
    qualifying rows (the count [rows_after_filters] of the debug record) when
    unique_per_token is disabled, of the number of distinct tokens among them
    when it is enabled: with top_n = 5 and 20 qualifying rows, exactly 5 rows
    when unique_per_token is disabled or the rows belong to at least 5
    tokens. *)
Theorem final_rows_ranked (args : ScanOptions) (w : world) rows dbg :
  run_scan_for_modes args w = Some (rows, dbg) →
  let opts := make_opts args in
  ∃ qualifying ranked,
    qualifying_rows args w = Some qualifying
    ∧ (dbg_why dbg = None →
         dbg_counts dbg !! "rows_after_filters"
         = Some (count (length qualifying)))
    ∧ ranked_rows opts qualifying = Some ranked
    ∧ StronglySorted (rank_ge opts) ranked
    ∧ (if unique_per_token opts then best_of_tokens opts qualifying ranked
       else ranked ≡ₚ qualifying)
    ∧ with_orders opts w (take (row_limit opts) ranked) = Some rows
    ∧ StronglySorted (rank_ge opts) rows
    ∧ (∀ r q, r ∈ rows → q ∈ drop (row_limit opts) ranked → rank_ge opts r q)
    ∧ length rows =
        Nat.min (row_limit opts)
          (if unique_per_token opts
           then length (remove_dups (row_token <$> qualifying))
           else length qualifying)
    ∧ (top_n opts = 5 → length qualifying = 20%nat →
       unique_per_token opts = false
       ∨ (5 ≤ length (remove_dups (row_token <$> qualifying)))%nat →
       length rows = 5%nat).
Proof.
  intros H opts.
  destruct (run_scan_stages _ _ _ _ H) as (qual & ranked & Hq & Hall & Hc & Hr & Ho).
  fold opts in Hr, Ho.
  destruct (ranked_rows_spec _ _ _ Hall Hr) as [Hs Hspec].
  destruct (with_orders_sorted _ _ _ _ Ho (take_sorted _ _ _ Hs)) as [Hs' Hlen].
  assert (Hn : length rows =
                 Nat.min (row_limit opts)
                   (if unique_per_token opts
                    then length (remove_dups (row_token <$> qual))
                    else length qual)).
  { rewrite Hlen.
    destruct (rank_rows_length opts qual Hall) as (out & Hout & <-).
    rewrite rank_rows_ranked, Hr in Hout. by injection Hout as <-. }
  exists qual, ranked. do 7 (split; [done|]). split; [|split; [done|]].
  - intros r q Hr' Hq'.
    destruct (with_orders_keys _ _ _ _ Ho r Hr') as (r0 & Hr0 & Hk).
    unfold rank_ge. rewrite Hk.
    by apply (kept_above_dropped (rank_ge opts) (row_limit opts) ranked).
  - intros Htop Hq20 Hu. rewrite Hn. unfold row_limit. rewrite Htop, Hq20.
    destruct Hu as [->|Hu]; [reflexivity|].
    destruct (unique_per_token opts); [|reflexivity].
    change (Z.to_nat (1 `max` 5)) with 5%nat. lia.
Qed.

Lemma collect_A :
  collect_candidates (make_opts args_A) world_A = Some [("tokena", candidate_A)].
Proof. reflexivity. Qed.

Lemma cut_A : cut_candidates (make_opts args_A) [("tokena", candidate_A)] = [candidate_A].
Proof. reflexivity. Qed.

Lemma addrs_A : token_addresses [candidate_A] = Some ["TokenA"].
Proof. reflexivity. Qed.

Lemma batch_A : batch_index world_A ["TokenA"] = Some index_A.
Proof. reflexivity. Qed.

Lemma best_pair_A : best_pair None (-1, -1)%R [pair_A] = Some (Some pair_A).
Proof.
  cbn [best_pair].
  change (get2 pair_A "liquidity" "usd") with (Some (PFloat 20000)).
  change (get2 pair_A "volume" "h24") with (Some (PFloat 9000)).
  cbn [fmap option_fmap option_map mbind option_bind _safe_float].
  unfold RR_gt. cbn [fst snd].
  rewrite (bool_decide_eq_true_2 (20000 > -1)%R) by lra. reflexivity.
Qed.

Lemma build_A :
  build_base_row (make_opts args_A) world_A table_A "TokenA" pair_A = Some base_row_A.
Proof. reflexivity. Qed.

Lemma base_row_A_fields :
  get base_row_A "liquidityUsd" = PFloat 20000
  ∧ get base_row_A "vol5m" = PFloat 300
  ∧ get base_row_A "vol1h" = PFloat 1500
  ∧ get base_row_A "netBuy5m" = PInt 3
  ∧ get base_row_A "m5pct" = PFloat 5
  ∧ get base_row_A "h1pct" = PFloat 2
  ∧ get base_row_A "boostAmount" = PFloat 50
  ∧ get base_row_A "tokenAddress" = PStr "TokenA".
Proof. repeat split; reflexivity. Qed.

Lemma score_pair_ext (r1 r2 : pydict) pump :
  Forall (λ k, get r1 k = get r2 k) scoring_fields →
  score_pair r1 pump = score_pair r2 pump.
Proof.
  unfold scoring_fields. intros H. rewrite !score_pair_eq.
  repeat (apply Forall_cons in H as [-> H]). reflexivity.
Qed.

Lemma scenario_A_spike :
  (0.62 < spike_score (score_pair scenario_A true) < 0.75)%R.
Proof.
  rewrite score_pair_eq. cbn [spike_score].
  change (get scenario_A "m5pct") with (PFloat 5).
  change (get scenario_A "h1pct") with (PFloat 2).
  change (get scenario_A "turnover_1h_over_liq") with (PFloat (1500 / 20000)).
  change (get scenario_A "netBuy5m") with (PInt 3).
  cbn [_safe_float _safe_int]. unfold spec_spike_score, spec_mom.
  assert (H3 : (0 <= log10 (1 + Rmax 3 0) < 1)%R).
  { rewrite Rmax_left by lra. split.
    - apply (log10_ge_pow 0). simpl. lra.
    - apply (log10_lt_pow 1). simpl. lra. }
  rewrite (Rmax_right 0) by lra. rewrite (Rmin_right 2.5) by lra.
  rewrite (Rmin_right 2) by lra. lra.
Qed.

(** The row of the token before [with_scores]. *)
Lemma base_row_A_scores :
  ∃ pre, base_row_A = with_scores pre true
         ∧ Forall (λ k, get pre k = get scenario_A k) scoring_fields.
Proof.
  eexists. split; [reflexivity|]. unfold scoring_fields.
  repeat (apply Forall_cons; split); try reflexivity; [|apply Forall_nil_2].
  match goal with |- get ?r ?k = _ =>
    change (get r k)
      with (PFloat (if decide (20000 > 0)%R then (1500 / 20000)%R else 0%R))
  end.
  by rewrite decide_True by lra.
Qed.

Lemma base_row_A_score :
  get base_row_A "score" = PFloat (score (score_pair scenario_A true))
  ∧ get base_row_A "spike_score"
    = PFloat (spike_score (score_pair scenario_A true)).
Proof.
  destruct base_row_A_scores as (pre & -> & Hpre).
  unfold with_scores. rewrite get_insert_ne, !get_insert_eq by done.
  by rewrite (score_pair_ext _ _ _ Hpre).
Qed.

Lemma base_row_A_age : get base_row_A "ageMin" = PFloat 30.
Proof.
  change (get base_row_A "ageMin") with (PFloat (IZR 1800000 / 60000)).
  f_equal. lra.
Qed.

Lemma base_row_A_turnover :
  get base_row_A "turnover_1h_over_liq" = PFloat (1500 / 20000).
Proof.
  change (get base_row_A "turnover_1h_over_liq")
    with (PFloat (if decide (20000 > 0)%R then (1500 / 20000)%R else 0%R)).
  by rewrite decide_True by lra.
Qed.

Lemma anti_dead_A : _anti_dead_pass base_row_A (make_opts args_A) = true.
Proof.
  unfold _anti_dead_pass. cbv zeta. rewrite base_row_A_age.
  cbn [_safe_float make_opts pump_mode args_A scan_args].
  by rewrite decide_True by lra.
Qed.

Lemma trending_A : _trending_reasons base_row_A (make_opts args_A) = [].
Proof.
  unfold _trending_reasons. cbv zeta.
  destruct base_row_A_fields as (-> & -> & -> & -> & -> & _ & -> & _).
  destruct base_row_A_score as [_ ->]. rewrite base_row_A_turnover.
  pose proof scenario_A_spike as Hs.
  cbn [_safe_float _safe_int make_opts args_A scan_args trending_min_liquidity
         trending_min_vol1h trending_min_vol5m trending_min_netbuy5m
         spike_score_min].
  rewrite (decide_False (P := (20000 < 15000)%R)) by lra.
  rewrite (bool_decide_eq_false_2 (1500 < 1000)%R) by lra.
  rewrite (decide_False (P := (_ < 0.25)%R)) by lra.
  rewrite (bool_decide_eq_false_2 (5 <= 0)%R) by lra.
  rewrite (bool_decide_eq_true_2 (50 > 0)%R) by lra.
  reflexivity.
Qed.

Lemma mode_pass_A mode :
  mode ∈ five_modes → mode_pass base_row_A true mode = true.
Proof.
  intros Hm. apply mode_pass_true. cbv zeta.
  destruct base_row_A_fields as (-> & -> & _ & -> & _).
  destruct base_row_A_score as [-> _]. rewrite base_row_A_age.
  cbn [_safe_float _safe_int].
  pose proof scenario_A_score as Hs. unfold five_modes in Hm.
  repeat (apply elem_of_cons in Hm as [->|Hm]); [..|by apply elem_of_nil in Hm].
  all: match goal with |- context [_mode_thresholds ?m true] =>
         let t := eval hnf in (_mode_thresholds m true) in
         change (_mode_thresholds m true) with t end.
  all: cbn [min_liq min_vol5 min_netbuy5 max_age_min min_score].
  all: rewrite ?(trunc_IZR 0), ?(trunc_IZR 1), ?(trunc_IZR 2).
  all: repeat split; try lra; try lia.
Qed.

Lemma mode_rows_A :
  mode_rows (make_opts args_A) base_row_A
  = [row_A "early_strict"; row_A "degen"; row_A "strict"].
Proof.
  unfold mode_rows.
  change (selected_modes (make_opts args_A))
    with ["early_strict"; "degen"; "strict"].
  change (pump_mode (make_opts args_A)) with true.
  rewrite !filter_cons_True, filter_nil;
    [reflexivity|apply Is_true_true, mode_pass_A; unfold five_modes..].
  - apply list_elem_of_further, list_elem_of_further, list_elem_of_further,
      list_elem_of_here.
  - apply list_elem_of_further, list_elem_of_further, list_elem_of_further,
      list_elem_of_further, list_elem_of_here.
  - apply list_elem_of_further, list_elem_of_here.
Qed.

Lemma token_rows_A :
  token_rows (make_opts args_A) world_A table_A index_A "TokenA"
  = Some [row_A "early_strict"; row_A "degen"; row_A "strict"].
Proof.
  unfold token_rows.
  change (default [] (index_A !! lower "TokenA")) with [pair_A].
  cbv beta iota. rewrite best_pair_A. cbn [mbind option_bind].
  rewrite decide_False by (by apply insert_non_empty).
  rewrite build_A. cbn [mbind option_bind].
  rewrite anti_dead_A, trending_A, mode_rows_A.
  by rewrite andb_false_r.
Qed.

Lemma rank_gt_same opts a b :
  _rank_key opts a = _rank_key opts b → rank_gt opts a b = false.
Proof.
  unfold rank_gt. intros ->.
  destruct (RRR_gt _ _) eqn:H; [|done].
  apply RRR_gt_ge in H as Hge. unfold RRR_gt, RR_gt in H.
  repeat (apply orb_true_iff in H as [H|H] || apply andb_true_iff in H as [? H]);
    apply bool_decide_eq_true in H; lra.
Qed.

Lemma rank_key_row_A opts mode : _rank_key opts (row_A mode) = _rank_key opts base_row_A.
Proof. unfold _rank_key, row_A. by rewrite !get_insert_ne by done. Qed.

Lemma rank_rows_A :
  rank_rows (make_opts args_A)
    [row_A "early_strict"; row_A "degen"; row_A "strict"]
  = Some [row_A "early_strict"].
Proof.
  unfold rank_rows. cbv zeta.
  assert (Hsort : sort_rows (make_opts args_A)
            [row_A "early_strict"; row_A "degen"; row_A "strict"]
          = [row_A "early_strict"; row_A "degen"; row_A "strict"]).
  { unfold sort_rows, sort_desc. cbn [foldr insert_desc].
    rewrite !rank_gt_same by by rewrite !rank_key_row_A.
    cbn [insert_desc].
    by rewrite !rank_gt_same by by rewrite !rank_key_row_A. }
  rewrite Hsort. reflexivity.
Qed.

(** The scan of scenario A: the token qualifies for the three modes, and the
    reduction to one row per token keeps the first of its three rows. *)
Lemma scan_A :
  ∃ dbg,
    run_scan_for_modes args_A world_A = Some ([row_A "early_strict"], dbg)
    ∧ dbg_why dbg = None
    ∧ dbg_counts dbg !! "candidates_unique" = Some 1
    ∧ dbg_counts dbg !! "rows_after_filters" = Some 3.
Proof.
  eexists. split; [|split; [|split]].
  - unfold run_scan_for_modes. cbv zeta. rewrite collect_A.
    cbn [mbind option_bind]. rewrite cut_A.
    change (profiles_index (make_opts args_A) world_A) with (Some (∅ : gmap string pydict)).
    cbn [mbind option_bind].
    change (foldl (enrich ∅) (Some [("tokena", candidate_A)]) [candidate_A])
      with (Some table_A).
    cbn [mbind option_bind]. rewrite addrs_A. cbn [mbind option_bind].
    rewrite batch_A. cbn [mbind option_bind].
    change (missing_tokens _ ["TokenA"]) with (@nil string).
    change (resolve_missing world_A _ []) with index_A.
    cbn [mapM]. rewrite token_rows_A.
    cbn [mbind option_bind mret option_ret fmap option_fmap option_map concat app].
    rewrite rank_rows_A. cbn [mbind option_bind].
    change (include_orders (make_opts args_A)) with false.
    reflexivity.
  - reflexivity.
  - reflexivity.
  - reflexivity.
Qed.

Lemma token_rows_B :
  token_rows (make_opts args_B) world_B table_A index_A "TokenA"
  = Some [row_A "early_strict"; row_A "degen"; row_A "strict"].
Proof. rewrite <- token_rows_A. reflexivity. Qed.

Lemma sort_rows_A opts :
  sort_rows opts [row_A "early_strict"; row_A "degen"; row_A "strict"]
  = [row_A "early_strict"; row_A "degen"; row_A "strict"].
Proof.
  unfold sort_rows, sort_desc. cbn [foldr insert_desc].
  rewrite !rank_gt_same by by rewrite !rank_key_row_A.
  cbn [insert_desc].
  by rewrite !rank_gt_same by by rewrite !rank_key_row_A.
Qed.

(** The scan of scenario A for two rows with the paid orders: the token
    qualifies for the three modes, the first two of its rows are kept. *)
Lemma scan_B :
  ∃ dbg,
    run_scan_for_modes args_B world_B
    = Some ([paid_row_A "early_strict"; paid_row_A "degen"], dbg)
    ∧ dbg_why dbg = None
    ∧ dbg_counts dbg !! "rows_after_filters" = Some 3
    ∧ qualifying_rows args_B world_B
      = Some [row_A "early_strict"; row_A "degen"; row_A "strict"].
Proof.
  assert (Hc : collect_candidates (make_opts args_B) world_B
               = Some [("tokena", candidate_A)]) by reflexivity.
  assert (Hcut : cut_candidates (make_opts args_B) [("tokena", candidate_A)]
                 = [candidate_A]) by reflexivity.
  assert (Hb : batch_index world_B ["TokenA"] = Some index_A) by reflexivity.
  eexists. split; [|split; [|split]].
  - unfold run_scan_for_modes. cbv zeta. rewrite Hc.
    cbn [mbind option_bind]. rewrite Hcut.
    change (profiles_index (make_opts args_B) world_B)
      with (Some (∅ : gmap string pydict)).
    cbn [mbind option_bind].
    change (foldl (enrich ∅) (Some [("tokena", candidate_A)]) [candidate_A])
      with (Some table_A).
    cbn [mbind option_bind]. rewrite addrs_A. cbn [mbind option_bind].
    rewrite Hb. cbn [mbind option_bind].
    change (missing_tokens _ ["TokenA"]) with (@nil string).
    change (resolve_missing world_B _ []) with index_A.
    cbn [mapM]. rewrite token_rows_B.
    cbn [mbind option_bind mret option_ret fmap option_fmap option_map concat app].
    unfold rank_rows. cbv zeta. rewrite sort_rows_A.
    change (unique_per_token (make_opts args_B)) with false.
    change (include_orders (make_opts args_B)) with true.
    cbn [mbind option_bind].
    change (take _ [row_A "early_strict"; row_A "degen"; row_A "strict"])
      with [row_A "early_strict"; row_A "degen"].
    change (mapM (add_orders world_B) [row_A "early_strict"; row_A "degen"])
      with (Some [paid_row_A "early_strict"; paid_row_A "degen"]).
    reflexivity.
  - reflexivity.
  - reflexivity.
  - unfold qualifying_rows. cbv zeta. rewrite Hc.
    cbn [mbind option_bind]. rewrite Hcut.
    change (profiles_index (make_opts args_B) world_B)
      with (Some (∅ : gmap string pydict)).
    cbn [mbind option_bind].
    change (foldl (enrich ∅) (Some [("tokena", candidate_A)]) [candidate_A])
      with (Some table_A).
    cbn [mbind option_bind]. rewrite addrs_A. cbn [mbind option_bind].
    rewrite Hb. cbn [mbind option_bind].
    change (missing_tokens _ ["TokenA"]) with (@nil string).
    change (resolve_missing world_B _ []) with index_A.
    cbn [mapM]. rewrite token_rows_B. reflexivity.
Qed.

Lemma final_rows_ranked_witness :
  ∃ dbg,
    run_scan_for_modes args_B world_B
    = Some ([paid_row_A "early_strict"; paid_row_A "degen"], dbg)
    ∧ qualifying_rows args_B world_B
      = Some [row_A "early_strict"; row_A "degen"; row_A "strict"]
    ∧ row_limit (make_opts args_B) = 2%nat
    ∧ ∃ qualifying ranked,
        qualifying_rows args_B world_B = Some qualifying
        ∧ (dbg_why dbg = None →
             dbg_counts dbg !! "rows_after_filters"
             = Some (count (length qualifying)))
        ∧ ranked_rows (make_opts args_B) qualifying = Some ranked
        ∧ StronglySorted (rank_ge (make_opts args_B)) ranked
        ∧ (if unique_per_token (make_opts args_B)
           then best_of_tokens (make_opts args_B) qualifying ranked
           else ranked ≡ₚ qualifying)
        ∧ with_orders (make_opts args_B) world_B
            (take (row_limit (make_opts args_B)) ranked)
          = Some [paid_row_A "early_strict"; paid_row_A "degen"]
        ∧ StronglySorted (rank_ge (make_opts args_B))
            [paid_row_A "early_strict"; paid_row_A "degen"]
        ∧ (∀ r q, r ∈ [paid_row_A "early_strict"; paid_row_A "degen"] →
             q ∈ drop (row_limit (make_opts args_B)) ranked →
             rank_ge (make_opts args_B) r q)
        ∧ length [paid_row_A "early_strict"; paid_row_A "degen"] =
            Nat.min (row_limit (make_opts args_B))
              (if unique_per_token (make_opts args_B)
               then length (remove_dups (row_token <$> qualifying))
               else length qualifying)
        ∧ (top_n (make_opts args_B) = 5 → length qualifying = 20%nat →
           unique_per_token (make_opts args_B) = false
           ∨ (5 ≤ length (remove_dups (row_token <$> qualifying)))%nat →
           length [paid_row_A "early_strict"; paid_row_A "degen"] = 5%nat).
Proof.
  destruct scan_B as (dbg & H & _ & _ & Hq). exists dbg.
  split; [exact H|]. split; [exact Hq|]. split; [reflexivity|].
  exact (final_rows_ranked args_B world_B _ dbg H).
Defined.

(** With unique_per_token disabled, twenty qualifying rows and top_n=5 leave
    exactly five rows. *)
Lemma twenty_rows_give_five (opts : ScanOptions) (rows : list pydict) :
  unique_per_token opts = false → top_n opts = 5 → length rows = 20%nat →
  length <$> rank_rows opts rows = Some 5%nat.
Proof.
  intros Hu Ht Hl. unfold rank_rows. cbv zeta. rewrite Hu, Ht.
  cbn [mbind option_bind fmap option_fmap option_map]. f_equal.
  rewrite length_take. unfold sort_rows. rewrite sort_desc_length, Hl.
  reflexivity.
Qed.

Lemma cut_candidates_nil opts : cut_candidates opts [] = [].
Proof. unfold cut_candidates. cbn. by rewrite take_nil. Qed.

(** An empty table ends the scan. *)
Lemma empty_table_no_candidates args w :
  collect_candidates (make_opts args) w = Some [] →
  ∃ dbg, run_scan_for_modes args w = Some ([], dbg)
         ∧ dbg_why dbg = Some "no_candidates".
Proof.
  intros H. unfold run_scan_for_modes. cbv zeta. rewrite H.
  cbn [mbind option_bind]. rewrite cut_candidates_nil. by eexists.
Qed.

(** C7.  If every enabled promotion source returns an empty record list
    (boosts: the latest list, and the top list in pump mode), or is disabled,
    then the candidate table is empty and [run_scan_for_modes] returns
    ([], debug), the debug record carrying why = "no_candidates", whatever
    the selected modes. *)
Theorem no_candidates (args : ScanOptions) (w : world) :
  (include_boosts args = true →
     fetch_token_boosts_latest w = []
     ∧ (pump_mode args = true → fetch_token_boosts_top w = [])) →
  (include_ads args = true → fetch_ads_latest w = []) →
  (include_cto args = true → fetch_community_takeovers_latest w = []) →
  collect_candidates (make_opts args) w = Some []
  ∧ ∃ dbg, run_scan_for_modes args w = Some ([], dbg)
           ∧ dbg_why dbg = Some "no_candidates".
Proof.
  intros Hb Ha Hc.
  assert (H : collect_candidates (make_opts args) w = Some []).
  { unfold collect_candidates, boosts_items. cbn [make_opts include_boosts
      include_ads include_cto pump_mode].
    assert (Hb' : (if include_boosts args
                   then fetch_token_boosts_latest w ++
                        (if pump_mode args then fetch_token_boosts_top w else [])
                   else []) = []).
    { destruct (include_boosts args); [|done].
      destruct Hb as [-> Hb]; [done|].
      destruct (pump_mode args); [by rewrite Hb|done]. }
    rewrite Hb'. cbn [add_records foldl mbind option_bind].
    destruct (include_ads args); [rewrite Ha by done|];
      cbn [add_records foldl mbind option_bind];
      (destruct (include_cto args); [by rewrite Hc|done]). }
  split; [done|]. by apply empty_table_no_candidates.
Qed.

Lemma no_candidates_witness :
  collect_candidates (make_opts (scan_args five_modes 20 true)) silent_world
  = Some []
  ∧ ∃ dbg,
      run_scan_for_modes (scan_args five_modes 20 true) silent_world
      = Some ([], dbg)
      ∧ dbg_why dbg = Some "no_candidates".
Proof.
  apply no_candidates.
  - intros _. split; [reflexivity | intros _; reflexivity].
  - intros _. reflexivity.
  - intros _. reflexivity.
Defined.

Lemma trunc_nonpos x : trunc x <= 0 ↔ (x < 1)%R.
Proof.
  unfold trunc. case_decide as H.
  - destruct (base_Int_part x) as [H1 H2]. split; intros Hx.
    + apply IZR_le in Hx. lra.
    + apply le_IZR. assert (IZR (Int_part x) < 1)%R as Hlt by lra.
      apply lt_IZR in Hlt. apply IZR_le. lia.
  - destruct (base_Int_part (- x)) as [H1 H2]. split; intros Hx; [lra|].
    assert (-1 < IZR (Int_part (- x)))%R as Hlt by lra.
    apply lt_IZR in Hlt. lia.
Qed.

Lemma digit_val_nonneg c : is_digit c = true → 0 <= digit_val c.
Proof.
  unfold is_digit, digit_val. intros (H & _)%andb_true_iff.
  apply N.leb_le in H. lia.
Qed.

Lemma digits_tail_nonneg l : ∀ acc n,
  0 <= acc → 0 <= (digits_tail acc n l).1.1.
Proof.
  remember (length l) as k eqn:Hk. revert l Hk.
  induction k as [k IH] using lt_wf_ind. intros l -> acc n Hacc.
  destruct l as [|c l]; [done|]. cbn [digits_tail].
  destruct (is_digit c) eqn:Hc.
  { apply (IH (length l)); [cbn; lia|done|].
    pose proof (digit_val_nonneg c Hc). lia. }
  destruct (Ascii.eqb c "_"); [|done].
  destruct l as [|d l]; [done|].
  destruct (is_digit d) eqn:Hd; [|done].
  apply (IH (length l)); [cbn; lia|done|].
  pose proof (digit_val_nonneg d Hd). lia.
Qed.

Lemma digitpart_nonneg acc l m k rest :
  0 <= acc → digitpart acc l = Some (m, k, rest) → 0 <= m.
Proof.
  intros Hacc. unfold digitpart. destruct l as [|c l]; [done|].
  destruct (is_digit c) eqn:Hc; [|done]. intros [= H].
  pose proof (digits_tail_nonneg l (10 * acc + digit_val c) 1) as Hn.
  rewrite H in Hn. apply Hn. pose proof (digit_val_nonneg c Hc). lia.
Qed.

Lemma parse_number_nonneg l m k rest :
  parse_number l = Some (m, k, rest) → 0 <= m.
Proof.
  unfold parse_number.
  destruct (digitpart 0 l) as [[[m0 k0] rest0]|] eqn:E0.
  - apply digitpart_nonneg in E0; [|done].
    destruct rest0 as [|c rest']; [by intros [= <- _ _]|].
    destruct (Ascii.eqb_spec c "."%char) as [->|Hc].
    + destruct (digitpart m0 rest') as [[[m1 k1] rest1]|] eqn:E1.
      * apply digitpart_nonneg in E1; [|done]. by intros [= <- _ _].
      * by intros [= <- _ _].
    + intros H. assert (m = m0) as -> ; [|done].
      destruct c as [[] [] [] [] [] [] [] []]; by simplify_eq.
  - destruct l as [|c rest']; [done|]. intros H.
    assert (digitpart 0 rest' = Some (m, k, rest)) as H'.
    { destruct c as [[] [] [] [] [] [] [] []]; by simplify_eq. }
    by apply digitpart_nonneg in H'.
Qed.

Lemma decimal_of_string_nonneg s neg m p :
  decimal_of_string s = Some (neg, m, p) → 0 <= m.
Proof.
  unfold decimal_of_string. intros H.
  destruct (float_chars s) as [l|]; [|done]. cbn in H.
  destruct (parse_sign (trim_blanks l)) as [neg' l'].
  destruct (parse_number l') as [[[m' k] rest]|] eqn:E; [|done]. cbn in H.
  destruct (parse_exponent rest); [|done]. cbn in H.
  injection H as <- <- <-. by apply parse_number_nonneg in E.
Qed.

Lemma div_nearest_even_nonneg a b : 0 <= a → 0 < b → 0 <= div_nearest_even a b.
Proof.
  intros Ha Hb. unfold div_nearest_even. cbv zeta.
  pose proof (Z.div_pos a b Ha Hb).
  repeat case_match; lia.
Qed.

Lemma b64_nearest_nonneg n d : 0 < n → 0 < d → 0 <= (b64_nearest n d).1.
Proof.
  intros Hn Hd. unfold b64_nearest. cbv zeta. cbn [fst].
  set (e := Z.max _ _). destruct (Z.leb_spec 0 e).
  - apply div_nearest_even_nonneg; [lia|].
    apply Z.mul_pos_pos; [done|]. apply Z.pow_pos_nonneg; lia.
  - apply div_nearest_even_nonneg; [|lia].
    apply Z.mul_nonneg_nonneg; [lia|]. apply Z.pow_nonneg. lia.
Qed.

(** A text that is zero or less as a number is zero or less as an integer. *)
Lemma int_of_float_text_nonpos s x :
  float_of_string s = Some x → (x <= 0)%R →
  default 0 (int_of_float_text s) <= 0.
Proof.
  unfold float_of_string, int_of_float_text.
  destruct (decimal_of_string s) as [[[neg m] p]|] eqn:E; [|done].
  apply decimal_of_string_nonneg in E. cbn. intros [= <-] Hx.
  destruct (Z.eqb_spec m 0) as [|Hm]; [done|].
  assert (0 < IZR m * powerRZ 10 p)%R as Hpos.
  { apply Rmult_lt_0_compat; [apply IZR_lt; lia|].
    apply powerRZ_lt. lra. }
  destruct neg; [|lra].
  set (b := if 0 <=? p then _ else _).
  assert (0 <= b.1) as Hb.
  { subst b. destruct (Z.leb_spec 0 p); apply b64_nearest_nonneg; lia. }
  destruct b as [sig e]. cbn [fst] in Hb.
  assert (0 <= (if 0 <=? e then sig * 2 ^ e else sig / 2 ^ (- e))) as Hv.
  { destruct (Z.leb_spec 0 e).
    - apply Z.mul_nonneg_nonneg; [done|]. apply Z.pow_nonneg. lia.
    - apply Z.div_pos; [done|]. apply Z.pow_pos_nonneg; lia. }
  set (v := if 0 <=? e then _ else _) in *.
  destruct (2 ^ 1024 <=? v); cbn; lia.
Qed.

Lemma no_timestamp_safe_int v : no_timestamp v → _safe_int v 0 <= 0.
Proof.
  destruct v as [|[]|n|x|s|l|d]; cbn [no_timestamp _safe_int]; try done.
  - by rewrite trunc_nonpos.
  - case_decide as Hs; [done|].
    destruct (float_of_string (strip s)) as [x|] eqn:E.
    + by apply int_of_float_text_nonpos.
    + intros _. unfold float_of_string in E. unfold int_of_float_text.
      by destruct (decimal_of_string (strip s)).
Qed.

Lemma age_minutes_cases now v :
  let ts := _safe_int v 0 in
  let age := _age_minutes_from_pair_created_at now v in
  (0 <= age)%R
  ∧ (0 < ts → age = (IZR (Z.max 0 (now - ts)) / 60000)%R)
  ∧ (ts <= 0 → age = 999999%R).
Proof.
  cbv zeta. unfold _age_minutes_from_pair_created_at. cbv zeta.
  case_decide as Hts.
  - split; [lra|]. split; [lia|done].
  - split; [|split; [done|lia]].
    apply Rmult_le_pos; [|lra]. apply IZR_le. lia.
Qed.

(** C9.  For every pair snapshot, the derived ageMin is non-negative; it
    equals max(0, now_ms − pairCreatedAt_ms) / 60000 when the creation
    timestamp coerces to a positive integer, as a positive integer does to
    itself, and the sentinel 999999 in every other case, which is the case of
    a timestamp that is missing, zero, negative or not numeric. *)
Theorem age_minutes_of_pair (now : Z) (pair m : pydict) :
  compute_metrics_from_pair now pair = Some m →
  let created := get pair "pairCreatedAt" in
  let ts := _safe_int created 0 in
  ∃ age,
    get m "ageMin" = PFloat age
    ∧ (0 <= age)%R
    ∧ (0 < ts → age = (IZR (Z.max 0 (now - ts)) / 60000)%R)
    ∧ (∀ n, created = PInt n → 0 < n →
         age = (IZR (Z.max 0 (now - n)) / 60000)%R)
    ∧ (ts <= 0 → age = 999999%R)
    ∧ (no_timestamp created → age = 999999%R).
Proof.
  intros (_ & _ & _ & Hage & _)%compute_metrics_fields. cbv zeta.
  eexists. split; [exact Hage|].
  destruct (age_minutes_cases now (get pair "pairCreatedAt")) as (H0 & H1 & H2).
  split; [done|]. split; [done|]. split; [|split; [done|]].
  - intros n Hn Hpos. rewrite Hn in H1 |- *. by apply H1.
  - intros Hno. by apply H2, no_timestamp_safe_int.
Qed.

Lemma age_minutes_of_pair_witness :
  ∃ age,
    get (default ∅ (compute_metrics_from_pair now_A pair_A)) "ageMin"
    = PFloat age
    ∧ (0 <= age)%R
    ∧ (0 < _safe_int (get pair_A "pairCreatedAt") 0 →
       age = (IZR (Z.max 0 (now_A - _safe_int (get pair_A "pairCreatedAt") 0))
              / 60000)%R)
    ∧ (∀ n, get pair_A "pairCreatedAt" = PInt n → 0 < n →
         age = (IZR (Z.max 0 (now_A - n)) / 60000)%R)
    ∧ (_safe_int (get pair_A "pairCreatedAt") 0 <= 0 → age = 999999%R)
    ∧ (no_timestamp (get pair_A "pairCreatedAt") → age = 999999%R).
Proof. apply (age_minutes_of_pair now_A pair_A). reflexivity. Defined.

(** C8.  For every row and every scan configuration, a row whose ageMin is at
    most 60 passes the anti-dead prefilter, whatever pump_mode, the liquidity,
    the volume, the transaction counts and the configured thresholds. *)
Theorem anti_dead_keeps_young (row : pydict) (opts : ScanOptions) :
  (_safe_float (get row "ageMin") 999999 <= 60)%R →
  _anti_dead_pass row opts = true.
Proof.
  intros H. unfold _anti_dead_pass. cbv zeta.
  rewrite decide_True; [done|]. destruct (pump_mode opts); lra.
Qed.

Lemma anti_dead_keeps_young_witness :
  _anti_dead_pass scenario_A (scan_args five_modes 20 false) = true.
Proof.
  apply anti_dead_keeps_young.
  change (get scenario_A "ageMin") with (PFloat 30). cbn [_safe_float]. lra.
Defined.

Lemma normalize_accepted v :
  _normalize_chain_id v = Some CHAIN_ID
  ↔ ∃ c, chain_text v = Some c ∧ c ∈ accepted_chains.
Proof.
  unfold _normalize_chain_id, chain_text.
  destruct (py_str _) as [c|]; cbn [mbind option_bind fmap option_fmap option_map].
  - split.
    + intros [= H]. exists (lower (strip c)). split; [done|].
      case_bool_decide as Hc.
      * unfold accepted_chains, chain_aliases in *.
        repeat (apply elem_of_cons in Hc as [->|Hc]; [repeat constructor|]).
        by apply elem_of_nil in Hc.
      * rewrite H. unfold CHAIN_ID. repeat constructor.
    + intros (c' & [= <-] & Hc). f_equal. case_bool_decide as Hc'; [done|].
      unfold accepted_chains, chain_aliases in *.
      repeat (apply elem_of_cons in Hc as [Hc|Hc];
              [try done; exfalso; apply Hc'; rewrite Hc; repeat constructor|]).
      by apply elem_of_nil in Hc.
  - split; [done|]. by intros (c' & [=] & _).
Qed.

Lemma constructor_cases ctor it :
  ctor ∈ constructors →
  match _normalize_chain_id (get it "chainId") with
  | Some chain =>
      if decide (chain = CHAIN_ID) then
        match strip_or_empty (get it "tokenAddress") with
        | Some ta =>
            if decide (ta = "") then ctor it = Some None
            else ∃ c, ctor it = Some (Some c)
                      ∧ get c "chainId" = PStr CHAIN_ID
                      ∧ get c "tokenAddress" = PStr ta
        | None => ctor it = None
        end
      else ctor it = Some None
  | None => ctor it = Some None
  end.
Proof.
  intros Hc. unfold constructors in Hc.
  repeat (apply elem_of_cons in Hc as [->|Hc]); [..|by apply elem_of_nil in Hc].
  all: unfold _candidate_from_boost_item, _candidate_from_ad_item,
         _candidate_from_cto_item.
  all: destruct (_normalize_chain_id _) as [chain|]; [|done].
  all: destruct (decide (chain = CHAIN_ID)) as [->|Hne];
         [rewrite decide_False by (by intros ?) | by rewrite decide_True].
  all: destruct (strip_or_empty _) as [ta|]; [|done].
  all: cbn [mbind option_bind].
  all: case_decide; [done|]. 
  all: eexists; split; [done|]; split; reflexivity.
Qed.

(** C10, amended.  Chain matching accepts aliases: a promotion record whose
    chainId, after trimming and lowercasing, is "sol", "solana-mainnet",
    "mainnet", "sol-mainnet" or "solana" matches the configured chain, and
    the candidate constructors keep it when its token address is not empty
    after trimming and discard it when it is; a record with any other chainId
    is discarded by the constructors. *)
Theorem chain_aliases_accepted ctor (it : pydict) :
  ctor ∈ constructors →
  (chain_accepted it ↔ _normalize_chain_id (get it "chainId") = Some CHAIN_ID)
  ∧ (¬ chain_accepted it → ctor it = Some None)
  ∧ (chain_accepted it →
     ∀ ta, strip_or_empty (get it "tokenAddress") = Some ta →
       if decide (ta = "") then ctor it = Some None
       else ∃ c, ctor it = Some (Some c)
                 ∧ get c "chainId" = PStr CHAIN_ID
                 ∧ get c "tokenAddress" = PStr ta).
Proof.
  intros Hc. pose proof (constructor_cases ctor it Hc) as H.
  unfold chain_accepted. rewrite <- normalize_accepted.
  split; [done|]. split.
  - intros Hn. destruct (_normalize_chain_id _) as [chain|]; [|done].
    case_decide; [by subst|done].
  - intros Hy ta Hta. rewrite Hy, Hta in H. by rewrite decide_True in H.
Qed.

Lemma chain_aliases_accepted_witness :
  (chain_accepted cto_item_A
   ↔ _normalize_chain_id (get cto_item_A "chainId") = Some CHAIN_ID)
  ∧ (¬ chain_accepted cto_item_A →
     _candidate_from_cto_item cto_item_A = Some None)
  ∧ (chain_accepted cto_item_A →
     ∀ ta, strip_or_empty (get cto_item_A "tokenAddress") = Some ta →
       if decide (ta = "") then _candidate_from_cto_item cto_item_A = Some None
       else ∃ c, _candidate_from_cto_item cto_item_A = Some (Some c)
                 ∧ get c "chainId" = PStr CHAIN_ID
                 ∧ get c "tokenAddress" = PStr ta).
Proof.
  apply chain_aliases_accepted.
  apply list_elem_of_further, list_elem_of_further, list_elem_of_here.
Defined.

(** C10 fails as stated: a record of an accepted chain without a token
    address is discarded by the three constructors. *)
Lemma accepted_chain_not_kept :
  chain_text (get item_without_address "chainId") = Some "solana"
  ∧ _candidate_from_boost_item item_without_address = Some None
  ∧ _candidate_from_ad_item item_without_address = Some None
  ∧ _candidate_from_cto_item item_without_address = Some None.
Proof. repeat split; reflexivity. Qed.

(** * Further properties *)

(** ** Strings: characters, trimming and lowercasing *)

Lemma utf8_head_length s cp r :
  utf8_head s = Some (cp, r) → (String.length r < String.length s)%nat.
Proof.
  unfold utf8_head. intros H.
  repeat (case_match; simplify_option_eq; try done); cbn; lia.
Qed.

Lemma lstrip_from_irrel k1 k2 s :
  (String.length s ≤ k1)%nat → (String.length s ≤ k2)%nat →
  lstrip_from k1 s = lstrip_from k2 s.
Proof.
  revert k2 s. induction k1 as [|k1 IH]; intros k2 s H1 H2.
  - destruct s; [|cbn in H1; lia]. by destruct k2.
  - destruct k2 as [|k2]; [destruct s; [done|cbn in H2; lia]|].
    cbn. destruct (utf8_head s) as [[cp r]|] eqn:E; [|done].
    apply utf8_head_length in E. destruct (is_space cp); [|done].
    apply IH; lia.
Qed.

Lemma lstrip_eq s :
  lstrip s =
    match utf8_head s with
    | Some (cp, rest) => if is_space cp then lstrip rest else s
    | None => s
    end.
Proof.
  unfold lstrip at 1. destruct s as [|c s]; [done|].
  cbn [String.length lstrip_from].
  destruct (utf8_head (String c s)) as [[cp r]|] eqn:E; [|done].
  apply utf8_head_length in E. cbn in E. destruct (is_space cp); [|done].
  apply lstrip_from_irrel; lia.
Qed.

Lemma lstrip_ind (P : string → Prop) :
  (∀ s, (∀ cp r, utf8_head s = Some (cp, r) → is_space cp = true → P r) → P s) →
  ∀ s, P s.
Proof.
  intros Hstep s. remember (String.length s) as n eqn:Hn. revert s Hn.
  induction n as [n IH] using lt_wf_ind. intros s ->.
  apply Hstep. intros cp r E _. apply utf8_head_length in E.
  by apply (IH (String.length r)).
Qed.

Lemma lstrip_length s : (String.length (lstrip s) ≤ String.length s)%nat.
Proof.
  induction s as [s IH] using lstrip_ind. rewrite lstrip_eq.
  destruct (utf8_head s) as [[cp r]|] eqn:E; [|done].
  destruct (is_space cp) eqn:Hsp; [|done].
  specialize (IH _ _ eq_refl Hsp). apply utf8_head_length in E. lia.
Qed.

Lemma utf8_head_app p w cp r :
  utf8_head p = Some (cp, r) → utf8_head (p +:+ w) = Some (cp, r +:+ w).
Proof.
  unfold utf8_head. intros H.
  destruct p as [|c [|d [|e [|f p]]]]; cbn [String.app] in *;
    repeat (case_match; simplify_option_eq; try done).
Qed.

Lemma lstrip_blank_app p w : lstrip p = "" → lstrip (p +:+ w) = lstrip w.
Proof.
  induction p as [p IH] using lstrip_ind. rewrite (lstrip_eq p).
  destruct (utf8_head p) as [[cp r]|] eqn:E.
  - destruct (is_space cp) eqn:Hsp.
    + intros Hr. rewrite (lstrip_eq (p +:+ w)), (utf8_head_app _ w _ _ E), Hsp.
      by apply (IH cp).
    + intros ->. done.
  - by intros ->.
Qed.

Lemma lstrip_lstrip s : lstrip (lstrip s) = lstrip s.
Proof.
  induction s as [s IH] using lstrip_ind. rewrite (lstrip_eq s).
  destruct (utf8_head s) as [[cp r]|] eqn:E.
  - destruct (is_space cp) eqn:Hsp; [by apply (IH cp)|].
    by rewrite lstrip_eq, E, Hsp.
  - by rewrite lstrip_eq, E.
Qed.

Lemma rstrip_app s : ∃ w, s = rstrip s +:+ w ∧ lstrip w = "".
Proof.
  induction s as [|c s (w & Hs & Hw)]; [by exists ""|].
  cbn [rstrip]. destruct (String.eqb_spec (lstrip (String c s)) "") as [Hb|_].
  - by exists (String c s).
  - exists w. split; [|done].
    change (String c s = String c (rstrip s +:+ w)). by f_equal.
Qed.

Lemma rstrip_idem s : rstrip (rstrip s) = rstrip s.
Proof.
  induction s as [|c s IH]; [done|]. cbn [rstrip].
  destruct (String.eqb_spec (lstrip (String c s)) "") as [|Hnb]; [done|].
  cbn [rstrip].
  destruct (String.eqb_spec (lstrip (String c (rstrip s))) "") as [Hb|_];
    [|by rewrite IH].
  destruct Hnb. destruct (rstrip_app s) as (w & Hs & Hw).
  rewrite Hs. change (String c (rstrip s +:+ w)) with (String c (rstrip s) +:+ w).
  by rewrite lstrip_blank_app.
Qed.

Lemma lstrip_rstrip t : lstrip t = t → lstrip (rstrip t) = rstrip t.
Proof.
  intros Ht. rewrite (lstrip_eq (rstrip t)).
  destruct (utf8_head (rstrip t)) as [[cp r]|] eqn:E; [|done].
  destruct (is_space cp) eqn:Hsp; [|done]. exfalso.
  destruct (rstrip_app t) as (w & Hs & Hw).
  apply (utf8_head_app _ w) in E. rewrite <- Hs in E.
  rewrite lstrip_eq, E, Hsp in Ht.
  pose proof (lstrip_length (r +:+ w)) as Hl. rewrite Ht in Hl.
  apply utf8_head_length in E. lia.
Qed.

Lemma strip_idem s : strip (strip s) = strip s.
Proof.
  unfold strip.
  rewrite (lstrip_rstrip (lstrip s)) by apply lstrip_lstrip.
  apply rstrip_idem.
Qed.

Lemma N_of_ascii_lower c : N_of_ascii (lower_ascii c) = lower_cp (N_of_ascii c).
Proof. by destruct c as [[] [] [] [] [] [] [] []]. Qed.

Lemma cont_bits_lower c : cont_bits (lower_ascii c) = cont_bits c.
Proof. by destruct c as [[] [] [] [] [] [] [] []]. Qed.

Lemma lower_ascii_idem c : lower_ascii (lower_ascii c) = lower_ascii c.
Proof. by destruct c as [[] [] [] [] [] [] [] []]. Qed.

Lemma lower_cp_high cp : (91 <= cp)%N → lower_cp cp = cp.
Proof.
  intros H. unfold lower_cp.
  destruct (N.leb_spec cp 90); [lia|]. by rewrite andb_false_r.
Qed.

Lemma lower_cp_low cp : (lower_cp cp <? 128)%N = (cp <? 128)%N.
Proof.
  unfold lower_cp.
  destruct (N.leb_spec 65 cp), (N.leb_spec cp 90); cbn [andb]; try done.
  destruct (N.ltb_spec (cp + 32) 128), (N.ltb_spec cp 128); try done; lia.
Qed.

Lemma is_space_spec cp :
  is_space cp = true ↔
  (9 <= cp <= 13 ∨ 28 <= cp <= 32 ∨ cp = 133 ∨ cp = 160 ∨ cp = 5760
   ∨ 8192 <= cp <= 8202 ∨ cp = 8232 ∨ cp = 8233 ∨ cp = 8239 ∨ cp = 8287
   ∨ cp = 12288)%N.
Proof.
  unfold is_space.
  rewrite !orb_true_iff, !andb_true_iff, !N.leb_le, !N.eqb_eq. tauto.
Qed.

Lemma is_space_lower cp : is_space (lower_cp cp) = is_space cp.
Proof.
  unfold lower_cp.
  destruct (N.leb_spec 65 cp), (N.leb_spec cp 90); cbn [andb]; try done.
  transitivity false; [|symmetry].
  all: apply not_true_iff_false; rewrite is_space_spec; lia.
Qed.

Lemma utf8_head_lower s :
  utf8_head (lower s) = (λ '(cp, r), (lower_cp cp, lower r)) <$> utf8_head s.
Proof.
  destruct s as [|c s1]; [done|]. cbn [lower]. unfold utf8_head.
  rewrite N_of_ascii_lower, lower_cp_low.
  destruct (N.ltb_spec (N_of_ascii c) 128) as [|Hc]; [done|].
  rewrite (lower_cp_high (N_of_ascii c)) by lia.
  destruct (N.ltb_spec (N_of_ascii c) 194); [done|].
  destruct (N_of_ascii c <? 224)%N.
  { destruct s1 as [|d s2]; [done|]. cbn [lower]. rewrite cont_bits_lower.
    destruct (cont_bits d) as [x|]; [|done]. cbn.
    by rewrite lower_cp_high by lia. }
  destruct (N_of_ascii c <? 240)%N.
  { destruct s1 as [|d [|e s3]]; [done..|]. cbn [lower].
    rewrite !cont_bits_lower.
    destruct (cont_bits d) as [x|]; [|done].
    destruct (cont_bits e) as [y|]; [|done]. cbn.
    destruct (N.leb_spec 2048 (((N_of_ascii c - 224) * 64 + x) * 64 + y));
      [|done].
    destruct (negb _); [|done]. cbn. by rewrite lower_cp_high by lia. }
  destruct (N_of_ascii c <? 245)%N; [|done].
  destruct s1 as [|d [|e [|f s4]]]; [done..|]. cbn [lower].
  rewrite !cont_bits_lower.
  destruct (cont_bits d) as [x|]; [|done].
  destruct (cont_bits e) as [y|]; [|done].
  destruct (cont_bits f) as [z|]; [|done]. cbn.
  destruct (N.leb_spec 65536
              ((((N_of_ascii c - 240) * 64 + x) * 64 + y) * 64 + z)); [|done].
  destruct (_ <? _)%N; [|done]. cbn. by rewrite lower_cp_high by lia.
Qed.

Lemma lower_idem s : lower (lower s) = lower s.
Proof. induction s as [|c s IH]; [done|]. cbn. by rewrite lower_ascii_idem, IH. Qed.

Lemma lower_empty s : lower s = "" → s = "".
Proof. by destruct s. Qed.

Lemma lower_eqb_empty s : String.eqb (lower s) "" = String.eqb s "".
Proof. by destruct s. Qed.

Lemma lower_lstrip s : lower (lstrip s) = lstrip (lower s).
Proof.
  induction s as [s IH] using lstrip_ind.
  rewrite (lstrip_eq s), (lstrip_eq (lower s)), utf8_head_lower.
  destruct (utf8_head s) as [[cp r]|] eqn:E; [|done]. cbn.
  rewrite is_space_lower. destruct (is_space cp) eqn:Hsp; [|done].
  by apply (IH cp).
Qed.

Lemma lower_rstrip s : lower (rstrip s) = rstrip (lower s).
Proof.
  induction s as [|c s IH]; [done|]. cbn [rstrip lower].
  change (String (lower_ascii c) (lower s)) with (lower (String c s)) at 1.
  rewrite <- lower_lstrip, lower_eqb_empty.
  destruct (String.eqb _ _); [done|]. cbn. by rewrite IH.
Qed.

Lemma lower_strip s : lower (strip s) = strip (lower s).
Proof. unfold strip. by rewrite lower_rstrip, lower_lstrip. Qed.

Lemma lower_strip_idem s : lower (strip (lower (strip s))) = lower (strip s).
Proof. by rewrite <- lower_strip, lower_idem, strip_idem. Qed.

(** X2.  Normalising a chain identifier twice gives what normalising it once
    gives: the result of [_normalize_chain_id] is a fixed point of it. *)
Theorem normalize_chain_id_idempotent (v : pyval) (c : string) :
  _normalize_chain_id v = Some c →
  _normalize_chain_id (PStr c) = Some c.
Proof.
  unfold _normalize_chain_id. intros H.
  destruct (py_str (py_or v (PStr ""))) as [t|]; [|done].
  cbn in H. apply (inj Some) in H.
  case_bool_decide as Hal; subst c; [done|].
  destruct (decide (lower (strip t) = "")) as [->|Hne]; [done|].
  unfold py_or. cbn [truthy].
  destruct (String.eqb_spec (lower (strip t)) ""); [done|].
  cbn. rewrite lower_strip_idem. by rewrite bool_decide_eq_false_2.
Qed.

Lemma normalize_chain_id_idempotent_witness :
  _normalize_chain_id (PStr "  SOL ") = Some "solana"
  ∧ _normalize_chain_id (PStr "solana") = Some "solana".
Proof.
  split; [reflexivity|].
  apply (normalize_chain_id_idempotent (PStr "  SOL ")). reflexivity.
Defined.

(** X7.  The thresholds of a mode do not depend on the case of its name or on
    the white space around it, and every name other than ultra_early,
    early_strict, early and strict has the thresholds of degen. *)
Theorem mode_thresholds_normalised (mode : string) (pump : bool) :
  _mode_thresholds (lower (strip mode)) pump = _mode_thresholds mode pump
  ∧ (lower (strip mode) ∉ named_modes →
     _mode_thresholds mode pump = _mode_thresholds "degen" pump).
Proof.
  split.
  - unfold _mode_thresholds. cbv zeta. by rewrite lower_strip_idem.
  - unfold named_modes. rewrite !not_elem_of_cons. intros (H1 & H2 & H3 & H4 & _).
    unfold _mode_thresholds. cbv zeta.
    rewrite (decide_False (P := lower (strip mode) = _)) by done.
    rewrite (decide_False (P := lower (strip mode) = _)) by done.
    rewrite (decide_False (P := lower (strip mode) = _)) by done.
    rewrite (decide_False (P := lower (strip mode) = _)) by done.
    reflexivity.
Qed.

Ltac thresholds_cases :=
  unfold _mode_thresholds; cbv zeta;
  repeat case_decide;
  cbn [min_liq min_vol5 min_netbuy5 max_age_min min_score];
  rewrite ?(trunc_IZR 0), ?(trunc_IZR 1), ?(trunc_IZR 2), ?(trunc_IZR 3).

(** X8.  The thresholds are more permissive in pump mode: a row that passes
    the gate of a mode with the ordinary thresholds passes it with the
    thresholds of pump mode. *)
Theorem pump_mode_is_permissive (row : pydict) (mode : string) :
  mode_pass row false mode = true → mode_pass row true mode = true.
Proof.
  rewrite !mode_pass_true. cbv zeta.
  thresholds_cases; intros (? & ? & ? & ? & ?); repeat split; try lra; lia.
Qed.

(** X9.  The gates are nested: with the same pump flag, a row that passes
    strict passes degen, a row that passes early_strict passes early, and a
    row that passes early passes degen. *)
Theorem stricter_mode_implies_weaker (row : pydict) (pump : bool)
    (m1 m2 : string) :
  (m1, m2) ∈ stricter_modes →
  mode_pass row pump m1 = true → mode_pass row pump m2 = true.
Proof.
  unfold stricter_modes. intros Hm.
  repeat (apply elem_of_cons in Hm as [[= -> ->]|Hm]);
    [..|by apply elem_of_nil in Hm].
  all: rewrite !mode_pass_true; cbv zeta.
  all: repeat match goal with |- context [_mode_thresholds ?m ?p] =>
         let t := eval hnf in (_mode_thresholds m p) in
         change (_mode_thresholds m p) with t end.
  all: cbn [min_liq min_vol5 min_netbuy5 max_age_min min_score].
  all: destruct pump;
    rewrite ?(trunc_IZR 0), ?(trunc_IZR 1), ?(trunc_IZR 2), ?(trunc_IZR 3).
  all: intros (? & ? & ? & ? & ?); repeat split; try lra; lia.
Qed.

Lemma gate_row_pass :
  mode_pass gate_row false "early_strict" = true.
Proof.
  apply mode_pass_true. cbv zeta.
  change (get gate_row "liquidityUsd") with (PFloat 20000).
  change (get gate_row "vol5m") with (PFloat 300).
  change (get gate_row "netBuy5m") with (PInt 3).
  change (get gate_row "ageMin") with (PFloat 720).
  change (get gate_row "score") with (PFloat 3).
  cbn [_safe_float _safe_int].
  match goal with |- context [_mode_thresholds ?m ?p] =>
    let t := eval hnf in (_mode_thresholds m p) in
    change (_mode_thresholds m p) with t end.
  cbn [min_liq min_vol5 min_netbuy5 max_age_min min_score].
  rewrite (trunc_IZR 2). repeat split; try lra; lia.
Qed.

Lemma pump_mode_is_permissive_witness :
  mode_pass gate_row false "early_strict" = true
  ∧ mode_pass gate_row true "early_strict" = true.
Proof.
  split; [apply gate_row_pass|].
  apply pump_mode_is_permissive, gate_row_pass.
Defined.

Lemma stricter_mode_implies_weaker_witness :
  mode_pass gate_row false "early_strict" = true
  ∧ mode_pass gate_row false "early" = true.
Proof.
  split; [apply gate_row_pass|].
  apply (stricter_mode_implies_weaker gate_row false "early_strict" "early");
    [|apply gate_row_pass].
  unfold stricter_modes. apply list_elem_of_further, list_elem_of_here.
Defined.

Lemma log10_1p_nonneg x : (0 <= log10 (1 + Rmax x 0))%R.
Proof. apply log10_nonneg. pose proof (Rmax_r x 0). lra. Qed.

(** X5.  For a row whose turnover is not negative the spike score is not
    negative, and the score is at least 1.15 times the spike score (so it is
    not negative either). *)
Theorem score_pair_nonneg (row : pydict) (pump : bool) :
  (0 <= _safe_float (get row "turnover_1h_over_liq") 0)%R →
  (0 <= spike_score (score_pair row pump))%R
  ∧ (1.15 * spike_score (score_pair row pump) <= score (score_pair row pump))%R.
Proof.
  intros Ht. rewrite score_pair_eq. cbn [score spike_score].
  unfold spec_score, spec_spike_score.
  set (mom := spec_mom _ _ _).
  pose proof (log10_1p_nonneg (_safe_float (get row "liquidityUsd") 0)) as Hl.
  pose proof (log10_1p_nonneg (_safe_float (get row "vol1h") 0)) as Hv.
  pose proof (log10_1p_nonneg (IZR (_safe_int (get row "netBuy5m") 0))) as Hf.
  pose proof (Rmax_l 0 (mom / 10)) as Hm.
  assert (0 <= Rmin 2.5 (_safe_float (get row "turnover_1h_over_liq") 0 * 12))%R
    by (apply Rmin_glb; lra).
  assert (0 <= Rmin 2 (log10 (1 + Rmax (IZR (_safe_int (get row "netBuy5m") 0)) 0) / 2))%R
    by (apply Rmin_glb; lra).
  split; [lra|]. case_decide; lra.
Qed.

Lemma score_pair_nonneg_witness :
  (0 <= spike_score (score_pair scenario_A true))%R
  ∧ (1.15 * spike_score (score_pair scenario_A true)
     <= score (score_pair scenario_A true))%R.
Proof.
  apply score_pair_nonneg.
  change (get scenario_A "turnover_1h_over_liq") with (PFloat (1500 / 20000)).
  cbn [_safe_float]. lra.
Defined.

(** X6.  Pump mode weighs the 5-minute price change more: for a row whose
    m5pct is not negative, the spike score and the score computed in pump
    mode are at least those computed without it. *)
Theorem pump_mode_raises_scores (row : pydict) :
  (0 <= _safe_float (get row "m5pct") 0)%R →
  (spike_score (score_pair row false) <= spike_score (score_pair row true))%R
  ∧ (score (score_pair row false) <= score (score_pair row true))%R.
Proof.
  intros Hm. rewrite !score_pair_eq. cbn [score spike_score].
  unfold spec_score, spec_spike_score, spec_mom.
  set (m5 := _safe_float (get row "m5pct") 0) in *.
  set (h1 := _safe_float (get row "h1pct") 0).
  assert (Rmax 0 ((m5 * 0.85 + h1 * 0.35) / 10)
          <= Rmax 0 ((m5 * 1.15 + h1 * 0.35) / 10))%R.
  { apply Rmax_lub; [apply Rmax_l|].
    etransitivity; [|apply Rmax_r]. nra. }
  split; lra.
Qed.

Lemma pump_mode_raises_scores_witness :
  (spike_score (score_pair scenario_A false)
   <= spike_score (score_pair scenario_A true))%R
  ∧ (score (score_pair scenario_A false) <= score (score_pair scenario_A true))%R.
Proof.
  apply pump_mode_raises_scores.
  change (get scenario_A "m5pct") with (PFloat 5).
  cbn [_safe_float]. lra.
Defined.

(** X10.  Whatever the options, the anti-dead filter rejects a row older than
    90 minutes when its liquidity is below 1200, when it is older than ten
    days (14400 minutes), or when it had no transaction in the last five
    minutes and less than 40 of volume.  A row without a numeric ageMin
    counts as 999999 minutes old. *)
Theorem anti_dead_rejects_old (row : pydict) (opts : ScanOptions) :
  let liq := _safe_float (get row "liquidityUsd") 0 in
  let vol5 := _safe_float (get row "vol5m") 0 in
  let txns5 :=
    _safe_int (get row "buys5m") 0 + _safe_int (get row "sells5m") 0 in
  let age_min := _safe_float (get row "ageMin") 999999 in
  (90 < age_min)%R →
  (liq < 1200)%R ∨ (14400 < age_min)%R ∨ (txns5 < 1 ∧ (vol5 < 40)%R) →
  _anti_dead_pass row opts = false.
Proof.
  cbv zeta. intros Hage Hcases. unfold _anti_dead_pass. cbv zeta.
  rewrite !py_max_Rmax.
  rewrite decide_False by (destruct (pump_mode opts); lra).
  case_decide as Hliq; [done|].
  destruct (_ && _) eqn:Hact; [done|].
  destruct (decide (_ > 10 * 24 * 60)%R) as [Hold|Hold]; [done|].
  destruct Hcases as [H|[H|[H1 H2]]].
  - exfalso. apply Hliq. eapply Rlt_le_trans; [exact H|apply Rmax_l].
  - lra.
  - rewrite bool_decide_eq_true_2 in Hact by (destruct (pump_mode opts); lia).
    rewrite bool_decide_eq_true_2 in Hact; [done|].
    eapply Rlt_le_trans; [exact H2|apply Rmax_l].
Qed.

Lemma anti_dead_rejects_old_witness :
  _anti_dead_pass ∅ (make_opts args_A) = false.
Proof.
  apply anti_dead_rejects_old.
  - change (get ∅ "ageMin") with PNone. cbn [_safe_float]. lra.
  - left. change (get ∅ "liquidityUsd") with PNone. cbn [_safe_float]. lra.
Defined.

(** X11.  A row with no rejection reason meets every minimum of the trending
    filter: liquidity, one of the two volumes, net buys and spike score; and
    when its m5pct is not positive its spike score is at least 0.55. *)
Theorem trending_pass_meets_minimums (row : pydict) (opts : ScanOptions) :
  _trending_reasons row opts = [] →
  (trending_min_liquidity opts <= _safe_float (get row "liquidityUsd") 0)%R
  ∧ ((trending_min_vol1h opts <= _safe_float (get row "vol1h") 0)%R
     ∨ (trending_min_vol5m opts <= _safe_float (get row "vol5m") 0)%R)
  ∧ trending_min_netbuy5m opts <= _safe_int (get row "netBuy5m") 0
  ∧ (spike_score_min opts <= _safe_float (get row "spike_score") 0)%R
  ∧ ((_safe_float (get row "m5pct") 0 <= 0)%R →
     (0.55 <= _safe_float (get row "spike_score") 0)%R).
Proof.
  unfold _trending_reasons. cbv zeta. rewrite !py_max_Rmax. intros H.
  apply app_eq_nil in H as [H1 H]. apply app_eq_nil in H as [H2 H].
  apply app_eq_nil in H as [H3 H]. apply app_eq_nil in H as [H4 H].
  apply app_eq_nil in H as [_ H6].
  case_decide as E1; [done|]. case_decide as E3; [done|].
  case_decide as E4; [done|].
  split; [lra|]. split.
  - destruct (bool_decide (_ < trending_min_vol1h opts)%R) eqn:Ea; cbn in H2.
    + destruct (bool_decide (_ < trending_min_vol5m opts)%R) eqn:Eb; [done|].
      apply bool_decide_eq_false in Eb. right. lra.
    + apply bool_decide_eq_false in Ea. left. lra.
  - split; [lia|]. split; [lra|]. intros Hm5.
    rewrite bool_decide_eq_true_2 in H6 by done. cbn in H6.
    case_bool_decide as E6; [done|].
    pose proof (Rmax_r (spike_score_min opts) 0.55). lra.
Qed.

Lemma trending_pass_meets_minimums_witness :
  _trending_reasons base_row_A (make_opts args_A) = []
  ∧ (15000 <= _safe_float (get base_row_A "liquidityUsd") 0)%R.
Proof.
  split; [apply trending_A|].
  apply (trending_pass_meets_minimums base_row_A (make_opts args_A) trending_A).
Defined.

Lemma sub_get_ok v k : section_ok v → is_Some (sub_get v k).
Proof.
  unfold section_ok, sub_get. destruct v; try (intros ->; by eexists).
  intros _. destruct (truthy _); by eexists.
Qed.

(** X4.  [compute_metrics_from_pair] returns a record for every pair whose
    nested sections are dictionaries or missing and whose pair address, if
    it has one, is a text, an integer or a truth value (the display texts
    that are modelled): a missing section, or a missing field in it, is read
    as zero and never raises. *)
Theorem compute_metrics_total (now : Z) (pair : pydict) :
  well_shaped_pair pair → is_Some (compute_metrics_from_pair now pair).
Proof.
  intros (Hs & Hm5 & Ha). unfold compute_metrics_from_pair. cbv zeta.
  repeat (apply Forall_cons in Hs as [? Hs]). unfold get2.
  repeat match goal with
         | |- is_Some (mbind _ (fmap _ (sub_get ?v ?k))) =>
             let x := fresh "x" in
             destruct (sub_get_ok v k) as [x ->]; [done|];
             cbn [fmap option_fmap option_map mbind option_bind]
         end.
  assert (Hm : is_Some (sub_get (get pair "txns") "m5")) by by apply sub_get_ok.
  destruct Hm as [m5 Hm]. rewrite Hm. cbn [mbind option_bind].
  assert (H5 : section_ok m5).
  { unfold sub_get in Hm. destruct (truthy (get pair "txns")) eqn:Ht.
    - destruct (get pair "txns") eqn:Hg; try done.
      injection Hm as <-. by eapply Hm5.
    - by injection Hm as <-. }
  repeat match goal with
         | |- is_Some (mbind _ (fmap _ (sub_get ?v ?k))) =>
             let x := fresh "x" in
             destruct (sub_get_ok v k) as [x ->]; [done|];
             cbn [fmap option_fmap option_map mbind option_bind]
         | |- is_Some (mbind _ (sub_get ?v ?k)) =>
             let x := fresh "x" in
             destruct (sub_get_ok v k) as [x ->]; [done|];
             cbn [fmap option_fmap option_map mbind option_bind]
         end.
  destruct (truthy (get pair "pairAddress")) eqn:Hp.
  - destruct (Ha eq_refl) as [a Hfmt]. unfold fmt. rewrite Hfmt.
    cbn [fmap option_fmap option_map mbind option_bind]. by eexists.
  - cbn [mbind option_bind]. by eexists.
Qed.

Lemma well_shaped_pair_A : well_shaped_pair pair_A.
Proof.
  split; [|split].
  - repeat (apply Forall_cons; split; [exact I|]). apply Forall_nil_2.
  - intros txns [= <-]. exact I.
  - intros _. by eexists.
Qed.

Lemma well_shaped_pair_low : well_shaped_pair pair_low.
Proof.
  split; [|split].
  - apply Forall_cons; split; [exact I|].
    repeat (apply Forall_cons; split; [reflexivity|]). apply Forall_nil_2.
  - intros txns H. discriminate H.
  - intros _. by eexists.
Qed.

Lemma compute_metrics_total_witness :
  well_shaped_pair pair_A
  ∧ is_Some (compute_metrics_from_pair now_A pair_A)
  ∧ well_shaped_pair pair_low
  ∧ is_Some (compute_metrics_from_pair now_A pair_low).
Proof.
  split; [apply well_shaped_pair_A|].
  split; [apply compute_metrics_total, well_shaped_pair_A|].
  split; [apply well_shaped_pair_low|].
  apply compute_metrics_total, well_shaped_pair_low.
Defined.

(** X3.  In the metrics of a pair, netBuy5m is buys5m minus sells5m, and the
    turnover is vol1h divided by the liquidity when the liquidity is
    positive and zero otherwise: no division by zero. *)
Theorem metrics_relations (now : Z) (pair m : pydict) :
  compute_metrics_from_pair now pair = Some m →
  ∃ (buys sells : Z) (liq vol1h turnover : R),
    get m "buys5m" = PInt buys
    ∧ get m "sells5m" = PInt sells
    ∧ get m "netBuy5m" = PInt (buys - sells)
    ∧ get m "liquidityUsd" = PFloat liq
    ∧ get m "vol1h" = PFloat vol1h
    ∧ get m "turnover_1h_over_liq" = PFloat turnover
    ∧ ((0 < liq)%R → turnover = (vol1h / liq)%R)
    ∧ ((liq <= 0)%R → turnover = 0%R).
Proof.
  unfold compute_metrics_from_pair. cbv zeta. intros H.
  bind_inv H. apply (inj Some) in H. subst m.
  do 5 eexists. repeat split; try reflexivity.
  - intros Hl. by rewrite decide_True by lra.
  - intros Hl. by rewrite decide_False by lra.
Qed.

Lemma metrics_relations_witness :
  ∃ (buys sells : Z) (liq vol1h turnover : R),
    get metrics_A "buys5m" = PInt buys
    ∧ get metrics_A "sells5m" = PInt sells
    ∧ get metrics_A "netBuy5m" = PInt (buys - sells)
    ∧ get metrics_A "liquidityUsd" = PFloat liq
    ∧ get metrics_A "vol1h" = PFloat vol1h
    ∧ get metrics_A "turnover_1h_over_liq" = PFloat turnover
    ∧ ((0 < liq)%R → turnover = (vol1h / liq)%R)
    ∧ ((liq <= 0)%R → turnover = 0%R).
Proof. apply (metrics_relations now_A pair_A). reflexivity. Defined.

Lemma lookup_fill_once_ne src out k k' :
  k ≠ k' → fill_once src out k !! k' = out !! k'.
Proof.
  intros Hk. unfold fill_once.
  destruct (negb _ && _); [by apply lookup_insert_ne | done].
Qed.

Lemma lookup_fill_once_eq src out k :
  fill_once src out k !! k =
    if negb (truthy (get out k)) && truthy (get src k)
    then Some (get src k) else out !! k.
Proof.
  unfold fill_once. destruct (negb _ && _); [by apply lookup_insert_eq | done].
Qed.

Lemma lookup_fill_all_ne src (ks : list string) k : ∀ out,
  k ∉ ks → foldl (fill_once src) out ks !! k = out !! k.
Proof.
  induction ks as [|k' ks IH]; intros out Hk; [done|].
  apply not_elem_of_cons in Hk as [? Hk].
  cbn [foldl]. rewrite IH by done. by apply lookup_fill_once_ne.
Qed.

Lemma lookup_fill_all_eq src (ks : list string) k : ∀ out,
  NoDup ks → k ∈ ks →
  foldl (fill_once src) out ks !! k =
    if negb (truthy (get out k)) && truthy (get src k)
    then Some (get src k) else out !! k.
Proof.
  induction ks as [|k' ks IH]; intros out Hnd Hk; [by apply elem_of_nil in Hk|].
  apply NoDup_cons in Hnd as [Hk' Hnd]. cbn [foldl].
  destruct (decide (k = k')) as [->|Hne].
  - rewrite lookup_fill_all_ne by done. apply lookup_fill_once_eq.
  - apply elem_of_cons in Hk as [?|Hk]; [done|].
    rewrite IH by done. rewrite get_fill_once by done.
    by rewrite lookup_fill_once_ne by done.
Qed.

Lemma profile_keys_NoDup : NoDup profile_keys.
Proof. unfold profile_keys. repeat (constructor; [not_member|]). constructor. Qed.

Lemma get_lookup (d : pydict) k v : d !! k = Some v → get d k = v.
Proof. unfold get. by intros ->. Qed.

(** Every entry of the result of a merge into a non-empty record. *)
Lemma merge_lookup (dst src out : pydict) :
  dst ≠ ∅ → _merge_candidate dst src = Some out →
  ∃ s1 s2 s,
    source_list (get dst "sources") = Some s1
    ∧ source_list (get src "sources") = Some s2
    ∧ append_sources s1 (get src "source" :: (PStr <$> s2)) = Some s
    ∧ ∀ k, out !! k = merged_value dst src s k.
Proof.
  intros Hne Hm. unfold _merge_candidate in Hm.
  rewrite decide_False in Hm by done.
  unfold merge_sources in Hm.
  destruct (source_list (get dst "sources")) as [s1|]; [|done].
  destruct (source_list (get src "sources")) as [s2|]; [|done].
  cbn [mbind option_bind] in Hm.
  destruct (append_sources s1 _) as [s|] eqn:H3; [|done].
  cbn [mbind option_bind] in Hm. cbv zeta in Hm. apply (inj Some) in Hm.
  subst out. exists s1, s2, s. repeat split; try done.
  set (o1 := <["sources" := PList (PStr <$> s)]> dst).
  assert (Hg : ∀ k, k ≠ "sources" → get o1 k = get dst k)
    by (intros; by apply get_insert_ne).
  assert (Hl : ∀ k, k ≠ "sources" → o1 !! k = dst !! k)
    by (intros; by apply lookup_insert_ne).
  intros k. unfold merged_value.
  destruct (bool_decide (k ∈ profile_keys)) eqn:Hp.
  - apply bool_decide_eq_true in Hp.
    assert (Hk : k ∉ ["sources"; "source"; "boostAmount"; "boostTotal";
                      "boostType"; "isCTO"]).
    { unfold profile_keys in Hp.
      repeat (apply elem_of_cons in Hp as [->|Hp]); [..|by apply elem_of_nil in Hp];
        not_member. }
    rewrite !not_elem_of_cons in Hk.
    destruct Hk as (? & ? & ? & ? & ? & ? & _).
    rewrite !decide_False by done.
    unfold merge_profile. rewrite lookup_fill_all_eq
      by (done || apply profile_keys_NoDup).
    rewrite get_merge_cto_ne by done. rewrite get_merge_boosts_ne by not_member.
    rewrite get_merge_primary_ne, Hg by done.
    destruct (negb _ && _); [done|].
    unfold merge_cto. rewrite lookup_insert_ne by done.
    unfold merge_boosts, merge_max. rewrite !lookup_insert_ne by done.
    unfold merge_primary. cbv zeta.
    case_decide; [rewrite lookup_insert_ne by done|]; by apply Hl.
  - apply bool_decide_eq_false in Hp.
    unfold merge_profile. rewrite lookup_fill_all_ne by done.
    destruct (decide (k = "sources")) as [->|?].
    { unfold merge_cto. rewrite lookup_insert_ne by done.
      unfold merge_boosts, merge_max. rewrite !lookup_insert_ne by done.
      unfold merge_primary. cbv zeta.
      case_decide; [rewrite lookup_insert_ne by done|];
        by apply lookup_insert_eq. }
    destruct (decide (k = "source")) as [->|?].
    { unfold merge_cto. rewrite lookup_insert_ne by done.
      unfold merge_boosts, merge_max. rewrite !lookup_insert_ne by done.
      unfold merge_primary. cbv zeta. rewrite !Hg by done.
      case_decide; [by rewrite lookup_insert_eq | by apply Hl]. }
    destruct (decide (k = "boostAmount")) as [->|?].
    { unfold merge_cto. rewrite lookup_insert_ne by done.
      unfold merge_boosts. rewrite lookup_insert_ne by done.
      unfold merge_max at 1. rewrite lookup_insert_ne by done.
      unfold merge_max at 1. rewrite lookup_insert_eq.
      by rewrite get_merge_primary_ne, Hg by done. }
    destruct (decide (k = "boostTotal")) as [->|?].
    { unfold merge_cto. rewrite lookup_insert_ne by done.
      unfold merge_boosts. rewrite lookup_insert_ne by done.
      unfold merge_max at 1. rewrite lookup_insert_eq.
      by rewrite get_merge_max_ne, get_merge_primary_ne, Hg by done. }
    destruct (decide (k = "boostType")) as [->|?].
    { unfold merge_cto. rewrite lookup_insert_ne by done.
      unfold merge_boosts. rewrite lookup_insert_eq.
      by rewrite !get_merge_max_ne, !get_merge_primary_ne, !Hg by done. }
    destruct (decide (k = "isCTO")) as [->|?].
    { unfold merge_cto. rewrite lookup_insert_eq.
      rewrite get_merge_boosts_ne by not_member.
      by rewrite get_merge_primary_ne, Hg by done. }
    unfold merge_cto. rewrite lookup_insert_ne by done.
    unfold merge_boosts, merge_max. rewrite !lookup_insert_ne by done.
    unfold merge_primary. cbv zeta.
    case_decide; [rewrite lookup_insert_ne by done|]; by apply Hl.
Qed.

Lemma append_sources_spec (new : list pyval) : ∀ s1 s,
  append_sources s1 new = Some s →
  s1 `prefix_of` s
  ∧ (NoDup s1 → NoDup s)
  ∧ (∀ v, v ∈ new → truthy v = true → ∃ t, v = PStr t ∧ t ∈ s)
  ∧ (∀ t, t ∈ s → t ∈ s1 ∨ (t ≠ "" ∧ PStr t ∈ new)).
Proof.
  induction new as [|v new IH]; intros s1 s H; cbn [append_sources] in H.
  - injection H as <-. split; [done|]. split; [done|]. split.
    + intros v Hv. by apply elem_of_nil in Hv.
    + intros t Ht. by left.
  - destruct (truthy v) eqn:Hv.
    + destruct v as [| | | |t| |]; try done.
      apply IH in H as (Hpre & Hnd & Hin & Hout).
      assert (Ht : t ≠ "").
      { cbn in Hv. intros ->. done. }
      case_bool_decide as Hmem.
      * split; [done|]. split; [done|]. split.
        -- intros v [->|Hv']%elem_of_cons Htr; [|by apply Hin].
           exists t. split; [done|]. by eapply elem_of_prefix.
        -- intros t' Ht'. destruct (Hout t' Ht') as [?|[? ?]]; [by left|].
           right. split; [done|]. by apply list_elem_of_further.
      * split; [by eapply prefix_app_l|]. split.
        -- intros Hs1. apply Hnd, NoDup_app. split; [done|]. split.
           ++ intros x Hx Hx'. apply list_elem_of_singleton in Hx' as ->. done.
           ++ apply NoDup_singleton.
        -- split.
           ++ intros v [->|Hv']%elem_of_cons Htr; [|by apply Hin].
              exists t. split; [done|]. eapply elem_of_prefix; [|exact Hpre].
              apply elem_of_app. right. apply list_elem_of_here.
           ++ intros t' Ht'. destruct (Hout t' Ht') as [Hin'|[? ?]].
              ** apply elem_of_app in Hin' as [?|Hin']; [by left|].
                 apply list_elem_of_singleton in Hin' as ->.
                 right. split; [done|]. apply list_elem_of_here.
              ** right. split; [done|]. by apply list_elem_of_further.
    + apply IH in H as (Hpre & Hnd & Hin & Hout).
      split; [done|]. split; [done|]. split.
      * intros v' [->|Hv']%elem_of_cons Htr; [congruence|by apply Hin].
      * intros t' Ht'. destruct (Hout t' Ht') as [?|[? ?]]; [by left|].
        right. split; [done|]. by apply list_elem_of_further.
Qed.

Lemma append_sources_fixed (new : list pyval) (s : list string) :
  (∀ v, v ∈ new → truthy v = true → ∃ t, v = PStr t ∧ t ∈ s) →
  append_sources s new = Some s.
Proof.
  induction new as [|v new IH]; intros H; [done|]. cbn [append_sources].
  destruct (truthy v) eqn:Hv.
  - destruct (H v) as (t & -> & Ht); [apply list_elem_of_here|done|].
    rewrite bool_decide_eq_true_2 by done.
    apply IH. intros v' Hv'. apply H. by apply list_elem_of_further.
  - apply IH. intros v' Hv'. apply H. by apply list_elem_of_further.
Qed.

(** X12.  A merge into a non-empty entry only appends to the list of sources:
    the sources of the entry stay in front in their order, no duplicate is
    introduced, and the merged list holds exactly the old sources together
    with the non-empty source names of the merged record. *)
Theorem merge_extends_sources (dst src out : pydict) :
  dst ≠ ∅ → _merge_candidate dst src = Some out →
  ∃ s1 s2 s,
    source_list (get dst "sources") = Some s1
    ∧ source_list (get src "sources") = Some s2
    ∧ get out "sources" = PList (PStr <$> s)
    ∧ s1 `prefix_of` s
    ∧ (NoDup s1 → NoDup s)
    ∧ ∀ t, t ∈ s ↔
        t ∈ s1 ∨ (t ≠ "" ∧ (get src "source" = PStr t ∨ t ∈ s2)).
Proof.
  intros Hne Hm.
  destruct (merge_lookup _ _ _ Hne Hm) as (s1 & s2 & s & H1 & H2 & H3 & Hk).
  exists s1, s2, s. split; [done|]. split; [done|]. split.
  { apply get_lookup. by rewrite Hk. }
  apply append_sources_spec in H3 as (Hpre & Hnd & Hin & Hout).
  split; [done|]. split; [done|]. intros t. split.
  - intros Ht. destruct (Hout t Ht) as [?|[? Hnew]]; [by left|].
    right. split; [done|].
    apply elem_of_cons in Hnew as [<-|Hnew]; [by left|].
    apply list_elem_of_fmap in Hnew as (t' & [= ->] & ?). by right.
  - intros [Ht|[Ht Hsrc]]; [by eapply elem_of_prefix|].
    destruct (Hin (PStr t)) as (t' & [= <-] & ?); [| |done].
    + destruct Hsrc as [->|?]; [apply list_elem_of_here|].
      apply list_elem_of_further, list_elem_of_fmap. by exists t.
    + cbn. by destruct (String.eqb_spec t "").
Qed.

Lemma candidate_A_nonempty : candidate_A ≠ ∅.
Proof.
  apply (constructor_wf _candidate_from_boost_item boost_item_50);
    [apply list_elem_of_here | reflexivity].
Qed.

Lemma merged_A_eq : _merge_candidate candidate_A candidate_ad_A = Some merged_A.
Proof. reflexivity. Qed.

Lemma merge_extends_sources_witness :
  ∃ s1 s2 s,
    source_list (get candidate_A "sources") = Some s1
    ∧ source_list (get candidate_ad_A "sources") = Some s2
    ∧ get merged_A "sources" = PList (PStr <$> s)
    ∧ s1 `prefix_of` s
    ∧ (NoDup s1 → NoDup s)
    ∧ ∀ t, t ∈ s ↔
        t ∈ s1 ∨ (t ≠ "" ∧ (get candidate_ad_A "source" = PStr t ∨ t ∈ s2)).
Proof.
  apply merge_extends_sources; [apply candidate_A_nonempty | apply merged_A_eq].
Defined.

(** X13.  A merge into a non-empty entry changes nothing outside the keys it
    assigns: every other field of the entry (its token address and chain
    among them) is kept as it is, and the other fields of the merged record
    are not copied. *)
Theorem merge_keeps_other_fields (dst src out : pydict) (k : string) :
  dst ≠ ∅ → _merge_candidate dst src = Some out →
  k ∉ merged_keys → out !! k = dst !! k.
Proof.
  intros Hne Hm Hk.
  destruct (merge_lookup _ _ _ Hne Hm) as (s1 & s2 & s & _ & _ & _ & ->).
  unfold merged_keys in Hk. apply not_elem_of_app in Hk as [Hk Hp].
  rewrite !not_elem_of_cons in Hk. destruct Hk as (? & ? & ? & ? & ? & ? & _).
  unfold merged_value. rewrite !decide_False by done.
  by rewrite bool_decide_eq_false_2.
Qed.

Lemma merge_keeps_other_fields_witness :
  merged_A !! "tokenAddress" = candidate_A !! "tokenAddress"
  ∧ merged_A !! "adType" = None.
Proof.
  split.
  - apply (merge_keeps_other_fields candidate_A candidate_ad_A);
      [apply candidate_A_nonempty | apply merged_A_eq |].
    unfold merged_keys, profile_keys. cbn [app]. not_member.
  - reflexivity.
Defined.



Lemma merged_value_fixed (dst src : pydict) (s : list string) (o : pydict) :
  (∀ k, o !! k = merged_value dst src s k) →
  ∀ k, merged_value o src s k = o !! k.
Proof.
  intros Ho k. unfold merged_value at 1.
  destruct (decide (k = "sources")) as [->|?].
  { by rewrite Ho. }
  destruct (decide (k = "source")) as [->|?].
  { rewrite decide_False; [done|].
    assert (Hs : get o "source" =
      if decide (table_get priority (get src "source")
                 > table_get priority (get dst "source"))
      then get src "source" else get dst "source").
    { unfold get at 1. rewrite Ho.
      change (merged_value dst src s "source") with
        (if decide (table_get priority (get src "source")
                    > table_get priority (get dst "source"))
         then Some (get src "source") else dst !! "source").
      by case_decide. }
    rewrite Hs. case_decide; lia. }
  destruct (decide (k = "boostAmount")) as [->|?].
  { rewrite Ho.
    rewrite (get_lookup o "boostAmount" _ (Ho _)). cbn [_safe_float].
    rewrite !py_max_Rmax.
    change (merged_value dst src s "boostAmount") with
      (Some (PFloat (py_max (_safe_float (get dst "boostAmount") 0)
                            (_safe_float (get src "boostAmount") 0)))).
    rewrite py_max_Rmax. do 2 f_equal. apply Rmax_left, Rmax_r. }
  destruct (decide (k = "boostTotal")) as [->|?].
  { rewrite Ho.
    rewrite (get_lookup o "boostTotal" _ (Ho _)). cbn [_safe_float].
    rewrite !py_max_Rmax.
    change (merged_value dst src s "boostTotal") with
      (Some (PFloat (py_max (_safe_float (get dst "boostTotal") 0)
                            (_safe_float (get src "boostTotal") 0)))).
    rewrite py_max_Rmax. do 2 f_equal. apply Rmax_left, Rmax_r. }
  destruct (decide (k = "boostType")) as [->|?].
  { rewrite Ho. rewrite (get_lookup o "boostType" _ (Ho _)).
    change (merged_value dst src s "boostType") with
      (Some (py_or (get dst "boostType") (get src "boostType"))).
    f_equal. unfold py_or. destruct (truthy (get dst "boostType")) eqn:E1.
    - by rewrite E1.
    - by destruct (truthy (get src "boostType")). }
  destruct (decide (k = "isCTO")) as [->|?].
  { rewrite Ho. rewrite (get_lookup o "isCTO" _ (Ho _)).
    change (merged_value dst src s "isCTO") with
      (Some (PBool (truthy (get dst "isCTO") || truthy (get src "isCTO")))).
    cbn [truthy].
    by destruct (truthy (get dst "isCTO")), (truthy (get src "isCTO")). }
  case_bool_decide as Hp; [|done].
  assert (Hv : o !! k =
    if negb (truthy (get dst k)) && truthy (get src k)
    then Some (get src k) else dst !! k).
  { rewrite Ho. unfold merged_value.
    rewrite !decide_False by done. by rewrite bool_decide_eq_true_2. }
  unfold get at 1. rewrite Hv.
  destruct (truthy (get dst k)) eqn:E1; cbn [negb andb].
  - fold (get dst k). by rewrite E1.
  - destruct (truthy (get src k)) eqn:E2.
    + cbn [default from_option]. by destruct (negb (truthy _) && true).
    + fold (get dst k). by rewrite E1.
Qed.

(** X15.  Merging the same record a second time changes nothing at all:
    when the merge of [src] into a non-empty entry gives [out], the merge of
    [src] into [out] succeeds and gives [out] again. *)
Theorem merge_idempotent (dst src out : pydict) :
  dst ≠ ∅ → _merge_candidate dst src = Some out →
  _merge_candidate out src = Some out.
Proof.
  intros Hne Hm.
  destruct (merge_lookup _ _ _ Hne Hm) as (s1 & s2 & s & H1 & H2 & H3 & Hk).
  assert (Hne' : out ≠ ∅).
  { intros ->. specialize (Hk "sources"). by rewrite lookup_empty in Hk. }
  assert (Hs : get out "sources" = PList (PStr <$> s)).
  { apply get_lookup. by rewrite Hk. }
  assert (H3' : append_sources s (get src "source" :: (PStr <$> s2)) = Some s).
  { apply append_sources_fixed. by apply append_sources_spec in H3 as (_ & _ & ? & _). }
  assert (Hex : is_Some (_merge_candidate out src)).
  { unfold _merge_candidate. rewrite decide_False by done.
    unfold merge_sources. rewrite Hs, source_list_strs, H2.
    cbn [mbind option_bind]. rewrite H3'. by eexists. }
  destruct Hex as [out' Hm']. rewrite Hm'. f_equal.
  destruct (merge_lookup _ _ _ Hne' Hm') as (t1 & t2 & t & G1 & G2 & G3 & Gk).
  rewrite Hs, source_list_strs in G1. injection G1 as <-.
  rewrite H2 in G2. injection G2 as <-. rewrite H3' in G3. injection G3 as <-.
  apply map_eq. intros k. rewrite Gk. by eapply merged_value_fixed.
Qed.

Lemma merge_idempotent_witness :
  _merge_candidate merged_A candidate_ad_A = Some merged_A.
Proof.
  apply (merge_idempotent candidate_A);
    [apply candidate_A_nonempty | apply merged_A_eq].
Defined.

(** ** The table of candidates *)

Lemma tbl_store_keys (t : table) k v :
  (tbl_store t k v).*1 = if decide (k ∈ t.*1) then t.*1 else t.*1 ++ [k].
Proof.
  induction t as [|[k' v'] t IH]; cbn [tbl_store fmap list_fmap fst app].
  - rewrite decide_False; [done|apply not_elem_of_nil].
  - destruct (decide (k' = k)) as [->|Hne]; cbn [fmap list_fmap fst].
    + rewrite decide_True; [done|apply list_elem_of_here].
    + rewrite IH. destruct (decide (k ∈ t.*1)) as [Hin|Hin].
      * rewrite decide_True; [done|by apply list_elem_of_further].
      * rewrite decide_False; [done|].
        apply not_elem_of_cons. split; [done|done].
Qed.

Lemma tbl_store_Forall (P : string * pydict → Prop) (t : table) k v :
  Forall P t → P (k, v) → Forall P (tbl_store t k v).
Proof.
  intros Ht Hp. induction Ht as [|[k' v'] t Hx Ht IH]; cbn [tbl_store].
  - by constructor.
  - case_decide; constructor; auto.
Qed.

Lemma tbl_store_NoDup (t : table) k v :
  NoDup (t.*1) → NoDup ((tbl_store t k v).*1).
Proof.
  intros Hnd. rewrite tbl_store_keys. case_decide; [done|].
  apply NoDup_app. split; [done|]. split; [|apply NoDup_singleton].
  intros x Hx Hx'. apply list_elem_of_singleton in Hx' as ->. done.
Qed.

Lemma tbl_lookup_Some (t : table) k v :
  tbl_lookup t k = Some v → (k, v) ∈ t.
Proof.
  induction t as [|[k' v'] t IH]; cbn [tbl_lookup]; [done|].
  case_decide as Hk.
  - intros [= ->]. subst. apply list_elem_of_here.
  - intros H. by apply list_elem_of_further, IH.
Qed.

Lemma constructor_identity ctor it c :
  ctor ∈ constructors → ctor it = Some (Some c) →
  ∃ ta, c !! "tokenAddress" = Some (PStr ta) ∧ ta ≠ "" ∧ strip ta = ta
        ∧ c !! "chainId" = Some (PStr CHAIN_ID).
Proof.
  intros Hc. unfold constructors in Hc.
  repeat (apply elem_of_cons in Hc as [->|Hc]); [..|by apply elem_of_nil in Hc].
  all: unfold _candidate_from_boost_item, _candidate_from_ad_item,
         _candidate_from_cto_item.
  all: destruct (_normalize_chain_id _) as [chain|]; [|done].
  all: destruct (decide (chain = CHAIN_ID)) as [->|Hne];
         [rewrite decide_False by (by intros ?) | by rewrite decide_True].
  all: destruct (strip_or_empty _) as [ta|] eqn:Hta; [|done].
  all: cbn [mbind option_bind].
  all: case_decide as Hne; [done|].
  all: intros H; apply (inj Some) in H; apply (inj Some) in H; subst c.
  all: exists ta; split; [reflexivity|]; split; [done|]; split; [|reflexivity].
  all: unfold strip_or_empty in Hta; destruct (truthy _); [|by injection Hta as <-].
  all: destruct (get it "tokenAddress"); try done.
  all: injection Hta as <-; apply strip_idem.
Qed.

Lemma merge_keeps_identity (dst src out : pydict) ta :
  dst !! "tokenAddress" = Some (PStr ta) →
  dst !! "chainId" = Some (PStr CHAIN_ID) →
  _merge_candidate dst src = Some out →
  out !! "tokenAddress" = Some (PStr ta)
  ∧ out !! "chainId" = Some (PStr CHAIN_ID).
Proof.
  intros Ht Hc Hm.
  assert (Hne : dst ≠ ∅) by (intros ->; by rewrite lookup_empty in Ht).
  destruct (merge_lookup _ _ _ Hne Hm) as (s1 & s2 & s & _ & _ & _ & Hl).
  by rewrite !Hl.
Qed.

Lemma add_record_ok ctor (tbl tbl' : table) it :
  ctor ∈ constructors → table_ok tbl →
  add_record ctor (Some tbl) it = Some tbl' → table_ok tbl'.
Proof.
  intros Hc [Hnd Hall] H. unfold add_record in H. cbn [mbind option_bind] in H.
  destruct (ctor it) as [[c|]|] eqn:Hit; cbn [mbind option_bind] in H;
    [|by injection H as <-|done].
  case_decide; [by injection H as <-|].
  destruct (constructor_identity _ _ _ Hc Hit) as (ta & Hta & Hne & Hst & Hch).
  unfold token_key in H. rewrite Hta in H. cbn [mbind option_bind] in H.
  destruct (_merge_candidate _ c) as [m|] eqn:Hm; [|done].
  cbn [mbind option_bind] in H. injection H as <-.
  split; [by apply tbl_store_NoDup|]. apply tbl_store_Forall; [done|].
  destruct (tbl_lookup tbl (lower ta)) as [d|] eqn:Hd; cbn [default from_option] in Hm.
  - apply tbl_lookup_Some in Hd.
    rewrite Forall_forall in Hall. destruct (Hall _ Hd) as (ta' & ? & ? & ? & Hk & ?).
    cbn [fst snd] in *.
    destruct (merge_keeps_identity d c m ta') as [? ?]; [done..|].
    exists ta'. by repeat split.
  - unfold _merge_candidate in Hm. rewrite decide_True in Hm by done.
    injection Hm as <-. exists ta. by repeat split.
Qed.

Lemma add_records_ok ctor items : ∀ (tbl tbl' : table),
  ctor ∈ constructors → table_ok tbl →
  add_records ctor items tbl = Some tbl' → table_ok tbl'.
Proof.
  unfold add_records.
  induction items as [|it items IH]; intros tbl tbl' Hc Hok H; cbn [foldl] in H.
  - by injection H as <-.
  - destruct (add_record ctor (Some tbl) it) as [t1|] eqn:H1.
    + eapply IH; [done| |exact H]. by eapply add_record_ok.
    + exfalso. clear -H. induction items as [|? ? IH]; [done|]. by apply IH.
Qed.

Lemma collect_table_ok opts w tbl :
  collect_candidates opts w = Some tbl → table_ok tbl.
Proof.
  unfold collect_candidates. intros H.
  destruct (add_records _candidate_from_boost_item _ _) as [t1|] eqn:H1; [|done].
  cbn [mbind option_bind] in H.
  assert (Hok1 : table_ok t1).
  { eapply add_records_ok; [| |exact H1].
    - apply list_elem_of_here.
    - split; [constructor|constructor]. }
  assert (Hads : ∃ t2, (if include_ads opts
                        then add_records _candidate_from_ad_item
                               (fetch_ads_latest w) t1
                        else Some t1) = Some t2 ∧ table_ok t2).
  { destruct (include_ads opts).
    - destruct (add_records _candidate_from_ad_item _ _) as [t2|] eqn:H2; [|done].
      exists t2. split; [done|]. eapply add_records_ok; [| |exact H2]; [|done].
      apply list_elem_of_further, list_elem_of_here.
    - by exists t1. }
  destruct Hads as (t2 & E2 & Hok2). rewrite E2 in H.
  cbn [mbind option_bind] in H.
  destruct (include_cto opts); [|by injection H as <-].
  eapply add_records_ok; [| |exact H]; [|done].
  apply list_elem_of_further, list_elem_of_further, list_elem_of_here.
Qed.

(** X16.  The table of candidates holds one entry per token: its keys are
    pairwise distinct, and every key is the lowercased token address of its
    entry, an address that is trimmed and not empty, on the chain solana. *)
Theorem candidates_one_entry_per_token (opts : ScanOptions) (w : world)
    (tbl : table) :
  collect_candidates opts w = Some tbl →
  NoDup (tbl.*1)
  ∧ ∀ k c, (k, c) ∈ tbl →
      ∃ ta, get c "tokenAddress" = PStr ta ∧ ta ≠ "" ∧ strip ta = ta
            ∧ k = lower ta ∧ get c "chainId" = PStr "solana".
Proof.
  intros [Hnd Hall]%collect_table_ok. split; [done|]. intros k c Hin.
  rewrite Forall_forall in Hall.
  destruct (Hall _ Hin) as (ta & Hta & ? & ? & ? & Hch). cbn [fst snd] in *.
  exists ta. repeat split; try done; by apply get_lookup.
Qed.

Lemma candidates_one_entry_per_token_witness :
  NoDup (table_A.*1)
  ∧ ∀ k c, (k, c) ∈ table_A →
      ∃ ta, get c "tokenAddress" = PStr ta ∧ ta ≠ "" ∧ strip ta = ta
            ∧ k = lower ta ∧ get c "chainId" = PStr "solana".
Proof.
  apply (candidates_one_entry_per_token (make_opts args_A) world_A).
  reflexivity.
Defined.

Lemma ZR_gt_ge a b : ZR_gt a b = true → ZR_ge a b.
Proof.
  unfold ZR_gt, ZR_ge. destruct a as [a1 a2], b as [b1 b2]. cbn [fst snd].
  intros [H|[H1 H2]%andb_true_iff]%orb_true_iff.
  - apply bool_decide_eq_true in H. by left.
  - apply bool_decide_eq_true in H1, H2. right. split; [done|lra].
Qed.

Lemma ZR_not_gt_ge a b : ZR_gt a b = false → ZR_ge b a.
Proof.
  unfold ZR_gt, ZR_ge. destruct a as [a1 a2], b as [b1 b2]. cbn [fst snd].
  intros [H1 H2]%orb_false_iff. apply bool_decide_eq_false in H1.
  destruct (decide (a1 = b1)) as [->|Hne]; [|left; lia].
  rewrite bool_decide_eq_true_2 in H2 by done. cbn in H2.
  apply bool_decide_eq_false in H2. right. split; [done|lra].
Qed.

Lemma ZR_ge_trans a b c : ZR_ge a b → ZR_ge b c → ZR_ge a c.
Proof.
  unfold ZR_ge. destruct a as [a1 a2], b as [b1 b2], c as [c1 c2].
  cbn [fst snd]. intros [H1|[-> H1]] [H2|[<- H2]].
  - left. lia.
  - by left.
  - by left.
  - right. split; [done|lra].
Qed.

(** X17.  The candidates kept for the scan are entries of the table, at most
    max(1, candidates_max) of them (all of them when the table is smaller),
    in descending order of (source priority, boostAmount): boosted
    candidates before advertised ones before community takeovers. *)
Theorem cut_candidates_spec (opts : ScanOptions) (t : table) :
  let kept := cut_candidates opts t in
  length kept = Nat.min (Z.to_nat (Z.max 1 (candidates_max opts))) (length t)
  ∧ StronglySorted cand_ge kept
  ∧ kept ⊆+ t.*2.
Proof.
  cbv zeta. unfold cut_candidates. split; [|split].
  - rewrite length_take, sort_desc_length, length_fmap. done.
  - apply take_sorted. apply sort_desc_sorted.
    + intros x y. apply ZR_gt_ge.
    + intros x y. apply ZR_not_gt_ge.
    + intros x y z. apply ZR_ge_trans.
  - etransitivity; [apply sublist_submseteq, sublist_take|].
    by rewrite sort_desc_perm.
Qed.

(** ** The best pair of a token *)

Lemma RR_gt_spec a b :
  RR_gt a b = true ↔ (a.1 > b.1)%R ∨ (a.1 = b.1 ∧ (a.2 > b.2)%R).
Proof.
  unfold RR_gt. rewrite orb_true_iff, andb_true_iff, !bool_decide_eq_true.
  done.
Qed.

Lemma RR_gt_false a b :
  RR_gt a b = false ↔ (a.1 < b.1)%R ∨ (a.1 = b.1 ∧ (a.2 <= b.2)%R).
Proof.
  unfold RR_gt. rewrite orb_false_iff, andb_false_iff, !bool_decide_eq_false.
  destruct a as [a1 a2], b as [b1 b2]. cbn [fst snd]. split.
  - intros [H1 [H2|H2]].
    + left. lra.
    + destruct (Rtotal_order a1 b1) as [?|[->|?]]; [by left| |lra].
      right. split; [done|lra].
  - intros [H|[-> H]]; (split; [lra|]); [left; lra | right; lra].
Qed.

Lemma RR_gt_trans a b c :
  RR_gt a b = true → RR_gt b c = true → RR_gt a c = true.
Proof.
  rewrite !RR_gt_spec. destruct a, b, c. cbn [fst snd].
  intros [?|[-> ?]] [?|[<- ?]]; try (left; lra). right. split; [done|lra].
Qed.

Lemma RR_gt_le_trans a b c :
  RR_gt a b = true → RR_gt c b = false → RR_gt a c = true.
Proof.
  rewrite !RR_gt_spec, RR_gt_false. destruct a, b, c. cbn [fst snd].
  intros [?|[-> ?]] [?|[-> ?]]; try (left; lra). right. split; [done|lra].
Qed.

Lemma best_pair_step best bk p pairs :
  best_pair best bk (p :: pairs) =
    k ← pair_key p;
    if RR_gt k bk then best_pair (Some p) k pairs else best_pair best bk pairs.
Proof.
  cbn [best_pair]. unfold pair_key.
  destruct (get2 p "liquidity" "usd"); [|done].
  cbn [fmap option_fmap option_map mbind option_bind].
  by destruct (get2 p "volume" "h24").
Qed.

Lemma best_pair_inv (pairs : list pydict) : ∀ best bk r,
  best_pair best bk pairs = Some r →
  (r = best
   ∧ ∀ q, q ∈ pairs → ∃ kq, pair_key q = Some kq ∧ RR_gt kq bk = false)
  ∨ ∃ p k l1 l2,
      r = Some p ∧ pairs = l1 ++ p :: l2
      ∧ pair_key p = Some k ∧ RR_gt k bk = true
      ∧ (∀ q, q ∈ l1 → ∃ kq, pair_key q = Some kq ∧ RR_gt k kq = true)
      ∧ (∀ q, q ∈ l2 → ∃ kq, pair_key q = Some kq ∧ RR_gt kq k = false).
Proof.
  induction pairs as [|p0 pairs IH]; intros best bk r H.
  - injection H as <-. left. split; [done|].
    intros q Hq. by apply elem_of_nil in Hq.
  - rewrite best_pair_step in H.
    destruct (pair_key p0) as [k0|] eqn:Hk0; [|done].
    cbn [mbind option_bind] in H.
    destruct (RR_gt k0 bk) eqn:Hgt.
    + apply IH in H as [[-> Hall]|(p & k & l1 & l2 & -> & -> & Hk & Hg & H1 & H2)].
      * right. exists p0, k0, [], pairs. repeat split; try done.
        intros q Hq. by apply elem_of_nil in Hq.
      * right. exists p, k, (p0 :: l1), l2. repeat split; try done.
        -- by eapply RR_gt_trans.
        -- intros q [->|Hq]%elem_of_cons; [by exists k0|by apply H1].
    + apply IH in H as [[-> Hall]|(p & k & l1 & l2 & -> & -> & Hk & Hg & H1 & H2)].
      * left. split; [done|].
        intros q [->|Hq]%elem_of_cons; [by exists k0|by apply Hall].
      * right. exists p, k, (p0 :: l1), l2. repeat split; try done.
        intros q [->|Hq]%elem_of_cons; [|by apply H1].
        exists k0. split; [done|]. by eapply RR_gt_le_trans.
Qed.

(** X20.  The best pair of a token is one of its pairs with the largest key
    (liquidity, 24h volume), the first of them in the order received: its key
    is larger than the key of every earlier pair and not smaller than the key
    of any later pair, and it is above (-1, -1).  There is no best pair only
    when none of the pairs has a key above (-1, -1).  The token is left
    without rows when it has no best pair, and also when its best pair is the
    empty record. *)
Theorem best_pair_is_maximal (pairs : list pydict) (best : option pydict) :
  best_pair None (-1, -1)%R pairs = Some best →
  match best with
  | Some p =>
      ∃ k l1 l2,
        pairs = l1 ++ p :: l2
        ∧ pair_key p = Some k ∧ RR_gt k (-1, -1)%R = true
        ∧ (∀ q, q ∈ l1 → ∃ kq, pair_key q = Some kq ∧ RR_gt k kq = true)
        ∧ (∀ q, q ∈ l2 → ∃ kq, pair_key q = Some kq ∧ RR_gt kq k = false)
  | None =>
      ∀ q, q ∈ pairs →
        ∃ liq vol24, pair_key q = Some (liq, vol24)
          ∧ ((liq < -1)%R ∨ (liq = (-1)%R ∧ (vol24 <= -1)%R))
  end
  ∧ ∀ opts w tbl (idx : pair_index) token_addr,
      default [] (idx !! lower token_addr) = pairs →
      best = None ∨ best = Some ∅ →
      token_rows opts w tbl idx token_addr = Some [].
Proof.
  intros H. split.
  - apply best_pair_inv in H
      as [[-> Hall]|(p' & k & l1 & l2 & -> & H)].
    + intros q Hq. destruct (Hall q Hq) as ([liq vol24] & Hk & Hgt).
      exists liq, vol24. split; [done|]. by apply RR_gt_false in Hgt.
    + by exists k, l1, l2.
  - intros opts w tbl idx token_addr Hp Hb. unfold token_rows. rewrite Hp.
    destruct pairs as [|p ps]; [done|]. rewrite H. cbn [mbind option_bind].
    destruct Hb as [->| ->]; [done|]. by rewrite decide_True.
Qed.

Lemma best_pair_three : best_pair None (-1, -1)%R three_pairs = Some (Some pair_A).
Proof.
  unfold three_pairs. rewrite best_pair_step.
  change (pair_key pair_low) with (Some (100, 0)%R). cbn [mbind option_bind].
  rewrite (proj2 (RR_gt_spec (100, 0)%R (-1, -1)%R)) by (left; cbn; lra).
  rewrite best_pair_step.
  change (pair_key pair_A) with (Some (20000, 9000)%R). cbn [mbind option_bind].
  rewrite (proj2 (RR_gt_spec (20000, 9000)%R (100, 0)%R)) by (left; cbn; lra).
  rewrite best_pair_step.
  change (pair_key pair_low) with (Some (100, 0)%R). cbn [mbind option_bind].
  rewrite (proj2 (RR_gt_false (100, 0)%R (20000, 9000)%R)) by (left; cbn; lra).
  reflexivity.
Qed.

Lemma best_pair_empty_record : best_pair None (-1, -1)%R [∅] = Some (Some ∅).
Proof.
  rewrite !best_pair_step.
  change (pair_key ∅) with (Some (0, 0)%R). cbn [mbind option_bind].
  rewrite (proj2 (RR_gt_spec (0, 0)%R (-1, -1)%R)) by (left; cbn; lra).
  reflexivity.
Qed.

Lemma best_pair_is_maximal_witness :
  (∃ k l1 l2,
     three_pairs = l1 ++ pair_A :: l2
     ∧ pair_key pair_A = Some k ∧ RR_gt k (-1, -1)%R = true
     ∧ (∀ q, q ∈ l1 → ∃ kq, pair_key q = Some kq ∧ RR_gt k kq = true)
     ∧ (∀ q, q ∈ l2 → ∃ kq, pair_key q = Some kq ∧ RR_gt kq k = false))
  ∧ best_pair None (-1, -1)%R [∅] = Some (Some ∅)
  ∧ token_rows (make_opts args_A) world_A table_A index_empty_pair "TokenA"
    = Some [].
Proof.
  split; [|split].
  - apply (best_pair_is_maximal three_pairs (Some pair_A)), best_pair_three.
  - apply best_pair_empty_record.
  - apply (best_pair_is_maximal [∅] (Some ∅) best_pair_empty_record);
      [reflexivity | by right].
Defined.

(** ** The rows of a scan *)

(** The filters do not read the keys added after them. *)
Lemma filters_insert (r : pydict) k v opts pump mode :
  k ∈ late_keys →
  mode_pass (<[k := v]> r) pump mode = mode_pass r pump mode
  ∧ _anti_dead_pass (<[k := v]> r) opts = _anti_dead_pass r opts
  ∧ _trending_reasons (<[k := v]> r) opts = _trending_reasons r opts.
Proof.
  unfold late_keys. intros Hk.
  repeat (apply elem_of_cons in Hk as [->|Hk]); [..|by apply elem_of_nil in Hk].
  all: unfold mode_pass, _anti_dead_pass, _trending_reasons.
  all: by rewrite !get_insert_ne by done.
Qed.

Lemma token_rows_passed opts w tbl idx token_addr rows :
  token_rows opts w tbl idx token_addr = Some rows →
  Forall (passed_filters opts) rows.
Proof.
  unfold token_rows. intros H.
  destruct (default [] _) as [|p ps]; [by injection H as <-|].
  destruct (best_pair _ _ _) as [[best|]|]; cbn [mbind option_bind] in H;
    [|by injection H as <-|done].
  case_decide; [by injection H as <-|].
  destruct (build_base_row _ _ _ _ _) as [base_row|] eqn:Hb; [|done].
  cbn [mbind option_bind] in H.
  destruct (anti_dead opts && negb (_anti_dead_pass base_row opts)) eqn:Ha;
    [by injection H as <-|].
  destruct (trending_filters opts
            && bool_decide (_trending_reasons base_row opts ≠ [])) eqn:Ht;
    [by injection H as <-|].
  injection H as <-. apply Forall_forall. intros row Hrow.
  unfold mode_rows in Hrow.
  apply list_elem_of_fmap in Hrow as (mode & -> & Hm).
  apply list_elem_of_filter in Hm as [Hpass Hm].
  destruct (filters_insert base_row "mode" (PStr mode) opts (pump_mode opts) mode)
    as (E1 & E2 & E3); [apply list_elem_of_here|].
  exists mode. split; [done|]. split; [by rewrite get_insert_eq|].
  rewrite E1, E2, E3. split; [by apply Is_true_true|]. split.
  - intros Hon. rewrite Hon in Ha. cbn in Ha. by apply negb_false_iff in Ha.
  - intros Hon. rewrite Hon in Ht. cbn in Ht.
    apply bool_decide_eq_false in Ht. by apply dec_stable in Ht.
Qed.

Lemma add_orders_get w r r' k :
  add_orders w r = Some r' → k ∉ ["isDexPaid"; "orders_count"] →
  get r' k = get r k.
Proof.
  unfold add_orders. intros H Hk.
  rewrite !not_elem_of_cons in Hk. destruct Hk as (? & ? & _).
  destruct (strip_or_empty _) as [ta|]; [|done]. cbn [mbind option_bind] in H.
  case_decide; injection H as <-; [done|].
  by rewrite !get_insert_ne by done.
Qed.

Lemma add_orders_passed opts w r r' :
  add_orders w r = Some r' → passed_filters opts r → passed_filters opts r'.
Proof.
  intros H (mode & Hm & Hg & Hp & Ha & Ht). exists mode. split; [done|].
  rewrite (add_orders_get _ _ _ _ H) by not_member. split; [done|].
  unfold add_orders in H.
  destruct (strip_or_empty _) as [ta|]; [|done]. cbn [mbind option_bind] in H.
  case_decide; injection H as <-; [done|].
  destruct (filters_insert
              (<["orders_count" :=
                   PInt (Z.of_nat (length (fetch_orders_for_token w ta)))]> r)
              "isDexPaid"
              (PBool (bool_decide (fetch_orders_for_token w ta ≠ [])))
              opts (pump_mode opts) mode) as (E1 & E2 & E3);
    [apply list_elem_of_further, list_elem_of_here|].
  destruct (filters_insert r "orders_count"
              (PInt (Z.of_nat (length (fetch_orders_for_token w ta))))
              opts (pump_mode opts) mode) as (F1 & F2 & F3);
    [apply list_elem_of_further, list_elem_of_further, list_elem_of_here|].
  by rewrite E1, E2, E3, F1, F2, F3.
Qed.

Lemma rank_rows_subset opts rows out :
  rank_rows opts rows = Some out → ∀ r, r ∈ out → r ∈ rows.
Proof.
  unfold rank_rows. cbv zeta. intros H r Hr.
  destruct (unique_per_token opts).
  - unfold unique_rows in H.
    destruct (best_per_token [] _) as [best|] eqn:Hb; [|done].
    cbn [mbind option_bind] in H. injection H as <-.
    apply elem_of_take in Hr as (i & Hr & _). apply list_elem_of_lookup_2 in Hr.
    rewrite sort_rows_perm in Hr.
    apply list_elem_of_fmap in Hr as ([k r'] & -> & Hk).
    destruct (best_per_token_sorted opts _ _ (sort_rows_sorted opts rows) Hb)
      as (_ & Hin & _).
    apply Hin in Hk as [Hk _]. by rewrite sort_rows_perm in Hk.
  - cbn [mbind option_bind] in H. injection H as <-.
    apply elem_of_take in Hr as (i & Hr & _). apply list_elem_of_lookup_2 in Hr.
    by rewrite sort_rows_perm in Hr.
Qed.

Lemma rank_rows_unique opts rows out :
  unique_per_token opts = true →
  rank_rows opts rows = Some out → NoDup (row_token <$> out).
Proof.
  unfold rank_rows. cbv zeta. intros -> H. unfold unique_rows in H.
  destruct (best_per_token [] _) as [best|] eqn:Hb; [|done].
  cbn [mbind option_bind] in H. injection H as <-.
  destruct (best_per_token_sorted opts _ _ (sort_rows_sorted opts rows) Hb)
    as (Hnd & Hin & _).
  assert (Htok : row_token <$> best.*2 = Some <$> best.*1).
  { clear -Hin. induction best as [|[k r] best IH]; [done|].
    cbn [fmap list_fmap fst snd]. f_equal.
    - apply (Hin k r), list_elem_of_here.
    - apply IH. intros k' r' Hin'. by apply Hin, list_elem_of_further. }
  rewrite fmap_take. eapply sublist_NoDup; [|apply sublist_take].
  rewrite sort_rows_perm, Htok. by apply (NoDup_fmap_2 _).
Qed.

(** The stages of a scan that returns rows. *)
Lemma run_scan_inv args w rows dbg :
  run_scan_for_modes args w = Some (rows, dbg) →
  let opts := make_opts args in
  rows = []
  ∨ ∃ tbl candidates addrs pidx per_token ranked,
      token_addresses candidates = Some addrs
      ∧ mapM (token_rows opts w tbl pidx) addrs = Some per_token
      ∧ rank_rows opts (concat per_token) = Some ranked
      ∧ (if include_orders opts then mapM (add_orders w) ranked = Some rows
         else rows = ranked).
Proof.
  unfold run_scan_for_modes. cbv zeta. intros H.
  destruct (collect_candidates _ _) as [tbl|]; [|done].
  cbn [mbind option_bind] in H.
  destruct (cut_candidates _ _) as [|c cs] eqn:Hcut;
    [injection H as <- <-; by left|].
  destruct (profiles_index _ _) as [idx|]; [|done].
  cbn [mbind option_bind] in H.
  destruct (foldl _ _ _) as [tbl'|]; [|done]. cbn [mbind option_bind] in H.
  destruct (token_addresses _) as [addrs|] eqn:Ha; [|done].
  cbn [mbind option_bind] in H.
  destruct (batch_index _ _) as [pidx|]; [|done]. cbn [mbind option_bind] in H.
  destruct (mapM _ _) as [per_token|] eqn:Hp; [|done].
  cbn [mbind option_bind] in H.
  destruct (concat per_token) as [|r0 qual] eqn:Hq;
    [injection H as <- <-; by left|].
  destruct (rank_rows _ _) as [ranked|] eqn:Hr; [|done].
  cbn [mbind option_bind] in H. right.
  eexists tbl', (c :: cs), addrs, _, per_token, ranked.
  split; [done|]. split; [exact Hp|]. rewrite Hq. split; [done|].
  destruct (include_orders (make_opts args)).
  - destruct (mapM _ ranked) as [rows'|] eqn:Ho; [|done].
    cbn [mbind option_bind] in H. by injection H as <- <-.
  - cbn [mbind option_bind] in H. by injection H as <- <-.
Qed.

Lemma mapM_token_rows_passed opts w tbl idx addrs per_token :
  mapM (token_rows opts w tbl idx) addrs = Some per_token →
  Forall (passed_filters opts) (concat per_token).
Proof.
  intros H%mapM_Some_1. induction H as [|a rows addrs per Ha H IH]; [done|].
  cbn [concat]. apply Forall_app. split; [by eapply token_rows_passed | done].
Qed.

(** X21.  Every row that a scan returns passed the filters: it carries one of
    the selected modes (trimmed and lowercased) and passes the gate of that
    mode, and it passes the anti-dead filter and has no trending rejection
    reason when these filters are enabled. *)
Theorem scan_rows_passed_filters (args : ScanOptions) (w : world)
    (rows : list pydict) (dbg : debug) :
  run_scan_for_modes args w = Some (rows, dbg) →
  Forall (passed_filters (make_opts args)) rows.
Proof.
  intros [->|(tbl & cands & addrs & pidx & per & ranked & Ha & Hp & Hr & Ho)]
    %run_scan_inv; [constructor|].
  assert (Hranked : Forall (passed_filters (make_opts args)) ranked).
  { apply Forall_forall. intros r Hin.
    eapply (rank_rows_subset _ _ _ Hr) in Hin.
    pose proof (mapM_token_rows_passed _ _ _ _ _ _ Hp) as Hall.
    by eapply Forall_forall in Hall. }
  destruct (include_orders (make_opts args)); [|by subst].
  apply mapM_Some_1 in Ho. clear -Ho Hranked.
  induction Ho as [|r r' l l' Hr Hl IH]; [constructor|].
  apply Forall_cons in Hranked as [? ?].
  constructor; [by eapply add_orders_passed | by apply IH].
Qed.

Lemma add_orders_token w r r' :
  add_orders w r = Some r' → row_token r' = row_token r.
Proof.
  intros H. unfold row_token.
  by rewrite (add_orders_get _ _ _ _ H) by not_member.
Qed.

(** X22.  With unique_per_token enabled, no two rows that a scan returns
    belong to the same token (token addresses compared in lowercase). *)
Theorem scan_rows_unique_tokens (args : ScanOptions) (w : world)
    (rows : list pydict) (dbg : debug) :
  unique_per_token args = true →
  run_scan_for_modes args w = Some (rows, dbg) →
  NoDup (row_token <$> rows).
Proof.
  intros Hu [->|(tbl & cands & addrs & pidx & per & ranked & Ha & Hp & Hr & Ho)]
    %run_scan_inv; [constructor|].
  pose proof (rank_rows_unique (make_opts args) _ _ Hu Hr) as Hnd.
  destruct (include_orders (make_opts args)); [|by subst].
  apply mapM_Some_1 in Ho.
  assert (Heq : row_token <$> rows = row_token <$> ranked).
  { clear -Ho. induction Ho as [|r r' l l' Hr Hl IH]; [done|].
    cbn [fmap list_fmap]. f_equal; [|done].
    by eapply add_orders_token. }
  by rewrite Heq.
Qed.

Lemma scan_rows_passed_filters_witness :
  ∃ dbg,
    run_scan_for_modes args_A world_A = Some ([row_A "early_strict"], dbg)
    ∧ Forall (passed_filters (make_opts args_A)) [row_A "early_strict"].
Proof.
  destruct scan_A as (dbg & H & _). exists dbg. split; [exact H|].
  exact (scan_rows_passed_filters args_A world_A _ dbg H).
Defined.

Lemma scan_rows_unique_tokens_witness :
  ∃ dbg,
    run_scan_for_modes args_A world_A = Some ([row_A "early_strict"], dbg)
    ∧ NoDup (row_token <$> [row_A "early_strict"]).
Proof.
  destruct scan_A as (dbg & H & _). exists dbg. split; [exact H|].
  exact (scan_rows_unique_tokens args_A world_A _ dbg eq_refl H).
Defined.

(** ** Paid orders *)

Lemma token_addresses_stripped candidates addrs :
  token_addresses candidates = Some addrs →
  Forall (λ a, a ≠ "" ∧ strip a = a) addrs.
Proof.
  unfold token_addresses. intros H.
  destruct (mapM _ _) as [l|]; [|done]. cbn [mbind option_bind] in H.
  injection H as <-. apply Forall_forall. intros a Ha.
  apply list_elem_of_filter in Ha as [Hne Ha].
  apply list_elem_of_fmap in Ha as (s & -> & _). split; [done|apply strip_idem].
Qed.

Lemma compute_metrics_fresh now pair m :
  compute_metrics_from_pair now pair = Some m →
  m !! "orders_count" = None ∧ m !! "isDexPaid" = None.
Proof.
  unfold compute_metrics_from_pair. cbv zeta. intros H.
  bind_inv H. apply (inj Some) in H. subst m. split; reflexivity.
Qed.

Lemma build_base_row_fresh opts w tbl token_addr best row :
  build_base_row opts w tbl token_addr best = Some row →
  row !! "orders_count" = None ∧ row !! "isDexPaid" = None.
Proof.
  unfold build_base_row. cbv zeta. intros H.
  repeat match type of H with
         | mbind _ ?o = _ =>
             destruct o as [?|] eqn:?; cbn [mbind option_bind] in H; [|done]
         | context [let '(_, _) := ?p in _] => destruct p
         end.
  injection H as <-.
  match goal with
  | Hm : compute_metrics_from_pair _ _ = Some _ |- _ =>
      apply compute_metrics_fresh in Hm as (H1 & H2)
  end.
  unfold with_scores. rewrite !lookup_insert_ne by done.
  rewrite !lookup_union_r by done. split; reflexivity.
Qed.

Lemma token_rows_fresh opts w tbl idx token_addr rows :
  token_rows opts w tbl idx token_addr = Some rows →
  Forall (λ r, get r "tokenAddress" = PStr token_addr
               ∧ r !! "orders_count" = None ∧ r !! "isDexPaid" = None) rows.
Proof.
  unfold token_rows. intros H.
  destruct (default [] _) as [|p ps]; [by injection H as <-|].
  destruct (best_pair _ _ _) as [[best|]|]; cbn [mbind option_bind] in H;
    [|by injection H as <-|done].
  case_decide; [by injection H as <-|].
  destruct (build_base_row _ _ _ _ _) as [base_row|] eqn:Hb; [|done].
  cbn [mbind option_bind] in H.
  repeat match type of H with
         | (if ?b then _ else _) = _ =>
             destruct b; [by injection H as <-|]
         end.
  injection H as <-. apply Forall_forall. intros row Hrow.
  unfold mode_rows in Hrow.
  apply list_elem_of_fmap in Hrow as (mode & -> & _).
  destruct (build_base_row_fresh _ _ _ _ _ _ Hb) as [H1 H2].
  rewrite get_insert_ne by done. rewrite !lookup_insert_ne by done.
  split; [by eapply build_base_row_token|done].
Qed.

Lemma mapM_token_rows_fresh opts w tbl idx addrs per_token :
  Forall (λ a, a ≠ "" ∧ strip a = a) addrs →
  mapM (token_rows opts w tbl idx) addrs = Some per_token →
  Forall (λ r, ∃ ta, ta ≠ "" ∧ strip ta = ta
                     ∧ get r "tokenAddress" = PStr ta
                     ∧ r !! "orders_count" = None ∧ r !! "isDexPaid" = None)
    (concat per_token).
Proof.
  intros Hne H%mapM_Some_1. induction H as [|a rows addrs per Ha H IH]; [done|].
  apply Forall_cons in Hne as [[Hne Hst] Hall]. cbn [concat].
  apply Forall_app. split; [|by apply IH].
  eapply Forall_impl; [by eapply token_rows_fresh|].
  intros r (? & ? & ?). by exists a.
Qed.

(** X23.  Step 6 of the scan: with include_orders every returned row carries
    orders_count, the number of paid orders the provider returns for its
    token address, and isDexPaid, true exactly when there is at least one;
    without include_orders no returned row has either field. *)
Theorem scan_rows_orders (args : ScanOptions) (w : world)
    (rows : list pydict) (dbg : debug) :
  run_scan_for_modes args w = Some (rows, dbg) →
  Forall (orders_recorded (include_orders args) w) rows.
Proof.
  intros [->|(tbl & cands & addrs & pidx & per & ranked & Ha & Hp & Hr & Ho)]
    %run_scan_inv; [constructor|].
  assert (Hranked :
    Forall (λ r, ∃ ta, ta ≠ "" ∧ strip ta = ta
                       ∧ get r "tokenAddress" = PStr ta
                       ∧ r !! "orders_count" = None ∧ r !! "isDexPaid" = None)
      ranked).
  { apply Forall_forall. intros r Hin.
    eapply (rank_rows_subset _ _ _ Hr) in Hin.
    pose proof (mapM_token_rows_fresh _ _ _ _ _ _
                  (token_addresses_stripped _ _ Ha) Hp) as Hall.
    by eapply Forall_forall in Hall. }
  change (include_orders (make_opts args)) with (include_orders args) in Ho.
  destruct (include_orders args).
  - apply mapM_Some_1 in Ho. clear -Ho Hranked.
    induction Ho as [|r r' l l' Hr Hl IH]; [constructor|].
    apply Forall_cons in Hranked as [(ta & Hne & Hst & Hta & _) ?].
    constructor; [|by apply IH].
    unfold add_orders in Hr. rewrite Hta in Hr.
    unfold strip_or_empty in Hr. cbn [truthy] in Hr.
    destruct (String.eqb_spec ta ""); [done|].
    cbn [negb mbind option_bind] in Hr. rewrite Hst in Hr.
    rewrite decide_False in Hr by done. injection Hr as <-.
    exists ta. split; [by rewrite !get_insert_ne by done|]. split.
    + rewrite lookup_insert_ne by done. by rewrite lookup_insert_eq.
    + by rewrite lookup_insert_eq.
  - subst rows. eapply Forall_impl; [exact Hranked|].
    intros r (ta & _ & _ & ? & ? & ?). by exists ta.
Qed.

Lemma scan_rows_orders_witness :
  (∃ dbg,
     run_scan_for_modes args_B world_B
     = Some ([paid_row_A "early_strict"; paid_row_A "degen"], dbg)
     ∧ include_orders args_B = true
     ∧ fetch_orders_for_token world_B "TokenA" = [order_A]
     ∧ Forall (orders_recorded true world_B)
         [paid_row_A "early_strict"; paid_row_A "degen"])
  ∧ (∃ dbg,
       run_scan_for_modes args_A world_A = Some ([row_A "early_strict"], dbg)
       ∧ include_orders args_A = false
       ∧ Forall (orders_recorded false world_A) [row_A "early_strict"]).
Proof.
  split.
  - destruct scan_B as (dbg & H & _). exists dbg. split; [exact H|].
    split; [reflexivity|]. split; [reflexivity|].
    exact (scan_rows_orders args_B world_B _ dbg H).
  - destruct scan_A as (dbg & H & _). exists dbg. split; [exact H|].
    split; [reflexivity|].
    exact (scan_rows_orders args_A world_A _ dbg H).
Defined.

(** ** Profile enrichment *)

Lemma enrich_step idx (tbl tbl' : table) c :
  table_ok tbl →
  (∃ ta, c !! "tokenAddress" = Some (PStr ta) ∧ ta ≠ "" ∧ strip ta = ta
         ∧ c !! "chainId" = Some (PStr CHAIN_ID) ∧ lower ta ∈ tbl.*1) →
  enrich idx (Some tbl) c = Some tbl' →
  tbl'.*1 = tbl.*1 ∧ table_ok tbl'.
Proof.
  intros [Hnd Hall] (ta & Hta & Hne & Hst & Hch & Hin) H.
  unfold enrich in H. cbn [mbind option_bind] in H.
  rewrite (get_lookup _ _ _ Hta) in H. unfold strip_or_empty in H.
  cbn [truthy] in H. destruct (String.eqb_spec ta ""); [done|].
  cbn [negb fmap option_fmap option_map mbind option_bind] in H.
  rewrite Hst in H. rewrite decide_False in H by by apply lower_nonempty.
  destruct (idx !! lower ta) as [prof|]; [|by injection H as <-].
  destruct (_merge_candidate c prof) as [c'|] eqn:Hm; [|done].
  cbn [mbind option_bind] in H. injection H as <-.
  split; [by rewrite tbl_store_keys, decide_True|].
  split; [by apply tbl_store_NoDup|]. apply tbl_store_Forall; [done|].
  destruct (merge_keeps_identity c prof c' ta) as [? ?]; [done..|].
  exists ta. by repeat split.
Qed.

Lemma enrich_fold idx (cands : list pydict) : ∀ (tbl tbl' : table),
  table_ok tbl →
  Forall (λ c, ∃ ta, c !! "tokenAddress" = Some (PStr ta) ∧ ta ≠ ""
                     ∧ strip ta = ta ∧ c !! "chainId" = Some (PStr CHAIN_ID)
                     ∧ lower ta ∈ tbl.*1) cands →
  foldl (enrich idx) (Some tbl) cands = Some tbl' →
  tbl'.*1 = tbl.*1 ∧ table_ok tbl'.
Proof.
  induction cands as [|c cands IH]; intros tbl tbl' Hok Hall H; cbn [foldl] in H.
  - by injection H as <-.
  - apply Forall_cons in Hall as [Hc Hall].
    destruct (enrich idx (Some tbl) c) as [t1|] eqn:H1.
    + destruct (enrich_step _ _ _ _ Hok Hc H1) as [Hk Hok1].
      destruct (IH t1 tbl' Hok1) as [Hk' Hok']; [|done|].
      * by rewrite Hk.
      * split; [by rewrite Hk'|done].
    + exfalso. clear -H. induction cands as [|? ? IH]; [done|]. by apply IH.
Qed.

(** X18.  The profile enrichment neither adds nor removes a candidate: the
    table keeps its keys in their order, and every entry keeps its token
    address and chain. *)
Theorem enrichment_keeps_candidates (opts : ScanOptions) (w : world)
    (idx : gmap string pydict) (tbl tbl' : table) :
  collect_candidates opts w = Some tbl →
  foldl (enrich idx) (Some tbl) (cut_candidates opts tbl) = Some tbl' →
  tbl'.*1 = tbl.*1
  ∧ ∀ k c', (k, c') ∈ tbl' →
      ∃ ta, get c' "tokenAddress" = PStr ta ∧ ta ≠ "" ∧ k = lower ta
            ∧ get c' "chainId" = PStr "solana".
Proof.
  intros Hc%collect_table_ok H.
  destruct (enrich_fold idx (cut_candidates opts tbl) tbl tbl' Hc)
    as [Hk [_ Hok]]; [|done|].
  - apply Forall_forall. intros c Hin.
    assert (Hin' : c ∈ tbl.*2).
    { eapply elem_of_submseteq; [exact Hin|].
      etransitivity; [apply sublist_submseteq, sublist_take|].
      by rewrite sort_desc_perm. }
    apply list_elem_of_fmap in Hin' as ([k c0] & -> & Hin').
    destruct Hc as [_ Hall]. rewrite Forall_forall in Hall.
    destruct (Hall _ Hin') as (ta & ? & ? & ? & Hkey & ?). cbn [fst snd] in *.
    exists ta. repeat split; try done. rewrite <- Hkey.
    apply list_elem_of_fmap. by exists (k, c0).
  - split; [done|]. intros k c' Hin. rewrite Forall_forall in Hok.
    destruct (Hok _ Hin) as (ta & ? & ? & ? & ? & ?). cbn [fst snd] in *.
    exists ta. repeat split; try done; by apply get_lookup.
Qed.

Lemma enrichment_keeps_candidates_witness :
  ∃ tbl' c',
    collect_candidates (make_opts args_A) world_P = Some table_A
    ∧ profiles_index (make_opts args_A) world_P = Some profiles_A
    ∧ foldl (enrich profiles_A) (Some table_A)
      (cut_candidates (make_opts args_A) table_A) = Some tbl'
    ∧ tbl' = [("tokena", c')]
    ∧ get candidate_A "profileDescription" = PNone
    ∧ get c' "profileDescription" = PStr "Token A"
    ∧ tbl'.*1 = table_A.*1
    ∧ ∀ k c', (k, c') ∈ tbl' →
        ∃ ta, get c' "tokenAddress" = PStr ta ∧ ta ≠ "" ∧ k = lower ta
              ∧ get c' "chainId" = PStr "solana".
Proof.
  assert (H : ∃ c', foldl (enrich profiles_A) (Some table_A)
                (cut_candidates (make_opts args_A) table_A)
              = Some [("tokena", c')]
              ∧ get c' "profileDescription" = PStr "Token A").
  { eexists. split; reflexivity. }
  destruct H as (c' & H & Hd). exists [("tokena", c')], c'.
  split; [reflexivity|]. split; [reflexivity|].
  split; [exact H|]. split; [reflexivity|]. split; [reflexivity|].
  split; [exact Hd|].
  exact (enrichment_keeps_candidates (make_opts args_A) world_P profiles_A
           table_A _ eq_refl H).
Defined.

(** ** The single requests for the tokens the batches missed *)

Lemma fallback_fold w k (l : list string) : ∀ idx : pair_index,
  foldl (fallback w) idx l !! k ≠ idx !! k →
  ∃ a, a ∈ l ∧ k = lower a ∧ fetch_token_pairs_fallback w a ≠ [].
Proof.
  induction l as [|a l IH]; intros idx H; cbn [foldl] in H; [done|].
  unfold fallback at 2 in H.
  destruct (fetch_token_pairs_fallback w a) as [|p ps] eqn:Hf.
  - destruct (IH _ H) as (a' & ? & ? & ?). exists a'.
    split; [by apply list_elem_of_further|done].
  - destruct (decide (k = lower a)) as [->|Hne].
    + exists a. split; [apply list_elem_of_here|]. split; [done|].
      by rewrite Hf.
    + destruct (IH (extend idx (lower a) (p :: ps))) as (a' & ? & ? & ?).
      * unfold extend at 2. by rewrite lookup_insert_ne.
      * exists a'. split; [by apply list_elem_of_further|done].
Qed.

(** X19.  The fallback touches only tokens that the batched requests missed:
    if the pairs of a key change, the key is the lowercased address of a
    token that had no pairs and for which the single request returned some.
    The pairs of every token the batches found stay as they are. *)
Theorem fallback_only_for_missing (w : world) (idx : pair_index)
    (token_addrs : list string) (k : string) :
  resolve_missing w idx (missing_tokens idx token_addrs) !! k ≠ idx !! k →
  idx !! k = None
  ∧ ∃ a, a ∈ token_addrs ∧ k = lower a
         ∧ fetch_token_pairs_fallback w a ≠ [].
Proof.
  unfold resolve_missing. intros (a & Ha & -> & Hf)%fallback_fold.
  apply elem_of_take in Ha as (i & Ha & _). apply list_elem_of_lookup_2 in Ha.
  unfold missing_tokens in Ha. apply list_elem_of_filter in Ha as [Hnone Ha].
  split; [done|]. by exists a.
Qed.

Lemma fallback_only_for_missing_witness :
  (∅ : pair_index) !! "tokena" = None
  ∧ ∃ a, a ∈ ["TokenA"] ∧ "tokena" = lower a
         ∧ fetch_token_pairs_fallback world_fallback a ≠ [].
Proof.
  apply (fallback_only_for_missing world_fallback ∅ ["TokenA"] "tokena").
  change (resolve_missing world_fallback ∅ (missing_tokens ∅ ["TokenA"])
            !! "tokena") with (Some [pair_A]).
  done.
Defined.

(** ** Chunks *)

(** X1.  For a positive size n, [_chunks] cuts a list into consecutive slices
    that are not empty, hold at most n items each, and together give back the
    list in its order. *)
Theorem chunks_partition {A} (items : list A) (n : nat) :
  (0 < n)%nat →
  concat (_chunks items n) = items
  ∧ Forall (λ c, (0 < length c ≤ n)%nat) (_chunks items n).
Proof.
  intros Hn. split; [by apply chunks_concat|].
  unfold _chunks. apply Forall_fmap, Forall_forall. intros i Hi.
  apply elem_of_seq in Hi as [_ Hi]. cbn. rewrite length_take, length_drop.
  pose proof (Nat.div_mod_eq (length items + n - 1) n) as Hd.
  pose proof (Nat.mod_upper_bound (length items + n - 1) n) as Hm.
  split; [|lia]. nia.
Qed.

Lemma chunks_partition_witness :
  concat (_chunks [1; 2; 3; 4; 5] 2) = [1; 2; 3; 4; 5]
  ∧ Forall (λ c, (0 < length c ≤ 2)%nat) (_chunks [1; 2; 3; 4; 5] 2).
Proof. apply chunks_partition. lia. Defined.

(** ** API wrappers *)

Lemma keyed_or_list_scalar keys v : no_container v → Api.keyed_or_list keys v = [].
Proof. by destruct v. Qed.

Lemma list_or_keyed_scalar keys v : no_container v → Api.list_or_keyed keys v = [].
Proof. by destruct v. Qed.

Lemma normalize_chain_solana : _normalize_chain_id (PStr CHAIN_ID) = Some "solana".
Proof. reflexivity. Qed.

Lemma collect_empty opts w :
  boosts_items opts w = [] →
  (include_ads opts = true → fetch_ads_latest w = []) →
  (include_cto opts = true → fetch_community_takeovers_latest w = []) →
  collect_candidates opts w = Some [].
Proof.
  intros Hb Ha Hc. unfold collect_candidates. rewrite Hb.
  cbn [add_records foldl mbind option_bind].
  destruct (include_ads opts); [rewrite Ha by done|];
    cbn [add_records foldl mbind option_bind];
    (destruct (include_cto opts); [by rewrite Hc|done]).
Qed.

(** X24.  When every request gets an answer that is neither a list nor an
    object (in particular when every request fails), every wrapper returns
    the empty list, and a scan served by these wrappers returns no row, with
    why = no_candidates in its debug record, whatever its arguments. *)
Theorem transport_failure_no_candidates (http : string → pyval) (w : world)
    (args : ScanOptions) :
  served_by http w →
  (∀ url, no_container (http url)) →
  (Api.fetch_token_boosts_latest http = []
   ∧ Api.fetch_token_boosts_top http = []
   ∧ Api.fetch_ads_latest http = []
   ∧ Api.fetch_community_takeovers_latest http = []
   ∧ Api.fetch_token_profiles_latest http = []
   ∧ (∀ ch, Api.fetch_pairs_for_tokens_batch http (PStr CHAIN_ID) ch = Some [])
   ∧ (∀ a, Api.fetch_token_pairs_fallback http (PStr CHAIN_ID) a = Some [])
   ∧ (∀ a, Api.fetch_orders_for_token http (PStr CHAIN_ID) a = Some []))
  ∧ ∃ dbg, run_scan_for_modes args w = Some ([], dbg)
           ∧ dbg_why dbg = Some "no_candidates".
Proof.
  intros (H1 & H2 & H3 & H4 & _) Hfail.
  assert (E1 : Api.fetch_token_boosts_latest http = [])
    by by apply keyed_or_list_scalar.
  assert (E2 : Api.fetch_token_boosts_top http = [])
    by by apply keyed_or_list_scalar.
  assert (E3 : Api.fetch_ads_latest http = [])
    by by apply list_or_keyed_scalar.
  assert (E4 : Api.fetch_community_takeovers_latest http = [])
    by by apply list_or_keyed_scalar.
  split.
  - split; [done|]. split; [done|]. split; [done|]. split; [done|]. split.
    + unfold Api.fetch_token_profiles_latest. cbv zeta.
      specialize (Hfail (Api.DEX_BASE +:+ "/token-profiles/latest/v1")).
      by destruct (http _).
    + split; [|split].
      * intros ch. unfold Api.fetch_pairs_for_tokens_batch.
        rewrite normalize_chain_solana. cbn [mbind option_bind].
        destruct (Api.unique_addresses ∅ ch); [done|].
        by rewrite list_or_keyed_scalar.
      * intros a. unfold Api.fetch_token_pairs_fallback.
        rewrite normalize_chain_solana. cbn [mbind option_bind].
        by rewrite list_or_keyed_scalar.
      * intros a. unfold Api.fetch_orders_for_token.
        rewrite normalize_chain_solana. cbn [mbind option_bind].
        by rewrite list_or_keyed_scalar.
  - rewrite E1 in H1. rewrite E2 in H2. rewrite E3 in H3. rewrite E4 in H4.
    injection H1 as H1. injection H2 as H2. injection H3 as H3.
    injection H4 as H4.
    apply empty_table_no_candidates, collect_empty.
    + unfold boosts_items. rewrite <- H1, <- H2.
      by destruct (include_boosts (make_opts args)),
        (pump_mode (make_opts args)).
    + done.
    + done.
Qed.

Lemma silent_world_served : served_by failing_transport silent_world.
Proof.
  repeat split; try reflexivity.
  intros ch. unfold Api.fetch_pairs_for_tokens_batch.
  rewrite normalize_chain_solana. cbn [mbind option_bind].
  by destruct (Api.unique_addresses ∅ ch).
Qed.

Lemma transport_failure_no_candidates_witness :
  (Api.fetch_token_boosts_latest failing_transport = []
   ∧ Api.fetch_token_boosts_top failing_transport = []
   ∧ Api.fetch_ads_latest failing_transport = []
   ∧ Api.fetch_community_takeovers_latest failing_transport = []
   ∧ Api.fetch_token_profiles_latest failing_transport = []
   ∧ (∀ ch, Api.fetch_pairs_for_tokens_batch failing_transport (PStr CHAIN_ID) ch
            = Some [])
   ∧ (∀ a, Api.fetch_token_pairs_fallback failing_transport (PStr CHAIN_ID) a
           = Some [])
   ∧ (∀ a, Api.fetch_orders_for_token failing_transport (PStr CHAIN_ID) a
           = Some []))
  ∧ ∃ dbg, run_scan_for_modes args_A silent_world = Some ([], dbg)
           ∧ dbg_why dbg = Some "no_candidates".
Proof.
  apply transport_failure_no_candidates; [apply silent_world_served|].
  intros url. exact I.
Defined.

(** ** The addresses of a batched request *)

Lemma unique_addresses_spec (l : list string) : ∀ seen : gset string,
  let r := Api.unique_addresses seen l in
  Forall (λ a, a ≠ "" ∧ strip a = a ∧ (lower a ∉ seen)
               ∧ (∃ x, x ∈ l ∧ a = strip x)) r
  ∧ NoDup (lower <$> r)
  ∧ (∀ x, x ∈ l → strip x ≠ "" →
       lower (strip x) ∈ seen ∨ lower (strip x) ∈ lower <$> r).
Proof.
  cbv zeta. induction l as [|a l IH]; intros seen; cbn [Api.unique_addresses].
  - split; [constructor|]. split; [constructor|].
    intros x Hx. by apply elem_of_nil in Hx.
  - cbv zeta. destruct (decide (strip a = "")) as [He|He].
    { destruct (IH seen) as (H1 & H2 & H3). split; [|split; [done|]].
      - eapply Forall_impl; [exact H1|]. intros b (? & ? & ? & x & ? & ?).
        repeat split; try done. exists x. split; [by apply list_elem_of_further|done].
      - intros x [->|Hx]%elem_of_cons Hne; [done|by apply H3]. }
    destruct (decide (lower (strip a) ∈ seen)) as [Hs|Hs].
    { destruct (IH seen) as (H1 & H2 & H3). split; [|split; [done|]].
      - eapply Forall_impl; [exact H1|]. intros b (? & ? & ? & x & ? & ?).
        repeat split; try done. exists x. split; [by apply list_elem_of_further|done].
      - intros x [->|Hx]%elem_of_cons Hne; [by left|by apply H3]. }
    destruct (IH ({[lower (strip a)]} ∪ seen)) as (H1 & H2 & H3).
    split; [|split].
    + constructor.
      * repeat split; try done; [apply strip_idem|].
        exists a. split; [apply list_elem_of_here|done].
      * eapply Forall_impl; [exact H1|]. intros b (? & ? & Hb & x & ? & ?).
        repeat split; try done;
          [intros ?; apply Hb, elem_of_union; by right|].
        exists x. split; [by apply list_elem_of_further|done].
    + cbn [fmap list_fmap]. apply NoDup_cons. split; [|done].
      intros (b & Hb & Hin)%list_elem_of_fmap.
      rewrite Forall_forall in H1. destruct (H1 b Hin) as (_ & _ & Hnot & _).
      apply Hnot. rewrite <- Hb. apply elem_of_union. left.
      by apply elem_of_singleton.
    + intros x [->|Hx]%elem_of_cons Hne.
      * right. cbn [fmap list_fmap]. apply list_elem_of_here.
      * destruct (H3 x Hx Hne) as [Hin|Hin].
        -- apply elem_of_union in Hin as [Hin|Hin]; [|by left].
           apply elem_of_singleton in Hin. right. rewrite Hin.
           cbn [fmap list_fmap]. apply list_elem_of_here.
        -- right. cbn [fmap list_fmap]. by apply list_elem_of_further.
Qed.

Lemma unique_addresses_id (l : list string) : ∀ seen : gset string,
  Forall (λ a, a ≠ "" ∧ strip a = a ∧ (lower a ∉ seen)) l →
  NoDup (lower <$> l) →
  Api.unique_addresses seen l = l.
Proof.
  induction l as [|a l IH]; intros seen Hall Hnd; [done|].
  apply Forall_cons in Hall as [(Hne & Hst & Hs) Hall].
  cbn [fmap list_fmap] in Hnd. apply NoDup_cons in Hnd as [Ha Hnd].
  cbn [Api.unique_addresses]. cbv zeta. rewrite Hst.
  rewrite decide_False by done. rewrite decide_False by done.
  f_equal. apply IH; [|done].
  apply Forall_forall. intros b Hb. rewrite Forall_forall in Hall.
  destruct (Hall b Hb) as (? & ? & ?). repeat split; try done.
  intros [Hin|Hin]%elem_of_union; [|done].
  apply elem_of_singleton in Hin. apply Ha. rewrite <- Hin.
  by apply list_elem_of_fmap_2.
Qed.

(** The sort of the candidates is a sort of the entries of the table. *)
Lemma insert_desc_fmap {A B} (f : A → B) (gt : B → B → bool) x l :
  insert_desc gt (f x) (f <$> l)
  = f <$> insert_desc (λ a b, gt (f a) (f b)) x l.
Proof.
  induction l as [|y l IH]; [done|]. cbn [fmap list_fmap insert_desc].
  destruct (gt (f y) (f x)); [|done]. cbn [fmap list_fmap]. by rewrite IH.
Qed.

Lemma sort_desc_fmap {A B} (f : A → B) (gt : B → B → bool) l :
  sort_desc gt (f <$> l) = f <$> sort_desc (λ a b, gt (f a) (f b)) l.
Proof.
  unfold sort_desc. induction l as [|x l IH]; [done|].
  cbn [fmap list_fmap foldr]. by rewrite IH, insert_desc_fmap.
Qed.

Lemma cut_candidates_entries opts (t : table) :
  ∃ ents : table, cut_candidates opts t = ents.*2 ∧ ents ⊆+ t.
Proof.
  unfold cut_candidates. rewrite sort_desc_fmap, <- fmap_take.
  eexists. split; [done|].
  etransitivity; [apply sublist_submseteq, sublist_take|].
  by rewrite sort_desc_perm.
Qed.

Lemma token_addresses_entries (ents : table) :
  Forall entry_ok ents →
  ∃ addrs, token_addresses (ents.*2) = Some addrs
           ∧ lower <$> addrs = ents.*1
           ∧ Forall (λ a, a ≠ "" ∧ strip a = a) addrs.
Proof.
  intros Hall.
  assert (H : ∃ addrs,
    mapM (λ c, py_str (get c "tokenAddress"))
      (filter (λ c, truthy (get c "tokenAddress")) (ents.*2)) = Some addrs
    ∧ lower <$> addrs = ents.*1
    ∧ Forall (λ a, a ≠ "" ∧ strip a = a) addrs).
  { induction Hall as [|[k c] ents (ta & Hta & Hne & Hst & Hk & _) Hall IH].
    - by exists [].
    - destruct IH as (addrs & IH1 & IH2 & IH3). cbn [fst snd] in *.
      exists (ta :: addrs). cbn [fmap list_fmap snd fst].
      rewrite filter_cons_True.
      + split; [|split].
        * apply mapM_Some. cbn. constructor.
          -- by rewrite (get_lookup _ _ _ Hta).
          -- by apply mapM_Some.
        * cbn [fmap list_fmap]. by rewrite IH2, Hk.
        * by constructor.
      + rewrite (get_lookup _ _ _ Hta). cbn. apply Is_true_true.
        by destruct ta. }
  destruct H as (addrs & H1 & H2 & H3). exists addrs.
  unfold token_addresses. rewrite H1. cbn [mbind option_bind].
  assert (Hid : filter (λ a, a ≠ "") (strip <$> addrs) = addrs).
  { clear -H3. induction H3 as [|a l [Hne Hst] _ IH]; [done|].
    cbn [fmap list_fmap]. rewrite Hst, filter_cons_True by done.
    by rewrite IH. }
  by rewrite Hid.
Qed.

(** X26.  In a scan every kept candidate contributes one token address, and
    the batched pair requests are well formed: the addresses are pairwise
    distinct up to case, every request names between 1 and 30 of them, and
    the de-duplication of [fetch_pairs_for_tokens_batch] passes the addresses
    of a request on unchanged. *)
Theorem batch_requests_well_formed (opts : ScanOptions) (w : world)
    (tbl : table) :
  collect_candidates opts w = Some tbl →
  ∃ addrs,
    token_addresses (cut_candidates opts tbl) = Some addrs
    ∧ length addrs = length (cut_candidates opts tbl)
    ∧ NoDup (lower <$> addrs)
    ∧ Forall (λ ch, (0 < length ch ≤ 30)%nat
                    ∧ Api.unique_addresses ∅ ch = ch) (_chunks addrs 30).
Proof.
  intros [Hnd Hall]%collect_table_ok.
  destruct (cut_candidates_entries opts tbl) as (ents & -> & Hsub).
  assert (Hents : Forall entry_ok ents).
  { apply Forall_forall. intros e He. rewrite Forall_forall in Hall.
    apply Hall. by eapply elem_of_submseteq. }
  destruct (token_addresses_entries ents Hents) as (addrs & Ha & Hk & Hs).
  exists addrs. split; [done|].
  assert (Hnd' : NoDup (lower <$> addrs)).
  { rewrite Hk.
    assert (Hsub' : ents.*1 ⊆+ tbl.*1) by by apply fmap_submseteq.
    apply submseteq_Permutation in Hsub' as [k' Hp]. rewrite Hp in Hnd.
    by apply NoDup_app in Hnd as [? _]. }
  split; [|split; [done|]].
  { by rewrite <- (length_fmap lower), Hk, !length_fmap. }
  apply Forall_forall. intros ch Hch.
  assert (Hlen : (0 < length ch ≤ 30)%nat).
  { destruct (chunks_partition addrs 30) as [_ Hc]; [lia|].
    by eapply Forall_forall in Hc. }
  split; [done|].
  unfold _chunks in Hch. apply list_elem_of_fmap in Hch as (i & -> & _).
  assert (Hsl : take 30 (drop (i * 30) addrs) `sublist_of` addrs).
  { etransitivity; [apply sublist_take|apply sublist_drop]. }
  apply unique_addresses_id.
  - apply Forall_forall. intros a Hin.
    rewrite Forall_forall in Hs.
    assert (Ha' : a ∈ addrs) by by eapply elem_of_sublist.
    destruct (Hs a Ha') as [? ?]. repeat split; done.
  - eapply sublist_NoDup; [exact Hnd'|]. by apply fmap_sublist.
Qed.

Lemma batch_requests_well_formed_witness :
  ∃ addrs,
    token_addresses (cut_candidates (make_opts args_A) table_A) = Some addrs
    ∧ length addrs = length (cut_candidates (make_opts args_A) table_A)
    ∧ NoDup (lower <$> addrs)
    ∧ Forall (λ ch, (0 < length ch ≤ 30)%nat
                    ∧ Api.unique_addresses ∅ ch = ch) (_chunks addrs 30).
Proof.
  apply (batch_requests_well_formed (make_opts args_A) world_A). reflexivity.
Defined.

(** X25.  The request of [fetch_pairs_for_tokens_batch] names every address at
    most once up to case, trimmed and never empty, each of them an address of
    its argument and every non-blank address of the argument among them up to
    case; when no address is left, the empty list is returned whatever the
    transport answers. *)
Theorem batch_addresses_unique (token_addresses : list string) :
  let addrs := Api.unique_addresses ∅ token_addresses in
  NoDup (lower <$> addrs)
  ∧ Forall (λ a, a ≠ "" ∧ strip a = a
                 ∧ (∃ x, x ∈ token_addresses ∧ a = strip x)) addrs
  ∧ (∀ x, x ∈ token_addresses → strip x ≠ "" →
       lower (strip x) ∈ lower <$> addrs)
  ∧ (addrs = [] →
     ∀ http, Api.fetch_pairs_for_tokens_batch http (PStr CHAIN_ID)
               token_addresses = Some []).
Proof.
  cbv zeta.
  destruct (unique_addresses_spec token_addresses ∅) as (H1 & H2 & H3).
  split; [done|]. split; [|split].
  - eapply Forall_impl; [exact H1|]. intros a (? & ? & _ & ?). done.
  - intros x Hx Hne. destruct (H3 x Hx Hne) as [Hin|Hin]; [|done].
    by apply elem_of_empty in Hin.
  - intros He http. unfold Api.fetch_pairs_for_tokens_batch.
    rewrite normalize_chain_solana. cbn [mbind option_bind]. by rewrite He.
Qed.

(** ** The index of records by token *)

Lemma index_fold (items : list pydict) : ∀ idx0 idx : gmap string pydict,
  foldl (λ idx it,
           idx ← idx;
           ta ← item_key it;
           if decide (ta = "") then Some idx else Some (<[ta := it]> idx))
    (Some idx0) items = Some idx →
  ∀ k, k ≠ "" →
    idx !! k =
      match last (filter (λ it, item_key it = Some k) items) with
      | Some it => Some it
      | None => idx0 !! k
      end.
Proof.
  induction items as [|it items IH]; intros idx0 idx H k Hk; cbn [foldl] in H.
  - by injection H as <-.
  - cbn [mbind option_bind] in H.
    destruct (item_key it) as [ta|] eqn:Hta; cbn [mbind option_bind] in H.
    2:{ exfalso. clear -H. induction items as [|? ? IH]; [done|]. by apply IH. }
    destruct (decide (ta = "")) as [->|Hne].
    + rewrite (IH _ _ H k Hk). rewrite filter_cons_False; [done|].
      intros Heq. cbv beta in Heq. rewrite Hta in Heq. by injection Heq as <-.
    + rewrite (IH _ _ H k Hk).
      destruct (decide (ta = k)) as [->|Hne'].
      * rewrite filter_cons_True by (by cbv beta; rewrite Hta).
        rewrite last_cons.
        destruct (last _); [done|]. by rewrite lookup_insert_eq.
      * rewrite filter_cons_False
          by (intros Heq; cbv beta in Heq; rewrite Hta in Heq;
              by injection Heq as ->).
        destruct (last _); [done|]. by rewrite lookup_insert_ne.
Qed.

(** X27.  [_index_by_token] indexes the records by their token address trimmed
    and lowercased: under every key it holds the last record of the list
    with that key, records without an address are left out, and no key is
    empty. *)
Theorem index_by_token_last_wins (items : list pydict)
    (idx : gmap string pydict) (k : string) :
  _index_by_token items = Some idx →
  idx !! k =
    if decide (k = "") then None
    else last (filter (λ it, item_key it = Some k) items).
Proof.
  unfold _index_by_token. intros H. case_decide as Hk.
  - subst k. destruct (idx !! "") as [it|] eqn:Hl; [|done]. exfalso.
    assert (G : ∀ idx0 : gmap string pydict, idx0 !! "" = None →
      foldl (λ idx it, idx ← idx; ta ← item_key it;
               if decide (ta = "") then Some idx else Some (<[ta := it]> idx))
        (Some idx0) items = Some idx → idx !! "" = Some it → False).
    { clear. induction items as [|x items IH]; intros idx0 H0 H Hl; cbn [foldl] in H.
      - injection H as <-. congruence.
      - cbn [mbind option_bind] in H.
        destruct (item_key x) as [ta|]; cbn [mbind option_bind] in H.
        2:{ clear -H. induction items as [|? ? IH]; [done|]. by apply IH. }
        destruct (decide (ta = "")) as [->|Hne].
        + exact (IH idx0 H0 H Hl).
        + apply (IH (<[ta := x]> idx0)); [|exact H|exact Hl].
          by rewrite lookup_insert_ne. }
    exact (G ∅ (lookup_empty _) H Hl).
  - rewrite (index_fold _ _ _ H k Hk). by destruct (last _).
Qed.

Lemma index_by_token_last_wins_witness :
  ∃ idx, _index_by_token [boost_item_50; item_upper] = Some idx
         ∧ idx !! "tokena" =
             last (filter (λ it, item_key it = Some "tokena")
                     [boost_item_50; item_upper]).
Proof.
  eexists. split; [reflexivity|].
  apply (index_by_token_last_wins [boost_item_50; item_upper] _ "tokena").
  reflexivity.
Defined.

(** ** The scan of older versions of the user interface *)

Lemma legacy_sort_sorted by_spike rows :
  StronglySorted (legacy_ge by_spike) (legacy_sort by_spike rows).
Proof.
  apply sort_desc_sorted; unfold legacy_ge.
  - intros x y H%bool_decide_eq_true. lra.
  - intros x y H%bool_decide_eq_false. lra.
  - intros x y z. lra.
Qed.

Lemma legacy_sort_perm by_spike rows : legacy_sort by_spike rows ≡ₚ rows.
Proof. apply sort_desc_perm. Qed.

Lemma mode_pass_ext (r1 r2 : pydict) pump mode :
  Forall (λ k, get r1 k = get r2 k) gate_fields →
  mode_pass r1 pump mode = mode_pass r2 pump mode.
Proof.
  unfold gate_fields. intros H. unfold mode_pass.
  repeat (apply Forall_cons in H as [-> H]). reflexivity.
Qed.

Lemma legacy_token_rows_pass w pump modes idx ta rows :
  legacy_token_rows w pump modes idx ta = Some rows →
  Forall (λ r, ∃ m, m ∈ modes ∧ get r "mode" = PStr m
                    ∧ mode_pass r pump m = true) rows.
Proof.
  unfold legacy_token_rows. intros H.
  destruct (default [] _) as [|p ps]; [by injection H as <-|].
  destruct (max_pair _) as [best|]; [|done]. cbn [mbind option_bind] in H.
  destruct (legacy_row _ _ _ _) as [row|]; [|done].
  cbn [mbind option_bind] in H. injection H as <-.
  apply Forall_forall. intros r (m & -> & Hm)%list_elem_of_fmap.
  apply list_elem_of_filter in Hm as [Hp Hm]. exists m.
  split; [done|]. split; [by rewrite get_insert_eq|].
  assert (E : mode_pass (<["mode" := PStr m]> row) pump m
              = mode_pass row pump m)
    by (unfold mode_pass; by rewrite !get_insert_ne by done).
  rewrite E. by apply Is_true_true.
Qed.

Lemma bind_take_length {A B} (f : A → list B) n (l : list A) :
  (length (x ← l; take n (f x)) ≤ length l * n)%nat.
Proof.
  induction l as [|x l IH]; [done|]. cbn [mbind list_bind].
  change (length ((take n (f x)) ++ (l ≫= λ x, take n (f x)))
          ≤ length (x :: l) * n)%nat.
  rewrite length_app, length_take. cbn [length]. lia.
Qed.

Lemma in_mode_inj m m' r : in_mode m r = true → in_mode m' r = true → m = m'.
Proof.
  unfold in_mode. destruct (py_or _ _); try done.
  intros H1%bool_decide_eq_true H2%bool_decide_eq_true. congruence.
Qed.

Lemma filter_in_mode_other m m' n (rows : list pydict) :
  m' ≠ m → filter (in_mode m) (take n (filter (in_mode m') rows)) = [].
Proof.
  intros Hne. destruct (filter (in_mode m) _) as [|r l] eqn:E; [done|].
  exfalso.
  assert (Hr : r ∈ filter (in_mode m) (take n (filter (in_mode m') rows)))
    by (rewrite E; apply list_elem_of_here).
  apply list_elem_of_filter in Hr as [Hm Hr].
  apply elem_of_take in Hr as (i & Hr & _). apply list_elem_of_lookup_2 in Hr.
  apply list_elem_of_filter in Hr as [Hm' _].
  apply Is_true_true in Hm, Hm'. by destruct Hne; eapply in_mode_inj.
Qed.

Lemma per_mode_length m n (modes : list string) (rows : list pydict) :
  (length (filter (in_mode m) (m' ← modes; take n (filter (in_mode m') rows)))
   ≤ length (filter (λ m', m' = m) modes) * n)%nat.
Proof.
  induction modes as [|m' modes IH]; [done|]. cbn [mbind list_bind].
  change (length (filter (in_mode m)
            (take n (filter (in_mode m') rows)
             ++ (modes ≫= λ m', take n (filter (in_mode m') rows))))
          ≤ length (filter (λ m', m' = m) (m' :: modes)) * n)%nat.
  rewrite filter_app, length_app. destruct (decide (m' = m)) as [->|Hne].
  - rewrite (filter_cons_True (λ m', m' = m)) by done. cbn [length].
    pose proof (length_filter (in_mode m) (take n (filter (in_mode m) rows))).
    rewrite length_take in *. lia.
  - rewrite filter_in_mode_other, (filter_cons_False (λ m', m' = m)) by done.
    cbn [length]. lia.
Qed.

(** X28.  [scan_runners] returns its rows in descending order of the sort key
    (spike_score, or score when sort_by_spike is off); for every mode name it
    returns at most max(1, top_n_per_mode) rows of that mode for each time
    the name occurs in selected_modes, so at most max(1, top_n_per_mode) rows
    per entry of selected_modes in all; every row carries a selected mode
    whose threshold gate it passes; without candidates it returns no row. *)
Theorem scan_runners_spec (w : world) (candidates : list pydict)
    (selected_modes : list string) (top_n_per_mode : Z)
    (pump sort_by_spike : bool) (out : list pydict) :
  scan_runners w candidates selected_modes top_n_per_mode pump sort_by_spike
  = Some out →
  StronglySorted (legacy_ge sort_by_spike) out
  ∧ (∀ m, (length (filter (in_mode m) out)
           ≤ length (filter (λ m', m' = m) selected_modes)
             * Z.to_nat (Z.max 1 top_n_per_mode))%nat)
  ∧ (length out
     ≤ length selected_modes * Z.to_nat (Z.max 1 top_n_per_mode))%nat
  ∧ Forall (λ r, ∃ m, m ∈ selected_modes ∧ get r "mode" = PStr m
                      ∧ mode_pass r pump m = true) out
  ∧ (candidates = [] → out = []).
Proof.
  unfold scan_runners. intros H.
  assert (Hnil : StronglySorted (legacy_ge sort_by_spike) []
    ∧ (∀ m, (length (filter (in_mode m) (@nil pydict))
             ≤ length (filter (λ m', m' = m) selected_modes)
               * Z.to_nat (Z.max 1 top_n_per_mode))%nat)
    ∧ (length (@nil pydict)
       ≤ length selected_modes * Z.to_nat (Z.max 1 top_n_per_mode))%nat
    ∧ Forall (λ r, ∃ m, m ∈ selected_modes ∧ get r "mode" = PStr m
                        ∧ mode_pass r pump m = true) []
    ∧ (candidates = [] → @nil pydict = [])).
  { split; [constructor|]. split; [intros m; cbn; lia|].
    split; [cbn; lia|]. split; [constructor|done]. }
  destruct candidates as [|c cs]; [by injection H as <-|].
  destruct (token_addresses _) as [addrs|]; [|done].
  cbn [mbind option_bind] in H.
  destruct addrs as [|a addrs]; [by injection H as <-|].
  destruct (foldl legacy_group_pair _ _) as [idx|]; [|done].
  cbn [mbind option_bind] in H.
  destruct (mapM _ _) as [per_token|] eqn:Hp; [|done].
  cbn [mbind option_bind] in H. cbv zeta in H. injection H as <-.
  split; [apply legacy_sort_sorted|]. split; [|split; [|split; [|done]]].
  - intros m. rewrite legacy_sort_perm. apply per_mode_length.
  - unfold legacy_sort at 1. rewrite sort_desc_length. apply bind_take_length.
  - assert (Hrows : Forall (λ r, ∃ m, m ∈ selected_modes
                                 ∧ get r "mode" = PStr m
                                 ∧ mode_pass r pump m = true)
                      (concat per_token)).
    { apply mapM_Some_1 in Hp. clear -Hp.
      induction Hp as [|x rows l per Hx Hl IH]; [constructor|].
      cbn [concat]. apply Forall_app. split; [|done].
      by eapply legacy_token_rows_pass. }
    apply Forall_forall. intros r Hr. rewrite legacy_sort_perm in Hr.
    apply list_elem_of_bind in Hr as (m & Hr & _).
    apply elem_of_take in Hr as (i & Hr & _). apply list_elem_of_lookup_2 in Hr.
    apply list_elem_of_filter in Hr as [_ Hr]. rewrite legacy_sort_perm in Hr.
    by eapply Forall_forall in Hrows.
Qed.

Lemma legacy_row_A_gate :
  Forall (λ k, get legacy_row_A k = get base_row_A k) gate_fields.
Proof. repeat constructor. Qed.

Lemma legacy_rows_A :
  legacy_token_rows world_A true ["degen"] legacy_index_A "TokenA"
  = Some [<["mode" := PStr "degen"]> legacy_row_A].
Proof.
  unfold legacy_token_rows.
  change (default [] (legacy_index_A !! lower "TokenA")) with [pair_A].
  cbv beta iota.
  change (max_pair [pair_A]) with (Some pair_A). cbn [mbind option_bind].
  change (legacy_row world_A true "TokenA" pair_A) with (Some legacy_row_A).
  cbn [mbind option_bind].
  rewrite filter_cons_True, filter_nil; [done|].
  apply Is_true_true. rewrite (mode_pass_ext _ base_row_A).
  - apply mode_pass_A. unfold five_modes.
    apply list_elem_of_further, list_elem_of_further, list_elem_of_further,
      list_elem_of_further, list_elem_of_here.
  - apply legacy_row_A_gate.
Qed.

Lemma scan_runners_A :
  scan_runners world_A [candidate_A] ["degen"] 3 true true
  = Some [<["mode" := PStr "degen"]> legacy_row_A].
Proof.
  unfold scan_runners. rewrite addrs_A. cbn [mbind option_bind].
  change (foldl legacy_group_pair (Some ∅)
            (batch_pairs world_A (take 300 ["TokenA"])))
    with (Some legacy_index_A).
  cbn [mbind option_bind mapM]. rewrite legacy_rows_A.
  cbn [mbind option_bind mret option_ret fmap option_fmap option_map concat app].
  reflexivity.
Qed.

Lemma legacy_rows_two :
  legacy_token_rows world_A true ["degen"; "strict"] legacy_index_A "TokenA"
  = Some [legacy_mode_row_A "degen"; legacy_mode_row_A "strict"].
Proof.
  unfold legacy_token_rows.
  change (default [] (legacy_index_A !! lower "TokenA")) with [pair_A].
  cbv beta iota.
  change (max_pair [pair_A]) with (Some pair_A). cbn [mbind option_bind].
  change (legacy_row world_A true "TokenA" pair_A) with (Some legacy_row_A).
  cbn [mbind option_bind].
  rewrite !filter_cons_True, filter_nil; [done|..].
  all: apply Is_true_true; rewrite (mode_pass_ext _ base_row_A);
    [|apply legacy_row_A_gate].
  all: apply mode_pass_A; unfold five_modes.
  - apply list_elem_of_further, list_elem_of_further, list_elem_of_further,
      list_elem_of_here.
  - apply list_elem_of_further, list_elem_of_further, list_elem_of_further,
      list_elem_of_further, list_elem_of_here.
Qed.

Lemma legacy_sort_same by_spike (rows : list pydict) k :
  Forall (λ r, legacy_key by_spike r = k) rows →
  legacy_sort by_spike rows = rows.
Proof.
  unfold legacy_sort, sort_desc.
  induction rows as [|r rows IH]; [done|].
  intros [Hr Hall]%Forall_cons. cbn [foldr]. rewrite IH by done.
  destruct rows as [|r' rows]; [done|]. cbn [insert_desc].
  apply Forall_cons in Hall as [Hr' _].
  by rewrite bool_decide_eq_false_2 by (rewrite Hr, Hr'; lra).
Qed.

Lemma legacy_key_mode_row by_spike mode :
  legacy_key by_spike (legacy_mode_row_A mode) = legacy_key by_spike legacy_row_A.
Proof.
  unfold legacy_key, legacy_mode_row_A. by rewrite !get_insert_ne by done.
Qed.

(** The token listed twice, for two modes and one row for each mode: of the
    four rows that pass the gates, one of each mode is returned. *)
Lemma scan_runners_twice :
  scan_runners world_A [candidate_A; candidate_A] ["degen"; "strict"] 1
    true true
  = Some [legacy_mode_row_A "degen"; legacy_mode_row_A "strict"].
Proof.
  unfold scan_runners.
  change (token_addresses [candidate_A; candidate_A])
    with (Some ["TokenA"; "TokenA"]).
  cbn [mbind option_bind].
  change (foldl legacy_group_pair (Some ∅)
            (batch_pairs world_A (take 300 ["TokenA"; "TokenA"])))
    with (Some legacy_index_A).
  cbn [mbind option_bind mapM]. rewrite legacy_rows_two.
  cbn [mbind option_bind mret option_ret fmap option_fmap option_map concat app].
  rewrite (legacy_sort_same true
             [legacy_mode_row_A "degen"; legacy_mode_row_A "strict";
              legacy_mode_row_A "degen"; legacy_mode_row_A "strict"]
             (legacy_key true legacy_row_A))
    by (repeat constructor; apply legacy_key_mode_row).
  change (Some (legacy_sort true
            [legacy_mode_row_A "degen"; legacy_mode_row_A "strict"])
          = Some [legacy_mode_row_A "degen"; legacy_mode_row_A "strict"]).
  by rewrite (legacy_sort_same true _ (legacy_key true legacy_row_A))
    by (repeat constructor; apply legacy_key_mode_row).
Qed.

Lemma scan_runners_spec_witness :
  scan_runners world_A [candidate_A; candidate_A] ["degen"; "strict"] 1
    true true
  = Some [legacy_mode_row_A "degen"; legacy_mode_row_A "strict"]
  ∧ StronglySorted (legacy_ge true)
      [legacy_mode_row_A "degen"; legacy_mode_row_A "strict"]
  ∧ (∀ m, (length (filter (in_mode m)
                     [legacy_mode_row_A "degen"; legacy_mode_row_A "strict"])
           ≤ length (filter (λ m', m' = m) ["degen"; "strict"])
             * Z.to_nat (Z.max 1 1))%nat)
  ∧ (length [legacy_mode_row_A "degen"; legacy_mode_row_A "strict"]
     ≤ length ["degen"; "strict"] * Z.to_nat (Z.max 1 1))%nat
  ∧ Forall (λ r, ∃ m, m ∈ ["degen"; "strict"] ∧ get r "mode" = PStr m
                      ∧ mode_pass r true m = true)
      [legacy_mode_row_A "degen"; legacy_mode_row_A "strict"]
  ∧ ([candidate_A; candidate_A] = [] →
     [legacy_mode_row_A "degen"; legacy_mode_row_A "strict"] = []).
Proof.
  split; [apply scan_runners_twice|].
  apply (scan_runners_spec world_A), scan_runners_twice.
Defined.

(** ** The user interface *)

Lemma elem_of_blocked entries a :
  a ∈ App.blocked entries ↔ a ≠ "" ∧ a ∈ strip <$> entries.
Proof.
  unfold App.blocked. rewrite elem_of_list_to_set, list_elem_of_filter. done.
Qed.

Lemma keep_rows_spec (blocked : gset string) opts (rows : list pydict) :
  Forall (λ r, is_Some (App.row_address r)) rows →
  StronglySorted (rank_ge opts) rows →
  ∃ kept,
    App.keep_rows blocked rows = Some kept
    ∧ kept `sublist_of` rows
    ∧ StronglySorted (rank_ge opts) kept
    ∧ ∀ r a, r ∈ rows → App.row_address r = Some a →
        (r ∈ kept ↔ a ∉ blocked).
Proof.
  induction rows as [|r rows IH]; intros Hall Hs.
  - exists []. split; [done|]. split; [done|]. split; [constructor|].
    intros r a Hr. by apply elem_of_nil in Hr.
  - apply Forall_cons in Hall as [[a Ha] Hall].
    apply StronglySorted_inv in Hs as [Hs Hr].
    destruct (IH Hall Hs) as (kept & Hk & Hsub & Hsk & Hiff).
    cbn [App.keep_rows]. rewrite Ha, Hk. cbn [mbind option_bind].
    eexists. split; [done|].
    assert (Hmem : ∀ x, x ∈ kept → x ∈ rows)
      by (intros x Hx; by eapply elem_of_sublist).
    destruct (decide (a ∈ blocked)) as [Hb|Hb].
    + split; [by apply sublist_cons|]. split; [done|].
      intros r' a' [->|Hin]%elem_of_cons Ha'.
      * rewrite Ha in Ha'. injection Ha' as <-. split; [|done].
        intros Hin. by apply Hiff with (a := a) in Hin; [|apply Hmem|].
      * by apply Hiff.
    + split; [by apply sublist_skip|]. split.
      * constructor; [done|]. apply Forall_forall. intros x Hx.
        rewrite Forall_forall in Hr. by apply Hr, Hmem.
      * intros r' a' [->|Hin]%elem_of_cons Ha'.
        -- rewrite Ha in Ha'. injection Ha' as <-. split; [done|].
           intros _. apply list_elem_of_here.
        -- rewrite elem_of_cons, (Hiff r' a' Hin Ha'). split; [|by right].
           intros [->|?]; [|done]. rewrite Ha in Ha'. by injection Ha' as <-.
Qed.

Lemma add_orders_address w r r' :
  add_orders w r = Some r' → get r' "tokenAddress" = get r "tokenAddress".
Proof. intros H. by rewrite (add_orders_get _ _ _ _ H) by not_member. Qed.

Lemma scan_rows_address args w rows dbg :
  run_scan_for_modes args w = Some (rows, dbg) →
  Forall (λ r, ∃ ta, ta ≠ "" ∧ strip ta = ta
                     ∧ get r "tokenAddress" = PStr ta) rows.
Proof.
  intros [->|(tbl & cands & addrs & pidx & per & ranked & Ha & Hp & Hr & Ho)]
    %run_scan_inv; [constructor|].
  assert (Hranked :
    Forall (λ r, ∃ ta, ta ≠ "" ∧ strip ta = ta
                       ∧ get r "tokenAddress" = PStr ta) ranked).
  { apply Forall_forall. intros r Hin.
    eapply (rank_rows_subset _ _ _ Hr) in Hin.
    pose proof (mapM_token_rows_fresh _ _ _ _ _ _
                  (token_addresses_stripped _ _ Ha) Hp) as Hall.
    eapply Forall_forall in Hall as (ta & ? & ? & ? & _); [|done].
    by exists ta. }
  destruct (include_orders (make_opts args)); [|by subst].
  apply mapM_Some_1 in Ho. clear -Ho Hranked.
  induction Ho as [|r r' l l' Hr Hl IH]; [constructor|].
  apply Forall_cons in Hranked as [(ta & ? & ? & Hta) ?].
  constructor; [|by apply IH].
  exists ta. by rewrite (add_orders_address _ _ _ Hr).
Qed.

(** X29.  The blacklist applied by the page to the rows of a scan hides exactly
    the rows whose token address is a blacklist entry (entries trimmed,
    addresses compared as they are, case included): the rows shown are the
    others, in the order of the ranking, and the count of hidden rows is the
    difference of the two lengths. *)
Theorem blacklist_after_scan (args : ScanOptions) (w : world)
    (entries : list string) (rows : list pydict) (dbg : debug) :
  run_scan_for_modes args w = Some (rows, dbg) →
  ∃ kept,
    App.apply_blacklist entries rows
    = Some (kept, Z.of_nat (length rows) - Z.of_nat (length kept))
    ∧ kept `sublist_of` rows
    ∧ StronglySorted (rank_ge (make_opts args)) kept
    ∧ ∀ r ta, r ∈ rows → get r "tokenAddress" = PStr ta →
        (r ∈ kept ↔ ta ∉ strip <$> entries).
Proof.
  intros H. pose proof (scan_rows_address _ _ _ _ H) as Haddr.
  destruct (run_scan_rows _ _ _ _ H) as [Hs _].
  assert (Hra : ∀ r ta, r ∈ rows → get r "tokenAddress" = PStr ta →
                  App.row_address r = Some ta ∧ ta ≠ "").
  { intros r ta Hr Hta. rewrite Forall_forall in Haddr.
    destruct (Haddr r Hr) as (ta' & Hne & Hst & Hta').
    rewrite Hta in Hta'. injection Hta' as <-.
    unfold App.row_address, get_or. unfold get in Hta.
    destruct (r !! "tokenAddress") as [v|]; cbn in Hta; [|done]. subst v.
    cbn. by rewrite Hst. }
  unfold App.apply_blacklist. cbv zeta.
  destruct (bool_decide (App.blocked entries ≠ ∅) && bool_decide (rows ≠ []))
    eqn:Hgo.
  - destruct (keep_rows_spec (App.blocked entries) (make_opts args) rows)
      as (kept & Hk & Hsub & Hsk & Hiff); [|done|].
    { apply Forall_forall. intros r Hr. rewrite Forall_forall in Haddr.
      destruct (Haddr r Hr) as (ta & _ & _ & Hta).
      destruct (Hra r ta Hr Hta) as [-> _]. by eexists. }
    exists kept. rewrite Hk. cbn [mbind option_bind].
    split; [done|]. split; [done|]. split; [done|].
    intros r ta Hr Hta. destruct (Hra r ta Hr Hta) as [Ha Hne].
    rewrite (Hiff r ta Hr Ha), elem_of_blocked. split.
    + intros Hn Hin. apply Hn. by split.
    + intros Hn [_ Hin]. by apply Hn.
  - exists rows. split; [do 2 f_equal; lia|]. split; [done|]. split; [done|].
    intros r ta Hr Hta. split; [|done]. intros _ Hin.
    destruct (Hra r ta Hr Hta) as [_ Hne].
    apply andb_false_iff in Hgo as [Hgo|Hgo].
    + apply bool_decide_eq_false in Hgo. apply dec_stable in Hgo.
      assert (Hb : ta ∈ App.blocked entries) by by apply elem_of_blocked.
      rewrite Hgo in Hb. by apply elem_of_empty in Hb.
    + apply bool_decide_eq_false in Hgo. apply dec_stable in Hgo.
      subst rows. by apply elem_of_nil in Hr.
Qed.

Lemma blacklist_after_scan_witness :
  ∃ dbg kept,
    run_scan_for_modes args_A world_A = Some ([row_A "early_strict"], dbg)
    ∧ App.apply_blacklist [" TokenA "] [row_A "early_strict"]
      = Some (kept, Z.of_nat (length [row_A "early_strict"])
                    - Z.of_nat (length kept))
    ∧ kept `sublist_of` [row_A "early_strict"]
    ∧ StronglySorted (rank_ge (make_opts args_A)) kept
    ∧ ∀ r ta, r ∈ [row_A "early_strict"] → get r "tokenAddress" = PStr ta →
        (r ∈ kept ↔ ta ∉ strip <$> [" TokenA "]).
Proof.
  destruct scan_A as (dbg & H & _).
  destruct (blacklist_after_scan args_A world_A [" TokenA "] _ dbg H)
    as (kept & Hk).
  exists dbg, kept. split; [exact H|exact Hk].
Defined.

Lemma preferred_NoDup : NoDup App.preferred.
Proof. apply (bool_decide_unpack _). by vm_compute. Qed.

Lemma ordered_columns_perm columns :
  NoDup columns → App.ordered_columns columns ≡ₚ columns.
Proof.
  intros Hnd. unfold App.ordered_columns. apply NoDup_Permutation; [|done|].
  - apply NoDup_app. split; [apply NoDup_filter, preferred_NoDup|]. split.
    + intros c [_ Hp]%list_elem_of_filter [Hn _]%list_elem_of_filter. done.
    + by apply NoDup_filter.
  - intros c. rewrite elem_of_app, !list_elem_of_filter.
    split; [by intros [[? _]|[_ ?]]|].
    intros Hc. destruct (decide (c ∈ App.preferred));
      [left|right]; by split.
Qed.

(** X30.  The table of results shows every column once, the preferred ones
    first: the ordering of the columns is a permutation of the columns of
    the rows that begins with the preferred columns that exist, in the order
    of the list of preferred columns, and ends with the other columns in
    their own order.  The columns shown are distinct columns of the rows in
    this ordering, never none of them: the configured visible columns that
    exist, or all the columns when none of the configured ones exists. *)
Theorem shown_columns_spec (visible columns : list string) :
  NoDup columns → columns ≠ [] →
  App.ordered_columns columns ≡ₚ columns
  ∧ (∃ first rest,
       App.ordered_columns columns = first ++ rest
       ∧ first `sublist_of` App.preferred
       ∧ (∀ c, c ∈ first ↔ c ∈ App.preferred ∧ c ∈ columns)
       ∧ rest `sublist_of` columns
       ∧ (∀ c, c ∈ rest ↔ c ∈ columns ∧ c ∉ App.preferred))
  ∧ App.shown_columns visible columns `sublist_of` App.ordered_columns columns
  ∧ NoDup (App.shown_columns visible columns)
  ∧ App.shown_columns visible columns ≠ []
  ∧ ∀ c, c ∈ App.shown_columns visible columns ↔
      c ∈ columns ∧ (c ∈ visible ∨ ∀ v, v ∈ visible → v ∉ columns).
Proof.
  intros Hnd Hne. pose proof (ordered_columns_perm columns Hnd) as Hp.
  split; [done|]. split.
  { exists (filter (λ c, c ∈ columns) App.preferred),
      (filter (λ c, c ∉ App.preferred) columns).
    split; [done|]. split; [apply sublist_filter|].
    split; [intros c; by rewrite list_elem_of_filter, (comm and)|].
    split; [apply sublist_filter|].
    intros c. by rewrite list_elem_of_filter, (comm and). }
  unfold App.shown_columns. cbv zeta.
  set (cols := App.ordered_columns columns) in *.
  assert (Hnd' : NoDup cols) by by rewrite Hp.
  assert (Hin : ∀ c, c ∈ cols ↔ c ∈ columns) by (intros c; by rewrite Hp).
  destruct (filter (λ c, c ∈ cols) visible) as [|v vis] eqn:Hvis.
  - split; [done|]. split; [done|]. split.
    + intros Hc. rewrite Hc in Hp. symmetry in Hp.
      by apply Permutation_nil_r in Hp.
    + intros c. rewrite Hin. split; [|by intros [? _]].
      intros Hc. split; [done|]. right. intros v Hv Hvc.
      assert (Hf : v ∈ filter (λ c, c ∈ cols) visible)
        by (apply list_elem_of_filter; split; [by apply Hin|done]).
      rewrite Hvis in Hf. by apply elem_of_nil in Hf.
  - assert (Hv : ∀ c, c ∈ v :: vis ↔ c ∈ cols ∧ c ∈ visible)
      by (intros c; by rewrite <- Hvis, list_elem_of_filter).
    split; [apply sublist_filter|].
    split; [by apply NoDup_filter|]. split.
    + intros Hc.
      assert (Hf : v ∈ filter (λ c, c ∈ v :: vis) cols).
      { apply list_elem_of_filter. split; [apply list_elem_of_here|].
        apply (Hv v), list_elem_of_here. }
      rewrite Hc in Hf. by apply elem_of_nil in Hf.
    + intros c. rewrite list_elem_of_filter, Hv, Hin. split.
      * intros [[_ ?] ?]. split; [done|by left].
      * intros [Hc [Hcv|Hno]]; [done|].
        exfalso. apply (Hno v).
        -- apply (Hv v), list_elem_of_here.
        -- apply Hin, (Hv v), list_elem_of_here.
Qed.

Lemma shown_columns_spec_witness :
  App.ordered_columns ["tokenAddress"; "extra"; "mode"; "score"]
  = ["mode"; "score"; "tokenAddress"; "extra"]
  ∧ App.shown_columns ["tokenAddress"; "mode"; "absent"]
      ["tokenAddress"; "extra"; "mode"; "score"]
    = ["mode"; "tokenAddress"]
  ∧ App.ordered_columns ["tokenAddress"; "extra"; "mode"; "score"]
    ≡ₚ ["tokenAddress"; "extra"; "mode"; "score"]
  ∧ (∃ first rest,
       App.ordered_columns ["tokenAddress"; "extra"; "mode"; "score"]
       = first ++ rest
       ∧ first `sublist_of` App.preferred
       ∧ (∀ c, c ∈ first ↔
            c ∈ App.preferred
            ∧ c ∈ ["tokenAddress"; "extra"; "mode"; "score"])
       ∧ rest `sublist_of` ["tokenAddress"; "extra"; "mode"; "score"]
       ∧ (∀ c, c ∈ rest ↔
            c ∈ ["tokenAddress"; "extra"; "mode"; "score"]
            ∧ c ∉ App.preferred))
  ∧ App.shown_columns ["tokenAddress"; "mode"; "absent"]
      ["tokenAddress"; "extra"; "mode"; "score"]
    `sublist_of` App.ordered_columns ["tokenAddress"; "extra"; "mode"; "score"]
  ∧ NoDup (App.shown_columns ["tokenAddress"; "mode"; "absent"]
             ["tokenAddress"; "extra"; "mode"; "score"])
  ∧ App.shown_columns ["tokenAddress"; "mode"; "absent"]
      ["tokenAddress"; "extra"; "mode"; "score"]
    ≠ []
  ∧ ∀ c, c ∈ App.shown_columns ["tokenAddress"; "mode"; "absent"]
               ["tokenAddress"; "extra"; "mode"; "score"] ↔
      c ∈ ["tokenAddress"; "extra"; "mode"; "score"]
      ∧ (c ∈ ["tokenAddress"; "mode"; "absent"]
         ∨ ∀ v, v ∈ ["tokenAddress"; "mode"; "absent"] →
             v ∉ ["tokenAddress"; "extra"; "mode"; "score"]).
Proof.
  split; [by vm_compute|]. split; [by vm_compute|].
  apply shown_columns_spec; [|done].
  apply (bool_decide_unpack _). by vm_compute.
Defined.
